(** * gen-katla.py: snippet location, renderer dispatch and aggregation

    A shallow embedding of [gen-katla.py] and the properties of its
    snippet parser, its dispatcher and its aggregating [main].

    Modelling conventions.
    - A Python [str] is a [list ascii]: text over the code points below 256.
      The character classes of [str.strip] and of the [re] module
      ([\s], [\w], [.]) are the ones Python uses for those code points.
    - A Python [int] is a [Z].  Loop indices that only count upwards from 0
      are [nat] and are injected into [Z] where the source stores them.
    - [re.match] and [re.finditer] are given by a backtracking matcher over
      the pattern constructs that the three patterns of the source use.
    - Lines written to [sys.stderr] are kept, in order, in a list; progress
      messages written to standard output carry no data that is used later
      and are left out.
    - The file system and the renderer process are an environment record;
      the sequence of renderer invocations is kept as a trace. *)

From Stdlib Require Import Ascii String DecimalString.
From Stdlib Require Import DecimalPos DecimalZ.
From Stdlib Require Import ZArith Lia Bool Arith PeanoNat List Sorted.
Import ListNotations.

Local Open Scope list_scope.

(** ** Strings *)

Definition str := list ascii.

(** A string literal as a [str]. *)
Definition lit (x : string) : str := list_ascii_of_string x.

Definition code (c : ascii) : nat := nat_of_ascii c.

Definition chr_eqb (a b : ascii) : bool := Ascii.eqb a b.

(** [str(n)] for an [int]. *)
Definition str_of_int (n : Z) : str :=
  list_ascii_of_string (NilZero.string_of_int (Z.to_int n)).

(** [c.isspace()], also the class [\s] of [re] on [str] patterns. *)
Definition is_space (c : ascii) : bool :=
  let n := code c in
  ((9 <=? n) && (n <=? 13)) || ((28 <=? n) && (n <=? 32))
  || (n =? 133) || (n =? 160).

(** The class [\w] of [re] on [str] patterns: alphanumeric or underscore. *)
Definition is_word (c : ascii) : bool :=
  let n := code c in
  ((48 <=? n) && (n <=? 57)) || ((65 <=? n) && (n <=? 90)) || (n =? 95)
  || ((97 <=? n) && (n <=? 122))
  || (n =? 170) || (n =? 178) || (n =? 179) || (n =? 181) || (n =? 185)
  || (n =? 186) || ((188 <=? n) && (n <=? 190))
  || ((192 <=? n) && (n <=? 214)) || ((216 <=? n) && (n <=? 246))
  || ((248 <=? n) && (n <=? 255)).

(** The class [.] of [re] without DOTALL: anything but a newline. *)
Definition is_dot (c : ascii) : bool := negb (code c =? 10).

Fixpoint dropwhile (p : ascii -> bool) (l : str) : str :=
  match l with
  | [] => []
  | c :: l' => if p c then dropwhile p l' else l
  end.

(** [x.lstrip()], [x.rstrip()] and [x.strip()] without argument. *)
Definition lstrip (x : str) : str := dropwhile is_space x.
Definition rstrip (x : str) : str := rev (dropwhile is_space (rev x)).
Definition strip (x : str) : str := rstrip (lstrip x).

(** [x.rstrip(chars)]. *)
Definition str_mem (c : ascii) (chars : str) : bool :=
  existsb (chr_eqb c) chars.
Definition rstrip_chars (chars x : str) : str :=
  rev (dropwhile (fun c => str_mem c chars) (rev x)).

(** [x.startswith(p)] and [x.endswith(p)]. *)
Fixpoint startswith (x p : str) {struct p} : bool :=
  match p, x with
  | [], _ => true
  | _ :: _, [] => false
  | a :: p', b :: x' => chr_eqb a b && startswith x' p'
  end.

Definition endswith (x p : str) : bool := startswith (rev x) (rev p).

(** [x[a:b]] for [0 <= a] and [0 <= b]. *)
Definition slice (x : str) (a b : nat) : str := firstn (b - a) (skipn a x).

(** [x.find(sub, start)]: the lowest index [i >= start] at which [sub]
    occurs, or [-1]. *)
Fixpoint find_in (sub x : str) (i : nat) : Z :=
  if startswith x sub then Z.of_nat i
  else match x with
       | [] => -1
       | _ :: x' => find_in sub x' (S i)
       end.

Definition str_find (x sub : str) (start : nat) : Z :=
  if Nat.leb start (length x) then find_in sub (skipn start x) start
  else -1.

(** [x.rfind(sub, start, stop)]: the highest index [i] with [start <= i] and
    [i + len(sub) <= stop] at which [sub] occurs, or [-1]. *)
Fixpoint rfind_in (sub x : str) (i : nat) (best : Z) : Z :=
  let best' := if startswith x sub then Z.of_nat i else best in
  match x with
  | [] => best'
  | _ :: x' => rfind_in sub x' (S i) best'
  end.

Definition str_rfind (x sub : str) (start stop : nat) : Z :=
  let stop' := Nat.min stop (length x) in
  if Nat.leb start stop'
  then rfind_in sub (slice x start stop') start (-1)
  else -1.

(** ** Regular expressions

    The constructs of the three patterns of the source, and Python's
    backtracking match for them.  A pattern is a sequence of atoms; group 1
    is the only group whose text the source reads. *)

Inductive atom : Type :=
| Chr (c : ascii)      (* a literal character, also an escaped one *)
| Str (x : str)        (* re.escape(x): the text x, literally *)
| Spaces               (* \s*  greedy *)
| Word1                (* (\w+)  greedy, group 1 *)
| LazyAny              (* (.*?)  lazy *)
| Back1                (* \1 *)
| Eol.                 (* $ without MULTILINE *)

Definition pattern := list atom.

(** The result of a successful match attempt at a position: how many
    characters it spans, and the text of group 1 when it took part. *)
Definition mres : Type := nat * option str.

Definition shift (n : nat) (r : option mres) : option mres :=
  match r with
  | Some (m, g) => Some (n + m, g)
  | None => None
  end.

(** The three repetitions, each followed by the rest of the pattern
    [cont].  Alternatives are tried in Python's order: a greedy repetition
    takes the most first and gives back one character at a time, a lazy one
    takes the least first. *)

(** [\s*] *)
Definition greedy_spaces (cont : str -> option mres) : str -> option mres :=
  fix go (x : str) : option mres :=
    match x with
    | c :: x' =>
        if is_space c
        then match go x' with
             | Some r => shift 1 (Some r)
             | None => cont x
             end
        else cont x
    | [] => cont x
    end.

(** [(\w+)]: [acc] is the text of the group so far. *)
Definition greedy_word (cont : str -> str -> option mres)
  : str -> str -> option mres :=
  fix go (acc x : str) : option mres :=
    match x with
    | c :: x' =>
        if is_word c
        then match go (acc ++ [c]) x' with
             | Some r => shift 1 (Some r)
             | None => shift 1 (cont (acc ++ [c]) x')
             end
        else None
    | [] => None
    end.

(** [(.*?)] *)
Definition lazy_any (cont : str -> option mres) : str -> option mres :=
  fix go (x : str) : option mres :=
    match cont x with
    | Some r => Some r
    | None =>
        match x with
        | c :: x' => if is_dot c then shift 1 (go x') else None
        | [] => None
        end
    end.

(** [rmatch p g x]: match [p] at the start of [x], group 1 being [g] so
    far. *)
Fixpoint rmatch (p : pattern) (g : option str) (x : str) {struct p}
  : option mres :=
  match p with
  | [] => Some (0, g)
  | Chr c :: k =>
      match x with
      | c' :: x' => if chr_eqb c c' then shift 1 (rmatch k g x') else None
      | [] => None
      end
  | Str t :: k =>
      if startswith x t
      then shift (length t) (rmatch k g (skipn (length t) x))
      else None
  | Spaces :: k => greedy_spaces (rmatch k g) x
  | Word1 :: k => greedy_word (fun w x' => rmatch k (Some w) x') [] x
  | LazyAny :: k => lazy_any (rmatch k g) x
  | Back1 :: k =>
      match g with
      | Some t =>
          if startswith x t
          then shift (length t) (rmatch k g (skipn (length t) x))
          else None
      | None => None
      end
  | Eol :: k =>
      match x with
      | [] => rmatch k g x
      | [c] => if code c =? 10 then rmatch k g x else None
      | _ => None
      end
  end.

(** [re.match(p, x)]: the span of the match and group 1, or [None]. *)
Definition re_match (p : pattern) (x : str) : option mres := rmatch p None x.

(** [re.finditer(p, x)] as the list of (start, end, group 1), left to
    right.  [skip] counts the characters of [x] still covered by the
    previous match; the next attempt starts where that match ended.
    [pos] is the index of the head of [x] in the whole string. *)
Fixpoint finditer_from (p : pattern) (x : str) (pos skip : nat)
  : list (nat * nat * option str) :=
  match skip with
  | S skip' =>
      match x with
      | [] => []
      | _ :: x' => finditer_from p x' (S pos) skip'
      end
  | O =>
      match re_match p x with
      | Some (n, g) =>
          (pos, pos + n, g) ::
          match x with
          | [] => []
          | _ :: x' => finditer_from p x' (S pos) (n - 1)
          end
      | None =>
          match x with
          | [] => []
          | _ :: x' => finditer_from p x' (S pos) 0
          end
      end
  end.

Definition finditer (p : pattern) (x : str) : list (nat * nat * option str) :=
  finditer_from p x 0 0.

(** ** The world: standard error, the file system, the renderer *)

(** What [subprocess.run(cmd, capture_output=True, text=True)] gives:
    a completed process, or an exception whose text is [e]. *)
Inductive ProcResult : Type :=
| Completed (returncode : Z) (stdout stderr : str)
| Raised (e : str).

(** What opening a file and calling [readlines] on it gives: the lines,
    each with its terminator, or an exception whose text is [e]
    ([not_found] tells a FileNotFoundError from the others). *)
Inductive ReadResult : Type :=
| ReadLines (raw : list str)
| ReadFails (not_found : bool) (e : str).

Record World : Type := mkWorld {
  w_stderr : list str;                       (* lines printed to sys.stderr *)
  w_trace : list (list str * ProcResult);    (* renderer invocations so far *)
  w_file : option (list str)                 (* what was written to katla-macros.tex *)
}.

Record Env : Type := mkEnv {
  path_exists : str -> bool;                 (* os.path.exists *)
  readlines : str -> ReadResult;
  subprocess_run : list (list str * ProcResult) -> list str -> ProcResult;
  mkdir_ok : bool;                           (* output_file.parent.mkdir succeeds *)
  write_error : option str                   (* the exception of open/writelines, if any *)
}.

Definition world0 : World := mkWorld [] [] None.

(** A computation that reads and extends the world. *)
Definition M (A : Type) : Type := World -> A * World.

Definition ret {A : Type} (a : A) : M A := fun w => (a, w).

Definition bind {A B : Type} (m : M A) (k : A -> M B) : M B :=
  fun w => let (a, w') := m w in k a w'.

Declare Scope io_scope.
Delimit Scope io_scope with io.
Notation "x <- m ;; k" := (bind m (fun x => k))
  (at level 61, m at next level, right associativity) : io_scope.
Notation "m ;;; k" := (bind m (fun _ => k))
  (at level 61, right associativity) : io_scope.
Local Open Scope io_scope.

(** [print(msg, file=sys.stderr)]. *)
Definition eprint (msg : str) : M unit :=
  fun w => (tt, mkWorld (w_stderr w ++ [msg]) (w_trace w) (w_file w)).

(** [subprocess.run(cmd, ...)], recorded in the trace. *)
Definition run_process (env : Env) (cmd : list str) : M ProcResult :=
  fun w =>
    let r := subprocess_run env (w_trace w) cmd in
    (r, mkWorld (w_stderr w) (w_trace w ++ [(cmd, r)]) (w_file w)).

(** [f.writelines(content)] on the output file. *)
Definition write_output (content : list str) : M unit :=
  fun w => (tt, mkWorld (w_stderr w) (w_trace w) (Some content)).

Fixpoint foldM {A B : Type} (f : A -> B -> M A) (l : list B) (a : A) : M A :=
  match l with
  | [] => ret a
  | b :: l' => a' <- f a b ;; foldM f l' a'
  end.

(** ** Snippets *)

Record DisplaySnippet : Type := mkDisplay {
  d_name : str;
  d_line_offset : Z;
  d_line_count : Z
}.

Record InlineSnippet : Type := mkInline {
  i_name : str;
  i_line_offset : Z;
  i_column_start_offset : Z;
  i_column_end_offset : Z
}.

(** [Snippet = Union[DisplaySnippet, InlineSnippet]]; the field [kind] of
    the source is the constructor. *)
Inductive Snippet : Type :=
| Display (d : DisplaySnippet)
| Inline (i : InlineSnippet).

Inductive Kind : Type := display | inline.

Definition kind (sn : Snippet) : Kind :=
  match sn with Display _ => display | Inline _ => inline end.

Definition name (sn : Snippet) : str :=
  match sn with Display d => d_name d | Inline i => i_name i end.

(** ** parse_display_snippets *)

Definition nl : ascii := "010"%char.
Definition cr : ascii := "013"%char.

(** [match.group(1)]. *)
Definition group1 (g : option str) : str :=
  match g with Some t => t | None => [] end.

(** [r"^--\s*<(\w+)>\s*$"] *)
Definition display_start_pattern : pattern :=
  [Chr "-"; Chr "-"; Spaces; Chr "<"; Word1; Chr ">"; Spaces; Eol]%char.

(** [rf"^--\s*</{re.escape(name)}>\s*$"] *)
Definition display_end_pattern (name : str) : pattern :=
  [Chr "-"; Chr "-"; Spaces; Chr "<"; Chr "/"; Str name; Chr ">"; Spaces;
   Eol]%char.

Definition unclosed_warning (name : str) (start_line : nat) : str :=
  lit "Warning: Unclosed display tag '<" ++ name ++ lit ">' at line "
  ++ str_of_int (Z.of_nat start_line + 1).

(** The inner [while j < len(lines)]: [rest] is [lines[j:]].  The index of
    the first line that matches the closing tag, if there is one. *)
Fixpoint find_closing (name : str) (rest : list str) (j : nat) : option nat :=
  match rest with
  | [] => None
  | l :: rest' =>
      let end_line := strip l in
      match re_match (display_end_pattern name) end_line with
      | Some _ => Some j
      | None => find_closing name rest' (S j)
      end
  end.

(** The outer [while i < len(lines)]: [rest] is [lines[i:]]. *)
Fixpoint display_loop (rest : list str) (i : nat)
    (snippets : list DisplaySnippet) : M (list DisplaySnippet) :=
  match rest with
  | [] => ret snippets
  | l :: rest' =>
      let line := strip l in
      match re_match display_start_pattern line with
      | Some (_, g) =>
          let name := group1 g in
          let start_line := i in
          match find_closing name rest' (i + 1) with
          | Some j =>
              let line_offset := (Z.of_nat start_line + 1)%Z in
              let line_count := (Z.of_nat j - Z.of_nat start_line - 1)%Z in
              display_loop rest' (i + 1)
                (snippets ++ [mkDisplay name line_offset line_count])
          | None =>
              eprint (unclosed_warning name start_line) ;;;
              display_loop rest' (i + 1) snippets
          end
      | None => display_loop rest' (i + 1) snippets
      end
  end.

Definition parse_display_snippets (lines : list str)
  : M (list DisplaySnippet) :=
  display_loop lines 0 [].

(** ** parse_inline_snippets *)

(** [r"\{-\s*<(\w+)>\s*-\}(.*?)\{-\s*</\1>\s*-\}"] *)
Definition inline_pattern : pattern :=
  [Chr "{"; Chr "-"; Spaces; Chr "<"; Word1; Chr ">"; Spaces; Chr "-";
   Chr "}"; LazyAny;
   Chr "{"; Chr "-"; Spaces; Chr "<"; Chr "/"; Back1; Chr ">"; Spaces;
   Chr "-"; Chr "}"]%char.

(** The body of [for match in matches]. *)
Definition inline_of_match (line : str) (line_idx : nat)
    (m : nat * nat * option str) : InlineSnippet :=
  let '(start_pos, end_pos, g) := m in
  let name := group1 g in
  let opening_tag_end := (str_find line (lit "-}") start_pos + 2)%Z in
  let closing_tag_start := str_rfind line (lit "{-") start_pos end_pos in
  let column_start_offset := opening_tag_end in
  let column_end_offset := closing_tag_start in
  mkInline name (Z.of_nat line_idx + 1) column_start_offset column_end_offset.

(** [for line_idx, line in enumerate(lines)]: [rest] is [lines[line_idx:]]. *)
Fixpoint inline_loop (rest : list str) (line_idx : nat)
    (snippets : list InlineSnippet) : list InlineSnippet :=
  match rest with
  | [] => snippets
  | line :: rest' =>
      let matches := finditer inline_pattern line in
      inline_loop rest' (S line_idx)
        (fold_left (fun acc m => acc ++ [inline_of_match line line_idx m])
                   matches snippets)
  end.

Definition parse_inline_snippets (lines : list str) : list InlineSnippet :=
  inline_loop lines 0 [].

(** ** parse_file *)

(** The body of [parse_file] once the lines are stripped of their
    terminators. *)
Definition parse_lines (lines : list str) : M (list Snippet) :=
  display_snippets <- parse_display_snippets lines ;;
  let inline_snippets := parse_inline_snippets lines in
  ret (map Display display_snippets ++ map Inline inline_snippets).

Definition parse_file (env : Env) (filepath : str) : M (list Snippet) :=
  match readlines env filepath with
  | ReadLines raw =>
      let lines := map (rstrip_chars [nl; cr]) raw in
      parse_lines lines
  | ReadFails true _ =>
      eprint (lit "Error: File '" ++ filepath ++ lit "' not found") ;;;
      ret []
  | ReadFails false e =>
      eprint (lit "Error parsing file '" ++ filepath ++ lit "': " ++ e) ;;;
      ret []
  end.

(** ** run_katla_command *)

(** The [match snippet.kind] that builds [cmd]. *)
Definition katla_cmd (snippet : Snippet) (src_file ttm_file : str)
  : list str :=
  match snippet with
  | Display d =>
      [lit "katla"; lit "latex"; lit "macro";
       d_name d; src_file; ttm_file;
       str_of_int (d_line_offset d + 1);
       lit "0";
       str_of_int (d_line_count d - 1)]
  | Inline i =>
      [lit "katla"; lit "latex"; lit "macro"; lit "inline";
       i_name i; src_file; ttm_file;
       lit "0";
       str_of_int (i_line_offset i);
       str_of_int (i_column_start_offset i + 1);
       str_of_int (i_column_end_offset i)]
  end.

Definition error_line (snippet : Snippet) : str :=
  lit "% Error generating macro for " ++ name snippet ++ [nl].

Definition dry_run_line (snippet : Snippet) : str :=
  lit "% Dry run - would generate macro for " ++ name snippet ++ [nl].

Definition run_katla_command (env : Env) (snippet : Snippet)
    (src_file ttm_file : str) (dry_run : bool) : M str :=
  let cmd := katla_cmd snippet src_file ttm_file in
  if dry_run then ret (dry_run_line snippet)
  else
    result <- run_process env cmd ;;
    match result with
    | Completed returncode stdout stderr =>
        if negb (returncode =? 0)%Z then
          eprint (lit "Error running katla for " ++ name snippet
                  ++ lit ": " ++ stderr) ;;;
          ret (error_line snippet)
        else ret stdout
    | Raised e =>
        eprint (lit "Error running katla command for " ++ name snippet
                ++ lit ": " ++ e) ;;;
        ret (error_line snippet)
    end.

(** ** main *)

Record Args : Type := mkArgs {
  files : list str;
  output_dir : str;
  dry_run : bool
}.

(** The three variables that [main] updates while it runs. *)
Record Totals : Type := mkTotals {
  total_success : Z;
  total_snippets : Z;
  all_macro_content : list str
}.

(** [[(files[i], files[i + 1]) for i in range(0, len(files), 2)]] for a
    list of even length. *)
Fixpoint file_pairs (files : list str) : list (str * str) :=
  match files with
  | a :: b :: rest => (a, b) :: file_pairs rest
  | _ => []
  end.

(** The truth value of a [str]. *)
Definition truthy (x : str) : bool :=
  match x with [] => false | _ :: _ => true end.

(** The truth value of a list. *)
Definition truthy_list {A : Type} (l : list A) : bool :=
  match l with [] => false | _ :: _ => true end.

(** What the aggregator does with the output of one dispatch. *)
Definition collect (t : Totals) (macro_output : str) : Totals :=
  if truthy macro_output && negb (startswith macro_output (lit "% Error"))
  then
    let c := all_macro_content t ++ [macro_output] in
    let c := if negb (endswith macro_output [nl]) then c ++ [[nl]] else c in
    mkTotals (total_success t + 1) (total_snippets t) c
  else if truthy macro_output then
    mkTotals (total_success t) (total_snippets t)
             (all_macro_content t ++ [macro_output])
  else t.

(** The body of [for snippet in snippets]. *)
Definition main_snippet (env : Env) (src_file ttm_file : str) (dry : bool)
    (t : Totals) (snippet : Snippet) : M Totals :=
  macro_output <- run_katla_command env snippet src_file ttm_file dry ;;
  ret (collect t macro_output).

Definition append_content (t : Totals) (x : str) : Totals :=
  mkTotals (total_success t) (total_snippets t) (all_macro_content t ++ [x]).

(** The body of [for src_file, ttm_file in file_pairs]. *)
Definition main_pair (env : Env) (dry : bool) (t : Totals)
    (pair : str * str) : M Totals :=
  let (src_file, ttm_file) := pair in
  if negb (path_exists env src_file) then
    eprint (lit "Error: Source file '" ++ src_file ++ lit "' not found") ;;;
    ret t
  else if negb dry && negb (path_exists env ttm_file) then
    eprint (lit "Error: TTM file '" ++ ttm_file ++ lit "' not found") ;;;
    ret t
  else
    snippets <- parse_file env src_file ;;
    let t := mkTotals (total_success t)
               (total_snippets t + Z.of_nat (length snippets))
               (all_macro_content t) in
    if dry then
      match readlines env src_file with
      | ReadLines _ => ret t
      | ReadFails _ e =>
          eprint (lit "Error reading file for debug: " ++ e) ;;; ret t
      end
    else
      let t := if truthy_list snippets
               then append_content t
                      (lit "% Macros from " ++ src_file ++ [nl])
               else t in
      t <- foldM (main_snippet env src_file ttm_file dry) snippets t ;;
      ret (if truthy_list snippets then append_content t [nl] else t).

Definition header : list str :=
  [lit "% Generated LaTeX macros for all Idris files" ++ [nl];
   lit "% Generated by gen-katla.py" ++ [nl; nl]].

Definition totals0 : Totals := mkTotals 0 0 header.

(** The loop over the file pairs, from the initial totals. *)
Definition main_loop (env : Env) (args : Args) : M Totals :=
  foldM (main_pair env (dry_run args)) (file_pairs (files args)) totals0.

(** What follows the loop: writing the combined file and choosing the exit
    status. *)
Definition main_finish (env : Env) (args : Args) (t : Totals) : M Z :=
  if negb (dry_run args) then
    if negb (mkdir_ok env) then ret 1%Z      (* uncaught exception *)
    else
      match write_error env with
      | Some e =>
          eprint (lit "Error writing combined macro file: " ++ e) ;;;
          ret 1%Z
      | None =>
          write_output (all_macro_content t) ;;;
          if (total_success t <? total_snippets t)%Z then ret 1%Z
          else ret 0%Z
      end
  else ret 0%Z.

(** [main], after [parser.parse_args()]: the exit status of the process. *)
Definition main (env : Env) (args : Args) : M Z :=
  if negb (length (files args) mod 2 =? 0) then
    eprint (lit "Error: Files must be provided in pairs of (IDRIS_SRC_FILE, IDRIS_TTM_FILE)") ;;;
    ret 1%Z
  else
    t <- main_loop env args ;;
    main_finish env args t.

(** ** print_snippet_debug

    What [print_snippet_debug] prints goes to standard output; the function
    is given here by the lines it prints, and by the exception that ends
    it when an index is out of range. *)

(** [xs[i]]: a negative index counts from the end, and [None] stands for
    the IndexError of an index out of range. *)
Definition py_index {A : Type} (xs : list A) (i : Z) : option A :=
  let n := Z.of_nat (length xs) in
  let j := if (i <? 0)%Z then (i + n)%Z else i in
  if ((0 <=? j) && (j <? n))%Z then nth_error xs (Z.to_nat j) else None.

(** [x[a:b]] for integers of either sign. *)
Definition py_slice (x : str) (a b : Z) : str :=
  let n := Z.of_nat (length x) in
  let clamp := fun i : Z =>
    if (i <? 0)%Z then Z.max 0 (i + n) else Z.min i n in
  slice x (Z.to_nat (clamp a)) (Z.to_nat (clamp b)).

(** [range(a, b)]. *)
Fixpoint range_from (a : Z) (n : nat) : list Z :=
  match n with
  | O => []
  | S n' => a :: range_from (a + 1) n'
  end.

Definition py_range (a b : Z) : list Z := range_from a (Z.to_nat (b - a)).

Definition index_error : str := lit "list index out of range".

Definition kind_str (k : Kind) : str :=
  match k with display => lit "display" | inline => lit "inline" end.

(** [for i in range(...): print(f"    {i+1}: {lines[i]}")]. *)
Fixpoint debug_content (lines : list str) (indices : list Z)
  : list str * option str :=
  match indices with
  | [] => ([], None)
  | i :: indices' =>
      match py_index lines i with
      | Some l =>
          let (out, e) := debug_content lines indices' in
          ((lit "    " ++ str_of_int (i + 1) ++ lit ": " ++ l) :: out, e)
      | None => ([], Some index_error)
      end
  end.

Definition print_snippet_debug (snippet : Snippet) (src_file : str)
    (lines : list str) : list str * option str :=
  let head :=
    [lit "Snippet: " ++ name snippet ++ lit " ("
       ++ kind_str (kind snippet) ++ lit ")";
     lit "  File: " ++ src_file] in
  match snippet with
  | Display d =>
      let out :=
        head ++ [lit "  Line offset: " ++ str_of_int (d_line_offset d);
                 lit "  Line count: " ++ str_of_int (d_line_count d);
                 lit "  Content:"] in
      let start_line := d_line_offset d in
      let end_line := (start_line + d_line_count d)%Z in
      let (content, e) :=
        debug_content lines
          (py_range start_line (Z.min end_line (Z.of_nat (length lines)))) in
      match e with
      | None => (out ++ content ++ [[]], None)
      | Some _ => (out ++ content, e)
      end
  | Inline i =>
      let out :=
        head ++ [lit "  Line offset: " ++ str_of_int (i_line_offset i);
                 lit "  Column start: "
                   ++ str_of_int (i_column_start_offset i);
                 lit "  Column end: " ++ str_of_int (i_column_end_offset i)] in
      match py_index lines (i_line_offset i - 1) with
      | Some line_content =>
          let snippet_content :=
            py_slice line_content (i_column_start_offset i)
                     (i_column_end_offset i) in
          (out ++ [lit "  Line content: " ++ line_content;
                   lit "  Snippet content: '" ++ snippet_content ++ lit "'";
                   []],
           None)
      | None => (out, Some index_error)
      end
  end.

(** * The vocabulary of the statements

    Shapes of markers, what a scan adds, the order of records, the success
    of an invocation: the notions that the statements below are written
    with.  None of them is part of the program. *)

(** [matches p g x n g']: the first [n] characters of [x] are an
    instance of [p], group 1 being [g] before and [g'] after.  This reading
    of a pattern has no order of alternatives in it. *)
Inductive matches : pattern -> option str -> str -> nat -> option str -> Prop :=
| M_nil g x : matches [] g x 0 g
| M_chr c k g x n g' :
    matches k g x n g' -> matches (Chr c :: k) g (c :: x) (S n) g'
| M_str t k g x n g' :
    matches k g x n g' -> matches (Str t :: k) g (t ++ x) (length t + n) g'
| M_spaces ws k g x n g' :
    forallb is_space ws = true ->
    matches k g x n g' ->
    matches (Spaces :: k) g (ws ++ x) (length ws + n) g'
| M_word w k g x n g' :
    w <> [] -> forallb is_word w = true ->
    matches k (Some w) x n g' ->
    matches (Word1 :: k) g (w ++ x) (length w + n) g'
| M_lazy t k g x n g' :
    forallb is_dot t = true ->
    matches k g x n g' ->
    matches (LazyAny :: k) g (t ++ x) (length t + n) g'
| M_back t k x n g' :
    matches k (Some t) x n g' ->
    matches (Back1 :: k) (Some t) (t ++ x) (length t + n) g'
| M_eol k g x n g' :
    x = [] \/ x = [nl] ->
    matches k g x n g' -> matches (Eol :: k) g x n g'.

(** [x] is empty or begins with a character outside the class [p]. *)
Definition head_not (p : ascii -> bool) (x : str) : Prop :=
  match x with
  | [] => True
  | c :: _ => p c = false
  end.

(** A trimmed opening line: the comment leader, optional white space,
    and [<NAME>], nothing else. *)
Definition open_tag (ws name : str) : str :=
  lit "--" ++ ws ++ lit "<" ++ name ++ lit ">".

(** A trimmed closing line. *)
Definition close_tag (ws name : str) : str :=
  lit "--" ++ ws ++ lit "</" ++ name ++ lit ">".

(** A tag name: one or more word characters. *)
Definition is_name (name : str) : Prop :=
  name <> [] /\ forallb is_word name = true.

(** The line [l], trimmed, is the opening marker of [name]. *)
Definition opening_marker (name l : str) : Prop :=
  exists ws, forallb is_space ws = true /\ is_name name /\
             strip l = open_tag ws name.

(** The line [l], trimmed, is the closing marker of [name]. *)
Definition closing_marker (name l : str) : Prop :=
  exists ws, forallb is_space ws = true /\ strip l = close_tag ws name.

(** The world [w] after the lines [es] were printed to standard error. *)
Definition add_stderr (w : World) (es : list str) : World :=
  mkWorld (w_stderr w ++ es) (w_trace w) (w_file w).

(** The first line of [rest] that closes [name] is the one at index [k]. *)
Definition first_close (name : str) (rest : list str) (k : nat) : Prop :=
  (exists l, nth_error rest k = Some l /\ closing_marker name l) /\
  (forall k' l, k' < k -> nth_error rest k' = Some l ->
                ~ closing_marker name l).

(** What one run of the scan over [rest] (the lines from index [i] on)
    adds: the records, and the warnings. *)
Fixpoint display_out (rest : list str) (i : nat)
  : list DisplaySnippet * list str :=
  match rest with
  | [] => ([], [])
  | l :: rest' =>
      let (ds, es) := display_out rest' (S i) in
      match re_match display_start_pattern (strip l) with
      | Some (_, g) =>
          match find_closing (group1 g) rest' (S i) with
          | Some j =>
              (mkDisplay (group1 g) (Z.of_nat i + 1)
                         (Z.of_nat j - Z.of_nat i - 1) :: ds, es)
          | None => (ds, unclosed_warning (group1 g) i :: es)
          end
      | None => (ds, es)
      end
  end.

(** A display pair: an opening marker for [name] on line [L], its first
    closing marker [k] lines further down (both 0-indexed). *)
Definition display_pair (lines : list str) (L k : nat) (name : str) : Prop :=
  (exists l, nth_error lines L = Some l /\ opening_marker name l) /\
  (exists l, nth_error lines (L + k + 1) = Some l /\ closing_marker name l) /\
  (forall j l, L < j < L + k + 1 -> nth_error lines j = Some l ->
               ~ closing_marker name l).

(** C4, as the specification states it: for an opening marker on the
    1-indexed line [M = L + 1], the record has [line_offset = M + 1]. *)
Definition line_offset_is_first_content_line : Prop :=
  forall lines L k nm w,
    display_pair lines L k nm ->
    In (mkDisplay nm (Z.of_nat (L + 1) + 1) (Z.of_nat k))
       (fst (parse_display_snippets lines w)).

(** An inline opening marker and an inline closing marker. *)
Definition inline_open (ws1 name ws2 : str) : str :=
  lit "{-" ++ ws1 ++ lit "<" ++ name ++ lit ">" ++ ws2 ++ lit "-}".

Definition inline_close (ws1 name ws2 : str) : str :=
  lit "{-" ++ ws1 ++ lit "</" ++ name ++ lit ">" ++ ws2 ++ lit "-}".

(** [match.start()] and [match.end()]. *)
Definition m_start (m : nat * nat * option str) : nat := fst (fst m).
Definition m_end (m : nat * nat * option str) : nat := snd (fst m).

(** The character [c] does not occur in [x]. *)
Definition lacks (c : ascii) (x : str) : Prop :=
  forallb (fun a => negb (chr_eqb a c)) x = true.

(** What the inline scan over [rest] (the lines from index [line_idx] on)
    adds. *)
Fixpoint inline_out (rest : list str) (line_idx : nat) : list InlineSnippet :=
  match rest with
  | [] => []
  | line :: rest' =>
      map (inline_of_match line line_idx) (finditer inline_pattern line)
      ++ inline_out rest' (S line_idx)
  end.

(** An inline record comes before another: on an earlier line, or on the
    same line and ending before the other starts. *)
Definition inline_before (a b : InlineSnippet) : Prop :=
  (i_line_offset a < i_line_offset b)%Z \/
  (i_line_offset a = i_line_offset b /\
   (i_column_end_offset a < i_column_start_offset b)%Z).

(** What [run_katla_command] returns in normal mode for a given result
    of the renderer process. *)
Definition output_of (r : ProcResult) (sn : Snippet) : str :=
  match r with
  | Completed rc out _ => if negb (rc =? 0)%Z then error_line sn else out
  | Raised _ => error_line sn
  end.

(** The renderer exited with status 0 and printed something that does not
    begin with [% Error]. *)
Definition dispatch_ok (r : ProcResult) : bool :=
  match r with
  | Completed rc out _ =>
      (rc =? 0)%Z && truthy out && negb (startswith out (lit "% Error"))
  | Raised _ => false
  end.

(** The same, for an entry of the trace. *)
Definition entry_ok (e : list str * ProcResult) : bool := dispatch_ok (snd e).

(** What a stretch of the run did: the invocations it added to the trace,
    counted in the two counters. *)
Definition ran (t : Totals) (w : World) (t' : Totals) (w' : World)
    (new : list (list str * ProcResult)) : Prop :=
  w_trace w' = w_trace w ++ new /\
  w_file w' = w_file w /\
  total_success t'
  = (total_success t + Z.of_nat (length (filter entry_ok new)))%Z.

(** What one dispatch added to the combined document. *)
Definition new_content (t t' : Totals) : list str :=
  skipn (length (all_macro_content t)) (all_macro_content t').

(** [x] ends with a newline and not with two. *)
Definition ends_with_one_newline (x : str) : bool :=
  endswith x [nl] && negb (endswith x [nl; nl]).

(** C8, as the specification states it: the fragment of every dispatch
    that is counted as a success ends with exactly one newline. *)
Definition fragment_ends_with_exactly_one_newline : Prop :=
  forall env src ttm t sn w,
    let t' := fst (main_snippet env src ttm false t sn w) in
    total_success t' = (total_success t + 1)%Z ->
    ends_with_one_newline (concat (new_content t t')) = true.

(** The part of [inline_pattern] after [(.*?)]: the closing marker. *)
Definition inline_close_pattern : pattern :=
  [Chr "{"; Chr "-"; Spaces; Chr "<"; Chr "/"; Back1; Chr ">"; Spaces;
   Chr "-"; Chr "}"]%char.

(** [text] holds no closing marker for [nm]. *)
Definition no_close_in (nm text : str) : Prop :=
  forall a b ws ws',
    forallb is_space ws = true -> forallb is_space ws' = true ->
    text <> a ++ inline_close ws nm ws' ++ b.

(** ** Files, environments and arguments for the examples *)

(** The example of the specification: opening marker on 0-indexed line 4,
    closing marker on 0-indexed line 7. *)
Definition c1_lines : list str :=
  map lit ["a"; "b"; "c"; "d"; "-- <foo>"; "x"; "y"; "-- </foo>"; "z"]%string.

(** A pair with one content line, at the top of a file. *)
Definition c4_lines : list str := map lit ["-- <a>"; "x"; "-- </a>"]%string.

(** A file with a closed pair, an opening marker that is never closed,
    and a closed pair after it. *)
Definition c6_pre : list str := map lit ["-- <a>"; "x"; "-- </a>"]%string.
Definition c6_post : list str := map lit ["y"; "-- <c>"; "-- </c>"]%string.

(** Two pairs that overlap: [b] opens inside [a] and closes after it. *)
Definition c9_lines : list str :=
  map lit ["-- <a>"; "-- <b>"; "x"; "-- </a>"; "-- </b>"]%string.

(** A file as [readlines] gives it, and environments that serve it. *)
Definition c5_raw : list str :=
  [lit "-- <a>" ++ [nl];
   lit "f {- <x> -}1{- </x> -} {-<y>-}2{-</y>-}" ++ [cr; nl];
   lit "-- <b>" ++ [nl];
   lit "-- </a>" ++ [nl];
   lit "g {- <z> -}3{- </z> -}" ++ [nl];
   lit "-- </b>"].

Definition c5_env : Env :=
  mkEnv (fun _ => true) (fun _ => ReadLines c5_raw)
        (fun _ _ => Completed 0 [] []) true None.

(** A run: one file, five snippets, a renderer that always succeeds. *)
Definition ok_env : Env :=
  mkEnv (fun _ => true) (fun _ => ReadLines c5_raw)
        (fun _ cmd => Completed 0 (lit "\newcommand{\x}{}" ++ [nl]) [])
        true None.

Definition run_args : Args :=
  mkArgs [lit "F.idr"; lit "F.ttm"] (lit "out") false.

(** A renderer whose output ends with two newlines. *)
Definition two_newlines_env : Env :=
  mkEnv (fun _ => true) (fun _ => ReadLines c5_raw)
        (fun _ cmd => Completed 0 (lit "x" ++ [nl; nl]) [])
        true None.

(** A renderer that exits with status 0 and prints an error text. *)
Definition error_text_env : Env :=
  mkEnv (fun _ => true) (fun _ => ReadLines c5_raw)
        (fun _ cmd => Completed 0 (lit "% Error: no such file" ++ [nl]) [])
        true None.

(** The example of the specification: the inline text at character 0 of
    line 3. *)
Definition c3_lines : list str :=
  map lit ["a"; "b"; "{- <bar> -}xyz{- </bar> -}"]%string.

(** ** Notions and inputs for the further properties *)

(** The line, trimmed, matches the opening pattern. *)
Definition is_opening_line (l : str) : bool :=
  match re_match display_start_pattern (strip l) with
  | Some _ => true
  | None => false
  end.

(** [l'] is [l] with white space added on either side. *)
Definition padded (l l' : str) : Prop :=
  exists a b, forallb is_space a = true /\ forallb is_space b = true /\
              l' = a ++ l ++ b.

Definition c4_lines_indented : list str :=
  map (fun l => lit "    " ++ l ++ lit "  ") c4_lines.

(** [l'] is [l] followed by carriage returns and newlines. *)
Definition terminated (l l' : str) : Prop :=
  exists t, forallb (fun c => str_mem c [nl; cr]) t = true /\ l' = l ++ t.

(** The file of the examples without terminators, and with CRLF. *)
Definition c5_bare : list str := map (rstrip_chars [nl; cr]) c5_raw.

Definition c5_crlf : list str := map (fun l => l ++ [cr; nl]) c5_bare.

Definition c5_env_bare : Env :=
  mkEnv (fun _ => true) (fun _ => ReadLines c5_bare)
        (fun _ _ => Completed 0 [] []) true None.

Definition c5_env_crlf : Env :=
  mkEnv (fun _ => true) (fun _ => ReadLines c5_crlf)
        (fun _ _ => Completed 0 [] []) true None.

(** A pair without content lines. *)
Definition adjacent_lines : list str := map lit ["-- <a>"; "-- </a>"]%string.

(** An inline pair with nothing between its markers. *)
Definition empty_inline_lines : list str :=
  map lit ["x = {- <e> -}{- </e> -}"]%string.

Definition empty_inline_line : str := lit "x = {- <e> -}{- </e> -}".

Definition empty_inline_match : nat * nat * option str :=
  (4, 23, Some (lit "e")).

(** What one invocation adds to the combined document, by the result of the
    renderer. *)
Definition fragment (sn : Snippet) (r : ProcResult) : list str :=
  match r with
  | Completed rc out _ =>
      if (rc =? 0)%Z then
        match out with
        | [] => []
        | _ :: _ =>
            if startswith out (lit "% Error") then [out]
            else if endswith out [nl] then [out]
            else [out; [nl]]
        end
      else [error_line sn]
  | Raised _ => [error_line sn]
  end.

(** The snippets of a file fp that the run dispatches: those of the
    source file, when both files exist. *)
Definition pair_snippets (env : Env) (fp : str * str) : list Snippet :=
  if path_exists env (fst fp) && path_exists env (snd fp)
  then fst (parse_file env (fst fp) world0)
  else [].

(** The commands of a run, in order. *)
Definition commands (env : Env) (pairs : list (str * str)) : list (list str) :=
  flat_map (fun fp => map (fun sn => katla_cmd sn (fst fp) (snd fp))
                            (pair_snippets env fp))
           pairs.

(** The block of a file in the combined document, for the results [rs] of
    its invocations. *)
Definition block (src : str) (sns : list Snippet) (rs : list ProcResult)
  : list str :=
  match sns with
  | [] => []
  | _ :: _ =>
      [lit "% Macros from " ++ src ++ [nl]]
      ++ flat_map (fun p => fragment (fst p) (snd p)) (combine sns rs)
      ++ [[nl]]
  end.

(** The combined document after the header, for the results [rs] of all
    invocations of the run, in order. *)
Fixpoint document (env : Env) (pairs : list (str * str))
    (rs : list ProcResult) : list str :=
  match pairs with
  | [] => []
  | fp :: pairs' =>
      let sns := pair_snippets env fp in
      block (fst fp) sns (firstn (length sns) rs)
      ++ document env pairs' (skipn (length sns) rs)
  end.

(** The snippets that a dry run finds: those of every source file that
    exists (the metadata file is not looked at). *)
Definition discovered (env : Env) (pairs : list (str * str)) : list Snippet :=
  flat_map (fun fp => if path_exists env (fst fp)
                      then fst (parse_file env (fst fp) world0)
                      else [])
           pairs.

(** A dry run over a source file whose metadata file is missing. *)
Definition no_ttm_env : Env :=
  mkEnv (fun p => negb (startswith (rev p) (rev (lit ".ttm"))))
        (fun _ => ReadLines c5_raw)
        (fun _ cmd => Raised (lit "not run")) true None.

Definition dry_args : Args :=
  mkArgs [lit "F.idr"; lit "F.ttm"] (lit "out") true.

Definition four_paths : list str :=
  map lit ["A.idr"; "A.ttm"; "B.idr"; "B.ttm"]%string.

(** A content line as the debug printer writes it: its 1-indexed number
    and its text. *)
Definition debug_line (p : nat * str) : str :=
  lit "    " ++ str_of_int (Z.of_nat (fst p) + 1) ++ lit ": " ++ snd p.

(** The record [sn], [n] lines further down. *)
Definition shift_lines (n : nat) (sn : InlineSnippet) : InlineSnippet :=
  mkInline (i_name sn) (i_line_offset sn + Z.of_nat n)
           (i_column_start_offset sn) (i_column_end_offset sn).

(** A file that ends before its marker is closed, and the lines that
    close it. *)
Definition open_ended : list str :=
  map lit ["-- <a>"; "-- </a>"; "-- <b>"; "x"]%string.
Definition closing_lines : list str := map lit ["-- </b>"]%string.

(** * Properties *)

#[local] Arguments Z.of_nat : simpl never.
#[local] Arguments Z.add : simpl never.
#[local] Arguments Z.sub : simpl never.
#[local] Arguments chr_eqb : simpl never.

(** ** Strings *)

Lemma chr_eqb_eq (a b : ascii) : chr_eqb a b = true <-> a = b.
Proof. apply Ascii.eqb_eq. Qed.

Lemma chr_eqb_refl (a : ascii) : chr_eqb a a = true.
Proof. apply Ascii.eqb_refl. Qed.

Lemma startswith_iff (x p : str) :
  startswith x p = true <-> exists r, x = p ++ r.
Proof.
  revert x; induction p as [|a p IH]; intros x; simpl.
  - split; [intros _; now exists x | reflexivity].
  - destruct x as [|b x].
    + split; [discriminate | intros [r H]; discriminate].
    + rewrite andb_true_iff, chr_eqb_eq, IH. split.
      * intros [-> [r ->]]. now exists r.
      * intros [r H]. injection H as -> ->. eauto.
Qed.

Lemma startswith_app (p r : str) : startswith (p ++ r) p = true.
Proof. apply startswith_iff. eauto. Qed.

Lemma skipn_length_app (p r : str) : skipn (length p) (p ++ r) = r.
Proof. induction p; simpl; auto. Qed.

Lemma firstn_length_app (p r : str) : firstn (length p) (p ++ r) = p.
Proof. induction p; simpl; congruence. Qed.

Lemma slice_app (pre mid post : str) :
  slice (pre ++ mid ++ post) (length pre) (length pre + length mid) = mid.
Proof.
  unfold slice.
  replace (length pre + length mid - length pre) with (length mid) by lia.
  rewrite skipn_length_app. apply firstn_length_app.
Qed.

(** ** The matcher is sound for a declarative reading of the patterns *)

Lemma shift_some (n : nat) (r : option mres) (m : nat) (g : option str) :
  shift n r = Some (m, g) ->
  exists m', r = Some (m', g) /\ m = n + m'.
Proof.
  destruct r as [[m' g']|]; simpl; [|discriminate].
  intros H; injection H as <- <-. eauto.
Qed.

Lemma code_nl (c : ascii) : (code c =? 10) = true -> c = nl.
Proof.
  intros H. apply Nat.eqb_eq in H. unfold code in H.
  rewrite <- (ascii_nat_embedding c), H. reflexivity.
Qed.

Lemma greedy_spaces_sound (cont : str -> option mres) (x : str) :
  forall n g', greedy_spaces cont x = Some (n, g') ->
  exists ws r m, x = ws ++ r /\ forallb is_space ws = true /\
                 n = length ws + m /\ cont r = Some (m, g').
Proof.
  induction x as [|c x IHx]; intros n g' H; simpl in H.
  - exists [], [], n. auto.
  - destruct (is_space c) eqn:E.
    + destruct (greedy_spaces cont x) as [[m gm]|] eqn:G.
      * simpl in H. inversion H; subst.
        destruct (IHx m g' eq_refl) as (ws & r & m' & -> & Hf & -> & Hm).
        exists (c :: ws), r, m'. repeat split; auto.
        simpl. now rewrite E.
      * exists [], (c :: x), n. auto.
    + exists [], (c :: x), n. auto.
Qed.

Lemma greedy_word_sound (cont : str -> str -> option mres) (x : str) :
  forall acc n g', greedy_word cont acc x = Some (n, g') ->
  exists w r m, x = w ++ r /\ w <> [] /\ forallb is_word w = true /\
                n = length w + m /\ cont (acc ++ w) r = Some (m, g').
Proof.
  induction x as [|c x IHx]; intros acc n g' H; simpl in H; [discriminate|].
  destruct (is_word c) eqn:E; [|discriminate].
  destruct (greedy_word cont (acc ++ [c]) x) as [[m gm]|] eqn:G.
  - simpl in H. inversion H; subst.
    apply IHx in G as (w & r & m' & -> & Hw & Hf & -> & Hm).
    exists (c :: w), r, m'. repeat split; auto.
    + discriminate.
    + simpl. now rewrite E.
    + now rewrite <- app_assoc in Hm.
  - apply shift_some in H as (m & H & ->).
    exists [c], x, m. repeat split; auto.
    + discriminate.
    + simpl. now rewrite E.
Qed.

Lemma lazy_any_sound (cont : str -> option mres) (x : str) :
  forall n g', lazy_any cont x = Some (n, g') ->
  exists t r m, x = t ++ r /\ forallb is_dot t = true /\
                n = length t + m /\ cont r = Some (m, g').
Proof.
  induction x as [|c x IHx]; intros n g' H; simpl in H.
  - destruct (cont []) as [r|] eqn:G; [|discriminate].
    inversion H; subst. exists [], [], n. auto.
  - destruct (cont (c :: x)) as [r|] eqn:G.
    + inversion H; subst. exists [], (c :: x), n. auto.
    + destruct (is_dot c) eqn:E; [|discriminate].
      apply shift_some in H as (m & H & ->).
      destruct (IHx m g' H) as (t & r & m' & -> & Hf & -> & Hm).
      exists (c :: t), r, m'. repeat split; auto.
      simpl. now rewrite E.
Qed.

Lemma rmatch_sound (p : pattern) :
  forall g x n g', rmatch p g x = Some (n, g') -> matches p g x n g'.
Proof.
  induction p as [|a k IH]; intros g x n g' H.
  - simpl in H. inversion H; subst. constructor.
  - destruct a as [c|t| | | | |]; simpl in H.
    + (* Chr *)
      destruct x as [|c' x]; [discriminate|].
      destruct (chr_eqb c c') eqn:E; [|discriminate].
      apply chr_eqb_eq in E; subst c'.
      apply shift_some in H as (m & H & ->).
      apply (M_chr c k g x m g'). auto.
    + (* Str *)
      destruct (startswith x t) eqn:E; [|discriminate].
      apply startswith_iff in E as [r ->].
      rewrite skipn_length_app in H.
      apply shift_some in H as (m & H & ->).
      constructor; auto.
    + (* Spaces *)
      apply greedy_spaces_sound in H as (ws & r & m & -> & Hf & -> & Hm).
      constructor; auto.
    + (* Word1 *)
      apply greedy_word_sound in H as (w & r & m & -> & Hw & Hf & -> & Hm).
      constructor; auto.
    + (* LazyAny *)
      apply lazy_any_sound in H as (t & r & m & -> & Hf & -> & Hm).
      constructor; auto.
    + (* Back1 *)
      destruct g as [t|]; [|discriminate].
      destruct (startswith x t) eqn:E; [|discriminate].
      apply startswith_iff in E as [r ->].
      rewrite skipn_length_app in H.
      apply shift_some in H as (m & H & ->).
      constructor; auto.
    + (* Eol *)
      destruct x as [|c [|c' x]]; [| |discriminate].
      * constructor; auto.
      * destruct (code c =? 10) eqn:E; [|discriminate].
        apply code_nl in E; subst c. constructor; auto.
Qed.

Ltac len_simpl :=
  repeat (first [ rewrite length_app | progress cbn [length] ]).

Ltac mres_eq :=
  apply f_equal; apply (f_equal2 pair); [lia | reflexivity].

Ltac app_norm :=
  repeat (first [ rewrite <- app_assoc
                | progress cbn [app lit list_ascii_of_string] ]).

(** ** Unfolding the matcher one atom at a time *)

Lemma rmatch_Chr (c : ascii) (k : pattern) (g : option str) (c' : ascii)
    (x : str) :
  rmatch (Chr c :: k) g (c' :: x)
  = if chr_eqb c c' then shift 1 (rmatch k g x) else None.
Proof. reflexivity. Qed.

Lemma rmatch_Chr_same (c : ascii) (k : pattern) (g : option str) (x : str) :
  rmatch (Chr c :: k) g (c :: x) = shift 1 (rmatch k g x).
Proof. rewrite rmatch_Chr. now rewrite chr_eqb_refl. Qed.

Lemma rmatch_Str (t : str) (k : pattern) (g : option str) (x : str) :
  rmatch (Str t :: k) g (t ++ x) = shift (length t) (rmatch k g x).
Proof. simpl. now rewrite startswith_app, skipn_length_app. Qed.

Lemma rmatch_Back1 (t : str) (k : pattern) (x : str) :
  rmatch (Back1 :: k) (Some t) (t ++ x)
  = shift (length t) (rmatch k (Some t) x).
Proof. simpl. now rewrite startswith_app, skipn_length_app. Qed.

Lemma rmatch_Spaces (k : pattern) (g : option str) (x : str) :
  rmatch (Spaces :: k) g x = greedy_spaces (rmatch k g) x.
Proof. reflexivity. Qed.

Lemma rmatch_Word1 (k : pattern) (g : option str) (x : str) :
  rmatch (Word1 :: k) g x
  = greedy_word (fun w x' => rmatch k (Some w) x') [] x.
Proof. reflexivity. Qed.

Lemma rmatch_LazyAny (k : pattern) (g : option str) (x : str) :
  rmatch (LazyAny :: k) g x = lazy_any (rmatch k g) x.
Proof. reflexivity. Qed.

(** ** When the repetitions do not backtrack *)

Lemma greedy_spaces_det (cont : str -> option mres) (ws x : str) :
  (forall c r, is_space c = true -> cont (c :: r) = None) ->
  forallb is_space ws = true ->
  head_not is_space x ->
  greedy_spaces cont (ws ++ x) = shift (length ws) (cont x).
Proof.
  intros Hc Hws Hx. induction ws as [|c ws IH]; simpl.
  - destruct x as [|c x]; simpl.
    + now destruct (cont []) as [[m g]|].
    + simpl in Hx. rewrite Hx. now destruct (cont (c :: x)) as [[m g]|].
  - simpl in Hws. apply andb_true_iff in Hws as [Hs Hws].
    rewrite Hs, (IH Hws).
    destruct (cont x) as [[m g]|]; simpl; auto.
Qed.

Lemma greedy_word_det (cont : str -> str -> option mres) (w x : str) :
  (forall a c r, is_word c = true -> cont a (c :: r) = None) ->
  w <> [] ->
  forallb is_word w = true ->
  head_not is_word x ->
  forall acc,
    greedy_word cont acc (w ++ x) = shift (length w) (cont (acc ++ w) x).
Proof.
  intros Hc Hne Hw Hx.
  assert (Hstop : forall acc, greedy_word cont acc x = None).
  { intros acc. destruct x as [|c x]; simpl; auto.
    simpl in Hx. now rewrite Hx. }
  induction w as [|c w IH]; [congruence|]. intros acc.
  simpl in Hw. apply andb_true_iff in Hw as [Hs Hw]. simpl. rewrite Hs.
  destruct w as [|c' w].
  - simpl. rewrite Hstop.
    destruct (cont (acc ++ [c]) x) as [[m g]|]; simpl; auto.
  - rewrite (IH ltac:(discriminate) Hw (acc ++ [c])).
    rewrite <- app_assoc. simpl ((_ :: _) ++ _).
    destruct (cont (acc ++ c :: c' :: w) x) as [[m g]|]; simpl; auto.
    rewrite Hc; auto. simpl in Hw. now apply andb_true_iff in Hw as [? _].
Qed.

Lemma chr_fails_on (p : ascii -> bool) (c : ascii) (k : pattern)
    (g : option str) (c' : ascii) (r : str) :
  p c = false -> p c' = true -> rmatch (Chr c :: k) g (c' :: r) = None.
Proof.
  intros Hc Hc'. simpl. destruct (chr_eqb c c') eqn:E; auto.
  apply chr_eqb_eq in E. congruence.
Qed.

(** ** The display markers *)

Lemma dropwhile_head (p : ascii -> bool) (x : str) (c : ascii) (r : str) :
  dropwhile p x = c :: r -> p c = false.
Proof.
  induction x as [|a x IH]; simpl; [discriminate|].
  destruct (p a) eqn:E; auto. intros H; injection H as -> _. exact E.
Qed.

(** A trimmed line does not end with white space. *)
Lemma strip_no_trailing (l a b : str) :
  strip l = a ++ b -> forallb is_space b = true -> b = [].
Proof.
  unfold strip, rstrip. intros H Hb.
  destruct b as [|c b] using rev_ind; auto.
  apply (f_equal (@rev ascii)) in H.
  rewrite rev_involutive, app_assoc, rev_unit in H.
  apply dropwhile_head in H.
  rewrite forallb_app in Hb. simpl in Hb.
  apply andb_true_iff in Hb as [_ Hb]. rewrite H in Hb. discriminate.
Qed.

Lemma open_tag_match (ws name : str) :
  forallb is_space ws = true -> is_name name ->
  re_match display_start_pattern (open_tag ws name)
  = Some (length (open_tag ws name), Some name).
Proof.
  intros Hws [Hne Hw]. unfold re_match, display_start_pattern, open_tag.
  cbn [lit list_ascii_of_string app].
  rewrite !rmatch_Chr_same, rmatch_Spaces.
  rewrite (greedy_spaces_det _ ws); auto;
    [| intros; now apply (chr_fails_on is_space) | reflexivity].
  rewrite rmatch_Chr_same, rmatch_Word1.
  rewrite (greedy_word_det _ name); auto;
    [| intros; now apply (chr_fails_on is_word) | reflexivity].
  rewrite rmatch_Chr_same. cbn. len_simpl. repeat f_equal; lia.
Qed.

Lemma close_tag_match (ws name : str) :
  forallb is_space ws = true ->
  re_match (display_end_pattern name) (close_tag ws name)
  = Some (length (close_tag ws name), None).
Proof.
  intros Hws. unfold re_match, display_end_pattern, close_tag.
  cbn [lit list_ascii_of_string app].
  rewrite !rmatch_Chr_same, rmatch_Spaces.
  rewrite (greedy_spaces_det _ ws); auto;
    [| intros; now apply (chr_fails_on is_space) | reflexivity].
  rewrite !rmatch_Chr_same, rmatch_Str, rmatch_Chr_same.
  cbn. len_simpl. repeat f_equal; lia.
Qed.

(** ** Reading a successful match back, atom by atom *)

Lemma matches_nil_inv g x n g' :
  matches [] g x n g' -> n = 0 /\ g' = g.
Proof. inversion 1; auto. Qed.

Lemma matches_chr_inv c k g x n g' :
  matches (Chr c :: k) g x n g' ->
  exists x' n', x = c :: x' /\ n = S n' /\ matches k g x' n' g'.
Proof. inversion 1; subst; eauto. Qed.

Lemma matches_str_inv t k g x n g' :
  matches (Str t :: k) g x n g' ->
  exists x' n', x = t ++ x' /\ n = length t + n' /\ matches k g x' n' g'.
Proof. inversion 1; subst; eauto. Qed.

Lemma matches_spaces_inv k g x n g' :
  matches (Spaces :: k) g x n g' ->
  exists ws x' n', forallb is_space ws = true /\ x = ws ++ x' /\
                   n = length ws + n' /\ matches k g x' n' g'.
Proof. inversion 1; subst; eauto 8. Qed.

Lemma matches_word_inv k g x n g' :
  matches (Word1 :: k) g x n g' ->
  exists w x' n', is_name w /\ x = w ++ x' /\ n = length w + n' /\
                  matches k (Some w) x' n' g'.
Proof. inversion 1; subst. unfold is_name. eauto 10. Qed.

Lemma matches_lazy_inv k g x n g' :
  matches (LazyAny :: k) g x n g' ->
  exists t x' n', forallb is_dot t = true /\ x = t ++ x' /\
                  n = length t + n' /\ matches k g x' n' g'.
Proof. inversion 1; subst; eauto 8. Qed.

Lemma matches_back_inv k g x n g' :
  matches (Back1 :: k) g x n g' ->
  exists t x' n', g = Some t /\ x = t ++ x' /\ n = length t + n' /\
                  matches k (Some t) x' n' g'.
Proof. inversion 1; subst; eauto 8. Qed.

Lemma matches_eol_inv k g x n g' :
  matches (Eol :: k) g x n g' ->
  (x = [] \/ x = [nl]) /\ matches k g x n g'.
Proof. inversion 1; subst; auto. Qed.

Lemma open_match_shape (t : str) (n : nat) (g : option str) :
  re_match display_start_pattern t = Some (n, g) ->
  exists ws name tail,
    forallb is_space ws = true /\ is_name name /\ g = Some name /\
    forallb is_space tail = true /\ t = open_tag ws name ++ tail.
Proof.
  intros H. apply rmatch_sound in H. unfold display_start_pattern in H.
  apply matches_chr_inv in H as (x1 & n1 & -> & -> & H).
  apply matches_chr_inv in H as (x2 & n2 & -> & -> & H).
  apply matches_spaces_inv in H as (ws & x3 & n3 & Hws & -> & -> & H).
  apply matches_chr_inv in H as (x4 & n4 & -> & -> & H).
  apply matches_word_inv in H as (w & x5 & n5 & Hw & -> & -> & H).
  apply matches_chr_inv in H as (x6 & n6 & -> & -> & H).
  apply matches_spaces_inv in H as (ws2 & x7 & n7 & Hws2 & -> & -> & H).
  apply matches_eol_inv in H as (Hx & H).
  apply matches_nil_inv in H as (-> & ->).
  exists ws, w, (ws2 ++ x7). repeat split; try apply Hw; auto.
  - rewrite forallb_app, Hws2. destruct Hx as [-> | ->]; reflexivity.
  - unfold open_tag. now app_norm.
Qed.

Lemma close_match_shape (name t : str) (r : mres) :
  re_match (display_end_pattern name) t = Some r ->
  exists ws tail,
    forallb is_space ws = true /\ forallb is_space tail = true /\
    t = close_tag ws name ++ tail.
Proof.
  destruct r as [n g].
  intros H. apply rmatch_sound in H. unfold display_end_pattern in H.
  apply matches_chr_inv in H as (x1 & n1 & -> & -> & H).
  apply matches_chr_inv in H as (x2 & n2 & -> & -> & H).
  apply matches_spaces_inv in H as (ws & x3 & n3 & Hws & -> & -> & H).
  apply matches_chr_inv in H as (x4 & n4 & -> & -> & H).
  apply matches_chr_inv in H as (x5 & n5 & -> & -> & H).
  apply matches_str_inv in H as (x6 & n6 & -> & -> & H).
  apply matches_chr_inv in H as (x7 & n7 & -> & -> & H).
  apply matches_spaces_inv in H as (ws2 & x8 & n8 & Hws2 & -> & -> & H).
  apply matches_eol_inv in H as (Hx & H).
  exists ws, (ws2 ++ x8). repeat split; auto.
  - rewrite forallb_app, Hws2. destruct Hx as [-> | ->]; reflexivity.
  - unfold close_tag. now app_norm.
Qed.

(** On a trimmed line the two patterns recognise exactly the markers. *)
Lemma start_match_iff (l name : str) :
  (exists n, re_match display_start_pattern (strip l) = Some (n, Some name))
  <-> opening_marker name l.
Proof.
  split.
  - intros [n H]. apply open_match_shape in H
      as (ws & nm & tail & Hws & Hnm & Hg & Htail & Ht).
    injection Hg as <-.
    pose proof (strip_no_trailing _ _ _ Ht Htail) as ->.
    rewrite app_nil_r in Ht. exists ws. auto.
  - intros (ws & Hws & Hnm & Ht). rewrite Ht.
    eexists. now apply open_tag_match.
Qed.

Lemma start_match_name (l : str) (n : nat) (g : option str) :
  re_match display_start_pattern (strip l) = Some (n, g) ->
  opening_marker (group1 g) l.
Proof.
  intros H. destruct (open_match_shape _ _ _ H) as (ws & nm & tail & _ & _ & -> & _).
  apply start_match_iff. eauto.
Qed.

Lemma end_match_iff (l name : str) :
  (exists r, re_match (display_end_pattern name) (strip l) = Some r)
  <-> closing_marker name l.
Proof.
  split.
  - intros [r H]. apply close_match_shape in H
      as (ws & tail & Hws & Htail & Ht).
    pose proof (strip_no_trailing _ _ _ Ht Htail) as ->.
    rewrite app_nil_r in Ht. exists ws. auto.
  - intros (ws & Hws & Ht). rewrite Ht.
    eexists. now apply close_tag_match.
Qed.

Lemma end_match_none (l name : str) :
  re_match (display_end_pattern name) (strip l) = None <->
  ~ closing_marker name l.
Proof.
  rewrite <- end_match_iff. split.
  - intros H [r Hr]. congruence.
  - intros H. destruct (re_match _ _) as [r|]; auto.
    exfalso. eauto.
Qed.

(** A line is the opening marker of at most one name. *)
Lemma opening_marker_fun (l n1 n2 : str) :
  opening_marker n1 l -> opening_marker n2 l -> n1 = n2.
Proof.
  intros H1 H2. apply start_match_iff in H1 as [a H1], H2 as [b H2].
  congruence.
Qed.

(** ** The display scan *)

Lemma add_stderr_nil (w : World) : add_stderr w [] = w.
Proof. destruct w. unfold add_stderr. simpl. now rewrite app_nil_r. Qed.

Lemma find_closing_some (name : str) (rest : list str) :
  forall j c,
    find_closing name rest j = Some c <->
    exists k, c = j + k /\ first_close name rest k.
Proof.
  induction rest as [|l rest IH]; intros j c; simpl.
  - split; [discriminate|]. intros (k & _ & (l & H & _) & _).
    destruct k; discriminate.
  - destruct (re_match (display_end_pattern name) (strip l)) as [r|] eqn:E.
    + assert (Hl : closing_marker name l) by (apply end_match_iff; eauto).
      split.
      * intros H; injection H as <-. exists 0. split; [lia|]. split.
        -- exists l. auto.
        -- intros k' l' Hk. lia.
      * intros (k & -> & (l' & Hn & Hc) & Hfirst).
        destruct k as [|k]; [f_equal; lia|].
        exfalso. apply (Hfirst 0 l); auto. lia.
    + apply end_match_none in E. rewrite IH. split.
      * intros (k & -> & (l' & Hn & Hc) & Hfirst).
        exists (S k). split; [lia|]. split.
        -- exists l'. auto.
        -- intros [|k'] l0 Hk Hn0; simpl in Hn0.
           ++ now injection Hn0 as <-.
           ++ apply (Hfirst k'); auto. lia.
      * intros (k & -> & (l' & Hn & Hc) & Hfirst).
        destruct k as [|k].
        -- simpl in Hn. injection Hn as <-. contradiction.
        -- exists k. split; [lia|]. split.
           ++ exists l'. auto.
           ++ intros k' l0 Hk Hn0. apply (Hfirst (S k')); auto. lia.
Qed.

Lemma find_closing_none (name : str) (rest : list str) :
  forall j,
    find_closing name rest j = None <->
    (forall l, In l rest -> ~ closing_marker name l).
Proof.
  induction rest as [|l rest IH]; intros j; simpl.
  - split; [intros _ l [] | reflexivity].
  - destruct (re_match (display_end_pattern name) (strip l)) as [r|] eqn:E.
    + assert (Hl : closing_marker name l) by (apply end_match_iff; eauto).
      split; [discriminate|]. intros H. exfalso. apply (H l); auto.
    + apply end_match_none in E. rewrite IH. split.
      * intros H l' [<- | Hin]; auto.
      * intros H l' Hin. apply H. auto.
Qed.

Lemma display_loop_out (rest : list str) :
  forall i acc w,
    display_loop rest i acc w
    = (acc ++ fst (display_out rest i),
       add_stderr w (snd (display_out rest i))).
Proof.
  induction rest as [|l rest IH]; intros i acc w; simpl.
  - unfold ret. now rewrite app_nil_r, add_stderr_nil.
  - rewrite Nat.add_1_r.
    destruct (display_out rest (S i)) as [ds es] eqn:Eo.
    destruct (re_match display_start_pattern (strip l)) as [[n g]|].
    + destruct (find_closing (group1 g) rest (S i)) as [j|].
      * rewrite IH, Eo. simpl. now rewrite <- app_assoc.
      * unfold bind, eprint. rewrite IH, Eo. simpl.
        f_equal. unfold add_stderr. simpl. now rewrite <- app_assoc.
    + rewrite IH, Eo. reflexivity.
Qed.

Lemma parse_display_out (lines : list str) (w : World) :
  parse_display_snippets lines w
  = (fst (display_out lines 0), add_stderr w (snd (display_out lines 0))).
Proof. unfold parse_display_snippets. now rewrite display_loop_out. Qed.

Lemma display_pair_cons (l : str) (rest : list str) (L k : nat) (name : str) :
  display_pair (l :: rest) (S L) k name <-> display_pair rest L k name.
Proof.
  unfold display_pair. simpl. split.
  - intros (Ho & Hc & Hb). repeat split; auto.
    intros j l' Hj Hn. apply (Hb (S j) l'); auto. lia.
  - intros (Ho & Hc & Hb). repeat split; auto.
    intros [|j] l' Hj Hn; [lia|]. apply (Hb j l'); auto. lia.
Qed.

Lemma display_pair_head (l : str) (rest : list str) (k : nat) (name : str) :
  display_pair (l :: rest) 0 k name <->
  opening_marker name l /\ first_close name rest k.
Proof.
  unfold display_pair, first_close.
  replace (0 + k + 1) with (S k) by lia. simpl. split.
  - intros ((l0 & Hl0 & Ho) & Hc & Hb). injection Hl0 as <-.
    repeat split; auto.
    intros k' l' Hk Hn. apply (Hb (S k') l'); auto. lia.
  - intros (Ho & Hc & Hb). repeat split; eauto.
    intros [|j] l' Hj Hn; [lia|]. apply (Hb j l'); auto. lia.
Qed.

Lemma display_out_in (rest : list str) :
  forall i d,
    In d (fst (display_out rest i)) <->
    exists L k name,
      display_pair rest L k name /\
      d = mkDisplay name (Z.of_nat (i + L) + 1) (Z.of_nat k).
Proof.
  induction rest as [|l rest IH]; intros i d.
  - simpl. split; [intros []|].
    intros (L & k & name & ((l & Hl & _) & _) & _). destruct L; discriminate.
  - assert (Htail : In d (fst (display_out rest (S i))) <->
              exists L k name, display_pair (l :: rest) (S L) k name /\
                d = mkDisplay name (Z.of_nat (i + S L) + 1) (Z.of_nat k)).
    { rewrite IH. split; intros (L & k & name & Hp & ->);
        exists L, k, name; rewrite display_pair_cons in *;
        (split; [assumption|]); f_equal; lia. }
    simpl. destruct (display_out rest (S i)) as [ds es] eqn:Eo.
    simpl in Htail.
    destruct (re_match display_start_pattern (strip l)) as [[n g]|] eqn:Es.
    + pose proof (start_match_name _ _ _ Es) as Hopen.
      destruct (find_closing (group1 g) rest (S i)) as [j|] eqn:Ef.
      * apply find_closing_some in Ef as (k & -> & Hfc).
        simpl. rewrite Htail. split.
        -- intros [<- | (L & k' & name & Hp & ->)].
           ++ exists 0, k, (group1 g). split.
              ** apply display_pair_head. auto.
              ** f_equal; lia.
           ++ exists (S L), k', name. auto.
        -- intros (L & k' & name & Hp & ->). destruct L as [|L].
           ++ left. apply display_pair_head in Hp as [Ho Hfc'].
              pose proof (opening_marker_fun _ _ _ Ho Hopen) as ->.
              assert (k' = k) as ->.
              { destruct Hfc as [[l1 [Hn1 Hc1]] Hb1].
                destruct Hfc' as [[l2 [Hn2 Hc2]] Hb2].
                destruct (Nat.lt_trichotomy k' k) as [Hlt | [Heq | Hgt]];
                  auto; exfalso.
                - apply (Hb1 k' l2); auto.
                - apply (Hb2 k l1); auto. }
              f_equal; lia.
           ++ right. eauto.
      * simpl. rewrite Htail. split.
        -- intros (L & k' & name & Hp & ->). exists (S L), k', name. auto.
        -- intros (L & k' & name & Hp & ->). destruct L as [|L]; [|eauto].
           exfalso. apply display_pair_head in Hp as [Ho Hfc'].
           pose proof (opening_marker_fun _ _ _ Ho Hopen) as ->.
           destruct Hfc' as [[l2 [Hn2 Hc2]] _].
           apply (proj1 (find_closing_none _ _ _) Ef l2); auto.
           eapply nth_error_In; eauto.
    + simpl. rewrite Htail. split.
      * intros (L & k' & name & Hp & ->). exists (S L), k', name. auto.
      * intros (L & k' & name & Hp & ->). destruct L as [|L]; [|eauto].
        exfalso. apply display_pair_head in Hp as [Ho _].
        apply start_match_iff in Ho as [m Hm]. congruence.
Qed.

Lemma display_out_app (pre rest : list str) :
  forall i,
    exists ds es,
      display_out (pre ++ rest) i
      = (ds ++ fst (display_out rest (i + length pre)),
         es ++ snd (display_out rest (i + length pre))) /\
      Forall (fun d => (d_line_offset d <= Z.of_nat (i + length pre))%Z) ds.
Proof.
  induction pre as [|l pre IH]; intros i.
  - exists [], []. simpl. rewrite Nat.add_0_r.
    now destruct (display_out rest i).
  - destruct (IH (S i)) as (ds & es & E & Hle).
    cbn [app display_out length]. rewrite E.
    replace (S i + length pre) with (i + S (length pre)) in * by lia.
    destruct (re_match display_start_pattern (strip l)) as [[n g]|].
    + destruct (find_closing _ _ _) as [j|].
      * eexists (_ :: ds), es. split; [reflexivity|].
        constructor; auto. simpl. lia.
      * exists ds. eexists (_ :: es). split; [reflexivity|]. auto.
    + exists ds, es. auto.
Qed.

Lemma display_out_sorted (rest : list str) :
  forall i,
    StronglySorted (fun a b => (d_line_offset a < d_line_offset b)%Z)
                   (fst (display_out rest i)) /\
    Forall (fun d => (Z.of_nat i < d_line_offset d)%Z)
           (fst (display_out rest i)).
Proof.
  induction rest as [|l rest IH]; intros i; simpl.
  - split; constructor.
  - destruct (IH (S i)) as [Hs Hf].
    destruct (display_out rest (S i)) as [ds es]. simpl in Hs, Hf.
    assert (Hf' : Forall (fun d => (Z.of_nat i < d_line_offset d)%Z) ds).
    { eapply Forall_impl; [|exact Hf]. simpl. intros; lia. }
    destruct (re_match display_start_pattern (strip l)) as [[n g]|]; auto.
    destruct (find_closing _ _ _) as [j|]; auto.
    simpl. split.
    + constructor; auto.
      eapply Forall_impl; [|exact Hf]. simpl. intros; lia.
    + constructor; auto. simpl. lia.
Qed.

(** The step of the scan at an opening marker that is never closed: no
    record, one warning, and the scan goes on with the next line. *)
Lemma display_loop_unclosed (name l : str) (post : list str) (i : nat)
    (acc : list DisplaySnippet) (w : World) :
  opening_marker name l ->
  (forall l', In l' post -> ~ closing_marker name l') ->
  display_loop (l :: post) i acc w
  = display_loop post (i + 1) acc
      (add_stderr w [unclosed_warning name i]).
Proof.
  intros Ho Hc. simpl.
  apply start_match_iff in Ho as [n Hn]. rewrite Hn. simpl.
  rewrite Nat.add_1_r.
  rewrite (proj2 (find_closing_none name post (S i)) Hc).
  reflexivity.
Qed.

(** ** Claims on the display parser *)

(** C1.  A display pair whose opening marker is on 0-indexed line [L] and
    whose first closing marker is on line [L + k + 1] yields the record
    with [line_offset = L + 1] and [line_count = k].  Every record that the
    parser emits comes from such a pair: its [line_count] is the index of
    the closing line minus the index of the opening line minus one, and is
    not negative. *)
Theorem C1_display_pair_record (lines : list str) (L k : nat) (nm : str)
    (w : World) :
  display_pair lines L k nm ->
  let out := fst (parse_display_snippets lines w) in
  In (mkDisplay nm (Z.of_nat L + 1) (Z.of_nat k)) out /\
  (Z.of_nat k = Z.of_nat (L + k + 1) - Z.of_nat L - 1)%Z /\
  (forall d,
      In d out ->
      (0 <= d_line_count d)%Z /\
      exists L' k',
        display_pair lines L' k' (d_name d) /\
        d_line_offset d = (Z.of_nat L' + 1)%Z /\
        d_line_count d
        = (Z.of_nat (L' + k' + 1) - Z.of_nat L' - 1)%Z).
Proof.
  intros Hp out. subst out. rewrite parse_display_out. simpl.
  split; [|split].
  - apply display_out_in. exists L, k, nm. split; auto.
  - lia.
  - intros d Hd. apply display_out_in in Hd as (L' & k' & n' & Hp' & ->).
    simpl. split; [lia|]. exists L', k'.
    split; [exact Hp'|]. split; lia.
Qed.

Lemma c1_pair : display_pair c1_lines 4 2 (lit "foo").
Proof.
  repeat split.
  - eexists. split; [reflexivity|]. exists [" "%char].
    repeat split; try reflexivity. discriminate.
  - eexists. split; [reflexivity|]. exists [" "%char].
    split; reflexivity.
  - intros j l Hj Hn. apply end_match_none.
    assert (j = 5 \/ j = 6) as [-> | ->] by lia;
      injection Hn as <-; vm_compute; reflexivity.
Qed.

Lemma C1_display_pair_record_witness :
  display_pair c1_lines 4 2 (lit "foo") /\
  In (mkDisplay (lit "foo") 5 2) (fst (parse_display_snippets c1_lines world0)).
Proof.
  split; [exact c1_pair|].
  exact (proj1 (C1_display_pair_record c1_lines 4 2 (lit "foo") world0 c1_pair)).
Defined.

Lemma c4_pair : display_pair c4_lines 0 1 (lit "a").
Proof.
  repeat split.
  - eexists. split; [reflexivity|]. exists [" "%char].
    repeat split; try reflexivity. discriminate.
  - eexists. split; [reflexivity|]. exists [" "%char].
    split; reflexivity.
  - intros j l Hj Hn. apply end_match_none.
    assert (j = 1) as -> by lia.
    injection Hn as <-; vm_compute; reflexivity.
Qed.

(** C4 fails: the opening marker is on line 1 and the only record has
    [line_offset = 1], not 2. *)
Lemma C4_line_offset_counterexample :
  fst (parse_display_snippets c4_lines world0) = [mkDisplay (lit "a") 1 1] /\
  ~ line_offset_is_first_content_line.
Proof.
  assert (E : fst (parse_display_snippets c4_lines world0)
              = [mkDisplay (lit "a") 1 1]) by (vm_compute; reflexivity).
  split; [exact E|].
  intros H. specialize (H c4_lines 0 1 (lit "a") world0 c4_pair).
  rewrite E in H. destruct H as [H | []]. discriminate H.
Qed.

(** C4, amended.  The [line_offset] of every record that the parser emits
    is the 1-indexed number [M] of the line that holds its opening marker;
    it is also the 0-indexed position of the first content line, the line
    right after the marker. *)
Theorem C4_line_offset_is_marker_line (lines : list str) (w : World)
    (d : DisplaySnippet) :
  In d (fst (parse_display_snippets lines w)) ->
  exists M : nat,
    1 <= M /\
    d_line_offset d = Z.of_nat M /\
    (exists l, nth_error lines (M - 1) = Some l /\
               opening_marker (d_name d) l) /\
    (exists k, d_line_count d = Z.of_nat k /\
               display_pair lines (M - 1) k (d_name d)).
Proof.
  rewrite parse_display_out. simpl. intros Hd.
  apply display_out_in in Hd as (L & k & nm & Hp & ->). simpl.
  exists (L + 1). replace (L + 1 - 1) with L by lia.
  repeat split; try lia.
  - destruct Hp as (Ho & _). exact Ho.
  - exists k. auto.
Qed.

Lemma C4_line_offset_is_marker_line_witness :
  exists M : nat,
    1 <= M /\
    1%Z = Z.of_nat M /\
    (exists l, nth_error c4_lines (M - 1) = Some l /\
               opening_marker (lit "a") l) /\
    (exists k, 1%Z = Z.of_nat k /\ display_pair c4_lines (M - 1) k (lit "a")).
Proof.
  apply (C4_line_offset_is_marker_line c4_lines world0
           (mkDisplay (lit "a") 1 1)).
  vm_compute. left. reflexivity.
Defined.

(** C6.  At an opening marker that no later line closes, the scan emits no
    record and exactly one warning, and goes on with the next line: the
    result for the file is what the lines before the marker gave, then the
    warning, then what the scan of the lines after it gives. *)
Theorem C6_unclosed_marker (pre post : list str) (l nm : str) (w : World) :
  opening_marker nm l ->
  (forall l', In l' post -> ~ closing_marker nm l') ->
  (forall acc w',
      display_loop (l :: post) (length pre) acc w'
      = display_loop post (length pre + 1) acc
          (add_stderr w' [unclosed_warning nm (length pre)])) /\
  exists ds1 es1 ds2 es2,
    display_loop post (length pre + 1) [] world0
    = (ds2, add_stderr world0 es2) /\
    parse_display_snippets (pre ++ l :: post) w
    = (ds1 ++ ds2,
       add_stderr w (es1 ++ [unclosed_warning nm (length pre)] ++ es2)) /\
    Forall (fun d => (d_line_offset d <= Z.of_nat (length pre))%Z) ds1 /\
    Forall (fun d => (Z.of_nat (length pre) + 1 < d_line_offset d)%Z) ds2.
Proof.
  intros Ho Hc. split.
  - intros acc w'. now apply display_loop_unclosed.
  - destruct (display_out_app pre (l :: post) 0) as (ds1 & es1 & E & Hle).
    simpl in E, Hle.
    exists ds1, es1, (fst (display_out post (S (length pre)))),
           (snd (display_out post (S (length pre)))).
    rewrite Nat.add_1_r. repeat split; auto.
    + now rewrite display_loop_out.
    + rewrite parse_display_out, E.
      apply start_match_iff in Ho as [n Hn]. rewrite Hn. simpl.
      rewrite (proj2 (find_closing_none nm post (S (length pre))) Hc).
      now destruct (display_out post (S (length pre))).
    + destruct (display_out_sorted post (S (length pre))) as [_ Hf].
      eapply Forall_impl; [|exact Hf]. simpl. intros; lia.
Qed.

Lemma c6_open : opening_marker (lit "b") (lit "--<b>").
Proof.
  exists []. repeat split; try reflexivity. discriminate.
Qed.

Lemma c6_unclosed : forall l', In l' c6_post -> ~ closing_marker (lit "b") l'.
Proof.
  intros l' Hin. apply end_match_none.
  simpl in Hin. destruct Hin as [<- | [<- | [<- | []]]];
    vm_compute; reflexivity.
Qed.

Lemma C6_unclosed_marker_witness :
  opening_marker (lit "b") (lit "--<b>") /\
  (forall l', In l' c6_post -> ~ closing_marker (lit "b") l') /\
  exists ds1 es1 ds2 es2,
    display_loop c6_post (length c6_pre + 1) [] world0
    = (ds2, add_stderr world0 es2) /\
    parse_display_snippets (c6_pre ++ lit "--<b>" :: c6_post) world0
    = (ds1 ++ ds2,
       add_stderr world0
         (es1 ++ [unclosed_warning (lit "b") (length c6_pre)] ++ es2)) /\
    Forall (fun d => (d_line_offset d <= Z.of_nat (length c6_pre))%Z) ds1 /\
    Forall (fun d => (Z.of_nat (length c6_pre) + 1 < d_line_offset d)%Z) ds2.
Proof.
  split; [exact c6_open|]. split; [exact c6_unclosed|].
  exact (proj2 (C6_unclosed_marker c6_pre c6_post (lit "--<b>") (lit "b")
                  world0 c6_open c6_unclosed)).
Defined.

(** The same file, evaluated: two records, one warning. *)
Example c6_run :
  parse_display_snippets (c6_pre ++ lit "--<b>" :: c6_post) world0
  = ([mkDisplay (lit "a") 1 1; mkDisplay (lit "c") 6 0],
     add_stderr world0 [lit "Warning: Unclosed display tag '<b>' at line 4"]).
Proof. vm_compute. reflexivity. Qed.

(** C9.  The scan does not skip the lines of a matched pair: an opening
    marker that lies strictly between the two markers of a pair is searched
    for its own closing marker and yields its own record, beside the record
    of the enclosing pair. *)
Theorem C9_nested_marker_own_record (lines : list str) (L k : nat) (nm : str)
    (M k2 : nat) (nm2 : str) (w : World) :
  display_pair lines L k nm ->
  L < M < L + k + 1 ->
  display_pair lines M k2 nm2 ->
  let out := fst (parse_display_snippets lines w) in
  In (mkDisplay nm (Z.of_nat L + 1) (Z.of_nat k)) out /\
  In (mkDisplay nm2 (Z.of_nat M + 1) (Z.of_nat k2)) out.
Proof.
  intros Hp HM Hp2 out. subst out. rewrite parse_display_out. simpl.
  split; apply display_out_in.
  - exists L, k, nm. auto.
  - exists M, k2, nm2. auto.
Qed.

Lemma c9_outer : display_pair c9_lines 0 2 (lit "a").
Proof.
  repeat split.
  - eexists. split; [reflexivity|]. exists [" "%char].
    repeat split; try reflexivity. discriminate.
  - eexists. split; [reflexivity|]. exists [" "%char].
    split; reflexivity.
  - intros j l Hj Hn. apply end_match_none.
    assert (j = 1 \/ j = 2) as [-> | ->] by lia;
      injection Hn as <-; vm_compute; reflexivity.
Qed.

Lemma c9_inner : display_pair c9_lines 1 2 (lit "b").
Proof.
  repeat split.
  - eexists. split; [reflexivity|]. exists [" "%char].
    repeat split; try reflexivity. discriminate.
  - eexists. split; [reflexivity|]. exists [" "%char].
    split; reflexivity.
  - intros j l Hj Hn. apply end_match_none.
    assert (j = 2 \/ j = 3) as [-> | ->] by lia;
      injection Hn as <-; vm_compute; reflexivity.
Qed.

Lemma C9_nested_marker_own_record_witness :
  display_pair c9_lines 0 2 (lit "a") /\ 0 < 1 < 0 + 2 + 1 /\
  display_pair c9_lines 1 2 (lit "b") /\
  In (mkDisplay (lit "a") 1 2) (fst (parse_display_snippets c9_lines world0)) /\
  In (mkDisplay (lit "b") 2 2) (fst (parse_display_snippets c9_lines world0)).
Proof.
  split; [exact c9_outer|]. split; [lia|]. split; [exact c9_inner|].
  apply (C9_nested_marker_own_record c9_lines 0 2 (lit "a") 1 2 (lit "b")
           world0 c9_outer ltac:(lia) c9_inner).
Defined.

(** ** The inline markers *)

Lemma inline_match_shape (x : str) (n : nat) (g : option str) :
  re_match inline_pattern x = Some (n, g) ->
  exists ws1 nm ws2 text ws3 ws4 post,
    forallb is_space ws1 = true /\ forallb is_space ws2 = true /\
    forallb is_space ws3 = true /\ forallb is_space ws4 = true /\
    is_name nm /\ forallb is_dot text = true /\ g = Some nm /\
    x = inline_open ws1 nm ws2 ++ text ++ inline_close ws3 nm ws4 ++ post /\
    n = length (inline_open ws1 nm ws2) + length text
        + length (inline_close ws3 nm ws4).
Proof.
  intros H. apply rmatch_sound in H. unfold inline_pattern in H.
  apply matches_chr_inv in H as (x1 & n1 & -> & -> & H).
  apply matches_chr_inv in H as (x2 & n2 & -> & -> & H).
  apply matches_spaces_inv in H as (ws1 & x3 & n3 & Hws1 & -> & -> & H).
  apply matches_chr_inv in H as (x4 & n4 & -> & -> & H).
  apply matches_word_inv in H as (nm & x5 & n5 & Hnm & -> & -> & H).
  apply matches_chr_inv in H as (x6 & n6 & -> & -> & H).
  apply matches_spaces_inv in H as (ws2 & x7 & n7 & Hws2 & -> & -> & H).
  apply matches_chr_inv in H as (x8 & n8 & -> & -> & H).
  apply matches_chr_inv in H as (x9 & n9 & -> & -> & H).
  apply matches_lazy_inv in H as (text & x10 & n10 & Htext & -> & -> & H).
  apply matches_chr_inv in H as (x11 & n11 & -> & -> & H).
  apply matches_chr_inv in H as (x12 & n12 & -> & -> & H).
  apply matches_spaces_inv in H as (ws3 & x13 & n13 & Hws3 & -> & -> & H).
  apply matches_chr_inv in H as (x14 & n14 & -> & -> & H).
  apply matches_chr_inv in H as (x15 & n15 & -> & -> & H).
  apply matches_back_inv in H as (t & x16 & n16 & Ht & -> & -> & H).
  injection Ht as <-.
  apply matches_chr_inv in H as (x17 & n17 & -> & -> & H).
  apply matches_spaces_inv in H as (ws4 & x18 & n18 & Hws4 & -> & -> & H).
  apply matches_chr_inv in H as (x19 & n19 & -> & -> & H).
  apply matches_chr_inv in H as (x20 & n20 & -> & -> & H).
  apply matches_nil_inv in H as (-> & ->).
  exists ws1, nm, ws2, text, ws3, ws4, x20.
  repeat split; try apply Hnm; auto.
  - unfold inline_open, inline_close. now app_norm.
  - unfold inline_open, inline_close.
    cbn [lit list_ascii_of_string]. len_simpl. lia.
Qed.

(** ** [finditer] *)

(** Every match that [finditer] reports is a match of the pattern at its
    start position. *)
Lemma finditer_from_sound (p : pattern) (x : str) :
  forall pos skip st en g,
    In (st, en, g) (finditer_from p x pos skip) ->
    exists pre x' n,
      x = pre ++ x' /\ st = pos + length pre /\ en = st + n /\
      re_match p x' = Some (n, g).
Proof.
  induction x as [|c x IH]; intros pos skip st en g Hin.
  - destruct skip; simpl in Hin; [|contradiction].
    destruct (re_match p []) as [[n g0]|] eqn:E; [|contradiction].
    destruct Hin as [Hin | []]. injection Hin as <- <- <-.
    exists [], [], n. simpl. repeat split; auto.
  - assert (Htail : forall sk, In (st, en, g) (finditer_from p x (S pos) sk) ->
              exists pre x' n,
                c :: x = pre ++ x' /\ st = pos + length pre /\ en = st + n /\
                re_match p x' = Some (n, g)).
    { intros sk H. apply IH in H as (pre & x' & n & -> & -> & -> & Hm).
      exists (c :: pre), x', n. simpl. repeat split; auto; lia. }
    destruct skip; simpl in Hin; [|eauto].
    destruct (re_match p (c :: x)) as [[n g0]|] eqn:E; [|eauto].
    destruct Hin as [Hin | Hin]; [|eauto].
    injection Hin as <- <- <-.
    exists [], (c :: x), n. simpl. repeat split; auto.
Qed.

(** The matches come left to right and do not overlap. *)
Lemma finditer_from_sorted (p : pattern) (x : str) :
  forall pos skip,
    StronglySorted (fun a b => m_end a <= m_start b /\ m_start a < m_start b)
                   (finditer_from p x pos skip) /\
    Forall (fun m => pos + skip <= m_start m /\ m_start m <= m_end m)
           (finditer_from p x pos skip).
Proof.
  induction x as [|c x IH]; intros pos skip.
  - destruct skip; simpl; [|split; constructor].
    destruct (re_match p []) as [[n g0]|]; [|split; constructor].
    split; repeat constructor; unfold m_start, m_end; simpl; lia.
  - destruct skip; simpl; [|].
    + destruct (re_match p (c :: x)) as [[n g0]|].
      * destruct (IH (S pos) (n - 1)) as [Hs Hf]. split.
        -- constructor; auto. eapply Forall_impl; [|exact Hf].
           unfold m_start, m_end. simpl. intros; lia.
        -- constructor.
           ++ unfold m_start, m_end. simpl. lia.
           ++ eapply Forall_impl; [|exact Hf]. simpl. intros; lia.
      * destruct (IH (S pos) 0) as [Hs Hf]. split; auto.
        eapply Forall_impl; [|exact Hf]. simpl. intros; lia.
    + destruct (IH (S pos) skip) as [Hs Hf]. split; auto.
      eapply Forall_impl; [|exact Hf]. simpl. intros; lia.
Qed.

(** No match is missed: wherever the pattern matches, [finditer] reports a
    match that starts there, or the place lies inside a reported match. *)
Lemma finditer_from_complete (p : pattern) (x : str) :
  forall pos skip pre x' r,
    x = pre ++ x' -> skip <= length pre ->
    re_match p x' = Some r ->
    exists m, In m (finditer_from p x pos skip) /\
              m_start m <= pos + length pre /\
              (pos + length pre < m_end m \/ m_start m = pos + length pre).
Proof.
  induction x as [|c x IH]; intros pos skip pre x' r E Hs Hm.
  - symmetry in E. apply app_eq_nil in E as [-> ->]. simpl in Hs.
    assert (skip = 0) as -> by lia. simpl. rewrite Hm. destruct r as [n g].
    eexists. split; [left; reflexivity|]. unfold m_start, m_end. simpl. lia.
  - destruct pre as [|c' pre].
    + simpl in E, Hs. subst x'. assert (skip = 0) as -> by lia.
      simpl. rewrite Hm. destruct r as [n g].
      eexists. split; [left; reflexivity|]. unfold m_start, m_end. simpl. lia.
    + simpl in E. injection E as <- ->. simpl in Hs.
      destruct skip as [|skip].
      * simpl. destruct (re_match p (c :: pre ++ x')) as [[n g]|] eqn:E0.
        -- destruct (Nat.le_gt_cases (n - 1) (length pre)) as [Hle | Hgt].
           ++ destruct (IH (S pos) (n - 1) pre x' r eq_refl Hle Hm)
                as (m & Hin & H1 & H2).
              exists m. split; [right; exact Hin|]. simpl. lia.
           ++ eexists. split; [left; reflexivity|].
              unfold m_start, m_end. simpl. lia.
        -- destruct (IH (S pos) 0 pre x' r eq_refl ltac:(lia) Hm)
             as (m & Hin & H1 & H2).
           exists m. split; [exact Hin|]. simpl. lia.
      * simpl.
        destruct (IH (S pos) skip pre x' r eq_refl ltac:(lia) Hm)
          as (m & Hin & H1 & H2).
        exists m. split; [exact Hin|]. simpl. lia.
Qed.

(** ** [find] and [rfind] on a matched span *)

Lemma lacks_app (c : ascii) (x y : str) :
  lacks c x -> lacks c y -> lacks c (x ++ y).
Proof. unfold lacks. intros Hx Hy. now rewrite forallb_app, Hx, Hy. Qed.

Lemma lacks_class (p : ascii -> bool) (c : ascii) (x : str) :
  p c = false -> forallb p x = true -> lacks c x.
Proof.
  intros Hc Hx. unfold lacks. rewrite forallb_forall in *.
  intros a Ha. destruct (chr_eqb a c) eqn:E; auto.
  apply chr_eqb_eq in E; subst a. rewrite (Hx c Ha) in Hc. discriminate.
Qed.

Lemma lacks_head (c a : ascii) (x : str) :
  lacks c (a :: x) -> chr_eqb a c = false /\ lacks c x.
Proof.
  unfold lacks. simpl. intros H. apply andb_true_iff in H as [H1 H2].
  split; auto. now apply negb_true_iff.
Qed.

Lemma find_in_first (a b : str) :
  lacks "}" a ->
  forall i,
    find_in (lit "-}") (a ++ "-"%char :: "}"%char :: b) i
    = Z.of_nat (i + length a).
Proof.
  intros Ha. induction a as [|c a IH]; intros i.
  - simpl. f_equal. lia.
  - apply lacks_head in Ha as [Hc Ha].
    cbn [app find_in].
    assert (E : startswith (c :: a ++ "-"%char :: "}"%char :: b) (lit "-}")
                = false).
    { cbn [lit list_ascii_of_string startswith].
      destruct (chr_eqb "-" c); auto. cbn [andb].
      destruct a as [|c2 a]; cbn [app].
      - reflexivity.
      - apply lacks_head in Ha as [Hc2 _]. unfold chr_eqb in *.
        rewrite Ascii.eqb_sym, Hc2. reflexivity. }
    rewrite E, (IH Ha). f_equal. simpl. lia.
Qed.

Lemma rfind_in_none (y : str) :
  lacks "{" y ->
  forall i best, rfind_in (lit "{-") y i best = best.
Proof.
  intros Hy. induction y as [|c y IH]; intros i best.
  - reflexivity.
  - apply lacks_head in Hy as [Hc Hy]. cbn [rfind_in].
    assert (E : startswith (c :: y) (lit "{-") = false).
    { cbn [lit list_ascii_of_string startswith]. unfold chr_eqb in *.
      now rewrite Ascii.eqb_sym, Hc. }
    rewrite E. apply IH. exact Hy.
Qed.

Lemma rfind_in_last (a y : str) :
  lacks "{" y ->
  forall i best,
    rfind_in (lit "{-") (a ++ "{"%char :: "-"%char :: y) i best
    = Z.of_nat (i + length a).
Proof.
  intros Hy. induction a as [|c a IH]; intros i best.
  - cbn [app rfind_in length]. cbn [lit list_ascii_of_string startswith].
    rewrite !chr_eqb_refl. cbn [andb].
    rewrite rfind_in_none; [|exact Hy].
    assert (chr_eqb "{" "-" = false) as -> by reflexivity.
    cbn [andb]. f_equal. lia.
  - cbn [app rfind_in length]. rewrite IH. f_equal. lia.
Qed.

(** The snippet that the parser builds from a match of the shape that
    [inline_match_shape] gives. *)
Lemma inline_of_match_shape (pre ws1 nm ws2 text ws3 ws4 post : str)
    (idx : nat) :
  forallb is_space ws1 = true -> forallb is_space ws2 = true ->
  forallb is_space ws3 = true -> forallb is_space ws4 = true ->
  is_name nm ->
  let op := inline_open ws1 nm ws2 in
  let cl := inline_close ws3 nm ws4 in
  let line := pre ++ op ++ text ++ cl ++ post in
  inline_of_match line idx
    (length pre, length pre + (length op + length text + length cl), Some nm)
  = mkInline nm (Z.of_nat idx + 1)
      (Z.of_nat (length pre + length op))
      (Z.of_nat (length pre + length op + length text)).
Proof.
  intros H1 H2 H3 H4 [Hne Hnm] op cl line.
  unfold inline_of_match. simpl group1. f_equal.
  - (* find *)
    unfold str_find.
    assert (Hlen : length pre <= length line)
      by (unfold line; rewrite length_app; lia).
    apply Nat.leb_le in Hlen. rewrite Hlen.
    unfold line. rewrite skipn_length_app.
    pose (a := lit "{-" ++ ws1 ++ lit "<" ++ nm ++ lit ">" ++ ws2).
    assert (Ea : op ++ text ++ cl ++ post
                 = a ++ "-"%char :: "}"%char :: (text ++ cl ++ post)).
    { unfold op, inline_open, a. now app_norm. }
    rewrite Ea, find_in_first.
    + assert (length op = length a + 2).
      { unfold op, inline_open, a. cbn [lit list_ascii_of_string].
        len_simpl. lia. }
      lia.
    + unfold a. cbn [lit list_ascii_of_string].
      repeat apply lacks_app;
        try (apply (lacks_class is_space); [reflexivity | assumption]);
        try (apply (lacks_class is_word); [reflexivity | assumption]);
        reflexivity.
  - (* rfind *)
    unfold str_rfind.
    set (n := length op + length text + length cl).
    assert (Hmin : Nat.min (length pre + n) (length line) = length pre + n).
    { apply Nat.min_l. unfold line, n. rewrite !length_app. lia. }
    rewrite Hmin.
    assert (Hle : Nat.leb (length pre) (length pre + n) = true)
      by (apply Nat.leb_le; lia).
    rewrite Hle.
    assert (Es : slice line (length pre) (length pre + n) = op ++ text ++ cl).
    { unfold line, n.
      replace (pre ++ op ++ text ++ cl ++ post)
        with (pre ++ (op ++ text ++ cl) ++ post) by now rewrite <- !app_assoc.
      replace (length op + length text + length cl)
        with (length (op ++ text ++ cl)) by (rewrite !length_app; lia).
      apply slice_app. }
    rewrite Es.
    pose (y := ws3 ++ lit "</" ++ nm ++ lit ">" ++ ws4 ++ lit "-}").
    assert (Ec : op ++ text ++ cl
                 = (op ++ text) ++ "{"%char :: "-"%char :: y).
    { unfold cl, inline_close, y. now app_norm. }
    rewrite Ec, rfind_in_last.
    + rewrite length_app. f_equal. lia.
    + unfold y. cbn [lit list_ascii_of_string].
      repeat apply lacks_app;
        try (apply (lacks_class is_space); [reflexivity | assumption]);
        try (apply (lacks_class is_word); [reflexivity | assumption]);
        reflexivity.
Qed.

(** ** The inline scan *)

Lemma fold_left_append {A B : Type} (f : B -> A) (ms : list B) :
  forall acc, fold_left (fun acc m => acc ++ [f m]) ms acc = acc ++ map f ms.
Proof.
  induction ms as [|m ms IH]; intros acc; simpl.
  - now rewrite app_nil_r.
  - rewrite IH, <- app_assoc. reflexivity.
Qed.

Lemma inline_loop_out (rest : list str) :
  forall idx acc, inline_loop rest idx acc = acc ++ inline_out rest idx.
Proof.
  induction rest as [|line rest IH]; intros idx acc; simpl.
  - now rewrite app_nil_r.
  - rewrite IH, fold_left_append, <- app_assoc. reflexivity.
Qed.

Lemma parse_inline_out (lines : list str) :
  parse_inline_snippets lines = inline_out lines 0.
Proof. unfold parse_inline_snippets. now rewrite inline_loop_out. Qed.

Lemma inline_out_in (rest : list str) :
  forall idx sn,
    In sn (inline_out rest idx) <->
    exists k line m,
      nth_error rest k = Some line /\
      In m (finditer inline_pattern line) /\
      sn = inline_of_match line (idx + k) m.
Proof.
  induction rest as [|line rest IH]; intros idx sn; simpl.
  - split; [intros []|]. intros (k & l & m & H & _). destruct k; discriminate.
  - rewrite in_app_iff, in_map_iff, IH. split.
    + intros [(m & <- & Hm) | (k & l & m & Hn & Hm & ->)].
      * exists 0, line, m. rewrite Nat.add_0_r. auto.
      * exists (S k), l, m. rewrite Nat.add_succ_r. auto.
    + intros (k & l & m & Hn & Hm & ->). destruct k as [|k]; simpl in Hn.
      * injection Hn as <-. left. exists m. rewrite Nat.add_0_r. auto.
      * right. exists k, l, m. rewrite Nat.add_succ_r. auto.
Qed.

(** A match of [finditer] on a line, read back as text. *)
Lemma finditer_inline_shape (line : str) (st en : nat) (g : option str) :
  In (st, en, g) (finditer inline_pattern line) ->
  exists pre ws1 nm ws2 text ws3 ws4 post,
    forallb is_space ws1 = true /\ forallb is_space ws2 = true /\
    forallb is_space ws3 = true /\ forallb is_space ws4 = true /\
    is_name nm /\ forallb is_dot text = true /\ g = Some nm /\
    line = pre ++ inline_open ws1 nm ws2 ++ text
               ++ inline_close ws3 nm ws4 ++ post /\
    st = length pre /\
    en = length pre + (length (inline_open ws1 nm ws2) + length text
                       + length (inline_close ws3 nm ws4)).
Proof.
  intros Hin. apply finditer_from_sound in Hin
    as (pre & x' & n & -> & -> & -> & Hm).
  apply inline_match_shape in Hm
    as (ws1 & nm & ws2 & text & ws3 & ws4 & post &
        H1 & H2 & H3 & H4 & Hnm & Htext & -> & -> & ->).
  exists pre, ws1, nm, ws2, text, ws3, ws4, post.
  repeat split; try apply Hnm; auto.
Qed.

(** ** The inline scan finds a marked text *)

Lemma lacks_not_in (c : ascii) (a b : str) : ~ lacks c (a ++ c :: b).
Proof.
  unfold lacks. rewrite forallb_app. simpl. rewrite chr_eqb_refl. simpl.
  rewrite andb_false_r. discriminate.
Qed.

Lemma inline_close_lacks (ws nm ws' : str) :
  forallb is_space ws = true -> forallb is_space ws' = true ->
  forallb is_word nm = true ->
  lacks "{" ("-"%char :: ws ++ lit "</" ++ nm ++ lit ">" ++ ws' ++ lit "-}").
Proof.
  intros H1 H2 H3. cbn [lit list_ascii_of_string].
  change (lacks "{" (["-"%char] ++ ws ++ ["<"; "/"]%char ++ nm ++ [">"%char]
                     ++ ws' ++ ["-"; "}"]%char)).
  repeat apply lacks_app;
    try (apply (lacks_class is_space); [reflexivity | assumption]);
    try (apply (lacks_class is_word); [reflexivity | assumption]);
    reflexivity.
Qed.

Lemma inline_close_match (ws nm ws' post : str) :
  forallb is_space ws = true -> forallb is_space ws' = true ->
  rmatch inline_close_pattern (Some nm) (inline_close ws nm ws' ++ post)
  = Some (length (inline_close ws nm ws'), Some nm).
Proof.
  intros H1 H2. unfold inline_close_pattern, inline_close. app_norm.
  rewrite !rmatch_Chr_same, rmatch_Spaces.
  rewrite (greedy_spaces_det _ ws); auto;
    [| intros; now apply (chr_fails_on is_space) | reflexivity].
  rewrite !rmatch_Chr_same, rmatch_Back1, rmatch_Chr_same, rmatch_Spaces.
  rewrite (greedy_spaces_det _ ws'); auto;
    [| intros; now apply (chr_fails_on is_space) | reflexivity].
  rewrite !rmatch_Chr_same. cbn [rmatch shift]. len_simpl. mres_eq.
Qed.

Lemma inline_close_shape (nm x : str) (r : mres) :
  rmatch inline_close_pattern (Some nm) x = Some r ->
  exists ws ws' rest,
    forallb is_space ws = true /\ forallb is_space ws' = true /\
    x = inline_close ws nm ws' ++ rest.
Proof.
  destruct r as [n g].
  intros H. apply rmatch_sound in H. unfold inline_close_pattern in H.
  apply matches_chr_inv in H as (x1 & n1 & -> & -> & H).
  apply matches_chr_inv in H as (x2 & n2 & -> & -> & H).
  apply matches_spaces_inv in H as (ws & x3 & n3 & Hws & -> & -> & H).
  apply matches_chr_inv in H as (x4 & n4 & -> & -> & H).
  apply matches_chr_inv in H as (x5 & n5 & -> & -> & H).
  apply matches_back_inv in H as (t & x6 & n6 & Ht & -> & -> & H).
  injection Ht as <-.
  apply matches_chr_inv in H as (x7 & n7 & -> & -> & H).
  apply matches_spaces_inv in H as (ws' & x8 & n8 & Hws' & -> & -> & H).
  apply matches_chr_inv in H as (x9 & n9 & -> & -> & H).
  apply matches_chr_inv in H as (x10 & n10 & -> & -> & H).
  exists ws, ws', x10. repeat split; auto.
  unfold inline_close. now app_norm.
Qed.

(** A closing marker cannot begin inside [text] and run into the real one. *)
Lemma inline_close_not_before (nm t1 t2 ws3 ws4 post : str) :
  forallb is_word nm = true ->
  forallb is_space ws3 = true -> forallb is_space ws4 = true ->
  no_close_in nm (t1 ++ t2) -> t2 <> [] ->
  rmatch inline_close_pattern (Some nm)
         (t2 ++ inline_close ws3 nm ws4 ++ post) = None.
Proof.
  intros Hnm H3 H4 Hno Hne.
  destruct (rmatch _ _ _) as [r|] eqn:E; auto. exfalso.
  apply inline_close_shape in E as (ws & ws' & rest & Hws & Hws' & E).
  apply app_eq_app in E as [l [[E1 E2] | [E1 E2]]].
  - apply (Hno t1 l ws ws' Hws Hws'). now rewrite E1.
  - destruct l as [|c l].
    + rewrite app_nil_r in E1.
      apply (Hno t1 [] ws ws' Hws Hws'). now rewrite app_nil_r, E1.
    + unfold inline_close in E2 at 1. cbn [lit list_ascii_of_string app] in E2.
      injection E2 as <- E2.
      destruct t2 as [|c0 t2]; [congruence|].
      unfold inline_close in E1. cbn [lit list_ascii_of_string app] in E1.
      injection E1 as _ E1.
      apply (lacks_not_in "{" t2 l). rewrite <- E1.
      now apply inline_close_lacks.
Qed.

Lemma lazy_any_cons (cont : str -> option mres) (c : ascii) (x : str) :
  lazy_any cont (c :: x)
  = match cont (c :: x) with
    | Some r => Some r
    | None => if is_dot c then shift 1 (lazy_any cont x) else None
    end.
Proof. reflexivity. Qed.

Lemma lazy_any_first (cont : str -> option mres) (t x : str) (r : mres) :
  forallb is_dot t = true ->
  (forall t1 t2, t = t1 ++ t2 -> t2 <> [] -> cont (t2 ++ x) = None) ->
  cont x = Some r ->
  lazy_any cont (t ++ x) = shift (length t) (Some r).
Proof.
  intros Hdot Hnone Hx. induction t as [|c t IH].
  - destruct r as [n g]. destruct x; simpl; rewrite Hx; reflexivity.
  - simpl in Hdot. apply andb_true_iff in Hdot as [Hc Hdot].
    pose proof (Hnone [] (c :: t) eq_refl ltac:(discriminate)) as Hn0.
    cbn [app] in *. rewrite lazy_any_cons, Hn0, Hc.
    rewrite IH; auto.
    + destruct r as [n g]. reflexivity.
    + intros t1 t2 -> Hne. apply (Hnone (c :: t1) t2); auto.
Qed.

Lemma inline_pattern_match (ws1 nm ws2 text ws3 ws4 post : str) :
  forallb is_space ws1 = true -> forallb is_space ws2 = true ->
  forallb is_space ws3 = true -> forallb is_space ws4 = true ->
  is_name nm -> forallb is_dot text = true -> no_close_in nm text ->
  re_match inline_pattern
    (inline_open ws1 nm ws2 ++ text ++ inline_close ws3 nm ws4 ++ post)
  = Some (length (inline_open ws1 nm ws2) + length text
          + length (inline_close ws3 nm ws4), Some nm).
Proof.
  intros H1 H2 H3 H4 [Hne Hnm] Hdot Hno.
  unfold re_match, inline_pattern, inline_open. app_norm.
  rewrite !rmatch_Chr_same, rmatch_Spaces.
  rewrite (greedy_spaces_det _ ws1); auto;
    [| intros; now apply (chr_fails_on is_space) | reflexivity].
  rewrite rmatch_Chr_same, rmatch_Word1.
  rewrite (greedy_word_det _ nm); auto;
    [| intros; now apply (chr_fails_on is_word) | reflexivity].
  cbn [app]. rewrite rmatch_Chr_same, rmatch_Spaces.
  rewrite (greedy_spaces_det _ ws2); auto;
    [| intros; now apply (chr_fails_on is_space) | reflexivity].
  rewrite !rmatch_Chr_same, rmatch_LazyAny.
  assert (Hn : forall t1 t2, text = t1 ++ t2 -> t2 <> [] ->
               rmatch inline_close_pattern (Some nm)
                      (t2 ++ inline_close ws3 nm ws4 ++ post) = None).
  { intros t1 t2 -> Hne2. now apply (inline_close_not_before nm t1 t2). }
  change (rmatch _ (Some nm)) with (rmatch inline_close_pattern (Some nm)).
  rewrite (lazy_any_first _ text _ _ Hdot Hn
             (inline_close_match ws3 nm ws4 post H3 H4)).
  cbn [shift]. len_simpl. mres_eq.
Qed.

Lemma finditer_from_skip (p : pattern) (pre x : str) :
  (forall q, q < length pre -> re_match p (skipn q (pre ++ x)) = None) ->
  forall pos,
    finditer_from p (pre ++ x) pos 0 = finditer_from p x (pos + length pre) 0.
Proof.
  induction pre as [|c pre IH]; intros Hnone pos.
  - simpl. now rewrite Nat.add_0_r.
  - cbn [app finditer_from].
    rewrite (Hnone 0 ltac:(simpl; lia) : re_match p (c :: pre ++ x) = None).
    rewrite IH.
    + f_equal. simpl. lia.
    + intros q Hq. apply (Hnone (S q)). simpl. lia.
Qed.

(** A marked text on a line, with no match of the pattern that starts
    before it, no newline in the text and no closing marker for its name
    in the text, is what [finditer] reports first. *)
Lemma inline_match_found (pre ws1 nm ws2 text ws3 ws4 post : str) :
  forallb is_space ws1 = true -> forallb is_space ws2 = true ->
  forallb is_space ws3 = true -> forallb is_space ws4 = true ->
  is_name nm -> forallb is_dot text = true -> no_close_in nm text ->
  let op := inline_open ws1 nm ws2 in
  let cl := inline_close ws3 nm ws4 in
  let line := pre ++ op ++ text ++ cl ++ post in
  (forall q, q < length pre -> re_match inline_pattern (skipn q line) = None) ->
  exists rest,
    finditer inline_pattern line
    = (length pre, length pre + (length op + length text + length cl), Some nm)
      :: rest.
Proof.
  intros H1 H2 H3 H4 Hnm Hdot Hno op cl line Hpre.
  unfold finditer, line. rewrite finditer_from_skip; auto.
  pose proof (inline_pattern_match ws1 nm ws2 text ws3 ws4 post
                H1 H2 H3 H4 Hnm Hdot Hno) as Hm.
  fold op cl in Hm.
  destruct (op ++ text ++ cl ++ post) as [|c x] eqn:Ex.
  - cbn [finditer_from]. rewrite Hm. eauto.
  - cbn [finditer_from]. rewrite Hm. eauto.
Qed.

Lemma lacks_no_close (nm text : str) : lacks "{" text -> no_close_in nm text.
Proof.
  intros Hl a b ws ws' _ _ E. subst text.
  unfold inline_close in Hl. cbn [lit list_ascii_of_string app] in Hl.
  now apply lacks_not_in in Hl.
Qed.

(** C3.  On a line of the file:
    - every match of the inline pattern reads
      [pre ++ opener ++ TEXT ++ closer ++ post], and the parser yields the
      snippet whose [column_start_offset] is the index right after the
      opener (right after its closing delimiter), whose
      [column_end_offset] is the index of the opening delimiter of the
      closer, and whose [line_offset] is the 1-indexed line number;
      slicing the line between the two offsets gives [TEXT];
    - a marked text [opener ++ TEXT ++ closer] on the line, where [TEXT]
      holds no closing marker for the name (and no newline, a line being
      without terminators), and where no match starts before it, is such a
      match: the parser yields that snippet for it. *)
Theorem C3_inline_offsets (lines : list str) (idx : nat) (line : str) :
  nth_error lines idx = Some line ->
  (forall st en g,
      In (st, en, g) (finditer inline_pattern line) ->
      exists pre ws1 nm ws2 text ws3 ws4 post,
        forallb is_space ws1 = true /\ forallb is_space ws2 = true /\
        forallb is_space ws3 = true /\ forallb is_space ws4 = true /\
        is_name nm /\ g = Some nm /\
        line = pre ++ inline_open ws1 nm ws2 ++ text
                   ++ inline_close ws3 nm ws4 ++ post /\
        st = length pre /\
        let cs := length pre + length (inline_open ws1 nm ws2) in
        let ce := cs + length text in
        en = ce + length (inline_close ws3 nm ws4) /\
        inline_of_match line idx (st, en, g)
        = mkInline nm (Z.of_nat idx + 1) (Z.of_nat cs) (Z.of_nat ce) /\
        In (mkInline nm (Z.of_nat idx + 1) (Z.of_nat cs) (Z.of_nat ce))
           (parse_inline_snippets lines) /\
        slice line cs ce = text) /\
  (forall pre ws1 nm ws2 text ws3 ws4 post,
      line = pre ++ inline_open ws1 nm ws2 ++ text
                 ++ inline_close ws3 nm ws4 ++ post ->
      forallb is_space ws1 = true -> forallb is_space ws2 = true ->
      forallb is_space ws3 = true -> forallb is_space ws4 = true ->
      is_name nm -> forallb is_dot text = true -> no_close_in nm text ->
      (forall q, q < length pre ->
                 re_match inline_pattern (skipn q line) = None) ->
      let cs := length pre + length (inline_open ws1 nm ws2) in
      let ce := cs + length text in
      In (mkInline nm (Z.of_nat idx + 1) (Z.of_nat cs) (Z.of_nat ce))
         (parse_inline_snippets lines) /\
      slice line cs ce = text).
Proof.
  intros Hn.
  assert (Hslice : forall pre op text rest : str,
             slice (pre ++ op ++ text ++ rest) (length pre + length op)
                   (length pre + length op + length text) = text).
  { intros pre op text rest.
    replace (pre ++ op ++ text ++ rest) with ((pre ++ op) ++ text ++ rest)
      by now rewrite <- app_assoc.
    rewrite <- length_app. apply slice_app. }
  split.
  - intros st en g Hin.
    destruct (finditer_inline_shape _ _ _ _ Hin)
      as (pre & ws1 & nm & ws2 & text & ws3 & ws4 & post &
          H1 & H2 & H3 & H4 & Hnm & Htext & Hg & Hline & Hst & Hen).
    exists pre, ws1, nm, ws2, text, ws3, ws4, post.
    assert (Esn : inline_of_match line idx (st, en, g)
                  = mkInline nm (Z.of_nat idx + 1)
                      (Z.of_nat (length pre + length (inline_open ws1 nm ws2)))
                      (Z.of_nat (length pre + length (inline_open ws1 nm ws2)
                                 + length text))).
    { subst st en g line. now apply inline_of_match_shape. }
    repeat split; try apply Hnm; auto.
    + lia.
    + rewrite <- Esn, parse_inline_out. apply inline_out_in.
      exists idx, line, (st, en, g). auto.
    + subst line. apply Hslice.
  - intros pre ws1 nm ws2 text ws3 ws4 post Hline H1 H2 H3 H4 Hnm Hdot Hno
           Hpre cs ce.
    split; [|subst line; apply Hslice].
    rewrite Hline in Hpre.
    destruct (inline_match_found pre ws1 nm ws2 text ws3 ws4 post
                H1 H2 H3 H4 Hnm Hdot Hno Hpre) as [rest Hfi].
    rewrite parse_inline_out. apply inline_out_in.
    exists idx, line, (length pre,
                       length pre + (length (inline_open ws1 nm ws2)
                                     + length text
                                     + length (inline_close ws3 nm ws4)),
                       Some nm).
    repeat split; auto.
    + rewrite Hline, Hfi. left. reflexivity.
    + rewrite Hline. symmetry. now apply inline_of_match_shape.
Qed.

Example c3_run :
  parse_inline_snippets c3_lines = [mkInline (lit "bar") 3 11 14] /\
  slice (lit "{- <bar> -}xyz{- </bar> -}") 11 14 = lit "xyz".
Proof. vm_compute. split; reflexivity. Qed.

Lemma C3_inline_offsets_witness :
  nth_error c3_lines 2 = Some (lit "{- <bar> -}xyz{- </bar> -}") /\
  In (mkInline (lit "bar") 3 11 14) (parse_inline_snippets c3_lines) /\
  slice (lit "{- <bar> -}xyz{- </bar> -}") 11 14 = lit "xyz".
Proof.
  split; [reflexivity|].
  apply (proj2 (C3_inline_offsets c3_lines 2
                  (lit "{- <bar> -}xyz{- </bar> -}") eq_refl)
           [] [" "%char] (lit "bar") [" "%char] (lit "xyz")
           [" "%char] [" "%char] []).
  - reflexivity.
  - reflexivity.
  - reflexivity.
  - reflexivity.
  - reflexivity.
  - split; [discriminate | reflexivity].
  - reflexivity.
  - apply lacks_no_close. reflexivity.
  - intros q Hq. simpl in Hq. lia.
Defined.

(** ** The order of the records *)

Lemma StronglySorted_app {A : Type} (R : A -> A -> Prop) (l1 l2 : list A) :
  StronglySorted R l1 -> StronglySorted R l2 ->
  (forall a b, In a l1 -> In b l2 -> R a b) ->
  StronglySorted R (l1 ++ l2).
Proof.
  intros H1 H2 H. induction l1 as [|a l1 IH]; simpl; auto.
  apply StronglySorted_inv in H1 as [H1 Ha]. constructor.
  - apply IH; auto. intros; apply H; simpl; auto.
  - apply Forall_app. split; auto.
    apply Forall_forall. intros b Hb. apply H; simpl; auto.
Qed.

Lemma StronglySorted_map {A B : Type} (R : A -> A -> Prop)
    (R' : B -> B -> Prop) (f : A -> B) (l : list A) :
  StronglySorted R l ->
  (forall a b, In a l -> In b l -> R a b -> R' (f a) (f b)) ->
  StronglySorted R' (map f l).
Proof.
  intros Hs H. induction l as [|a l IH]; simpl; [constructor|].
  apply StronglySorted_inv in Hs as [Hs Ha]. constructor.
  - apply IH; auto. intros; apply H; simpl; auto.
  - apply Forall_forall. intros b Hb. apply in_map_iff in Hb as (x & <- & Hx).
    apply H; simpl; auto. rewrite Forall_forall in Ha. auto.
Qed.

Lemma inline_of_match_bounds (line : str) (idx : nat)
    (m : nat * nat * option str) :
  In m (finditer inline_pattern line) ->
  let sn := inline_of_match line idx m in
  i_line_offset sn = (Z.of_nat idx + 1)%Z /\
  (Z.of_nat (m_start m) < i_column_start_offset sn)%Z /\
  (i_column_start_offset sn <= i_column_end_offset sn)%Z /\
  (i_column_end_offset sn < Z.of_nat (m_end m))%Z.
Proof.
  destruct m as [[st en] g]. intros Hin.
  destruct (finditer_inline_shape _ _ _ _ Hin)
    as (pre & ws1 & nm & ws2 & text & ws3 & ws4 & post &
        H1 & H2 & H3 & H4 & Hnm & Htext & -> & -> & -> & ->).
  cbv zeta. rewrite inline_of_match_shape; auto.
  unfold m_start, m_end. simpl.
  assert (2 <= length (inline_open ws1 nm ws2)).
  { unfold inline_open. cbn [lit list_ascii_of_string]. len_simpl. lia. }
  assert (2 <= length (inline_close ws3 nm ws4)).
  { unfold inline_close. cbn [lit list_ascii_of_string]. len_simpl. lia. }
  lia.
Qed.

Lemma inline_out_sorted (rest : list str) :
  forall idx,
    StronglySorted inline_before (inline_out rest idx) /\
    Forall (fun sn => (Z.of_nat idx < i_line_offset sn)%Z)
           (inline_out rest idx).
Proof.
  induction rest as [|line rest IH]; intros idx; simpl.
  - split; constructor.
  - destruct (IH (S idx)) as [Hs Hf].
    assert (Hline : forall sn,
               In sn (map (inline_of_match line idx)
                          (finditer inline_pattern line)) ->
               i_line_offset sn = (Z.of_nat idx + 1)%Z).
    { intros sn Hsn. apply in_map_iff in Hsn as (m & <- & Hm).
      now apply inline_of_match_bounds. }
    split.
    + apply StronglySorted_app; auto.
      * destruct (finditer_from_sorted inline_pattern line 0 0) as [Hsm _].
        eapply StronglySorted_map; [exact Hsm|].
        intros a b Ha Hb [Hab _]. right.
        destruct (inline_of_match_bounds line idx a Ha) as (La & _ & _ & Ea).
        destruct (inline_of_match_bounds line idx b Hb) as (Lb & Sb & _ & _).
        split; [congruence | lia].
      * intros a b Ha Hb. left. rewrite (Hline a Ha).
        rewrite Forall_forall in Hf. specialize (Hf b Hb). lia.
    + apply Forall_app. split.
      * apply Forall_forall. intros sn Hsn. rewrite (Hline sn Hsn). lia.
      * eapply Forall_impl; [|exact Hf]. simpl. intros; lia.
Qed.

(** C5.  The list that [parse_file] returns for a file is all the display
    records, in the order of their opening markers from top to bottom,
    followed by all the inline records, in file order and from left to
    right within a line.  The display records are exactly the records of
    the display pairs of the file, one for each opening marker that has a
    closing marker below it; every match of the inline pattern on a line
    gives an inline record, and wherever the pattern matches is the start
    of a reported match or lies inside one. *)
Theorem C5_display_then_inline (env : Env) (filepath : str) (raw : list str)
    (w : World) :
  readlines env filepath = ReadLines raw ->
  let lines := map (rstrip_chars [nl; cr]) raw in
  let ds := fst (parse_display_snippets lines w) in
  let ins := parse_inline_snippets lines in
  fst (parse_file env filepath w) = map Display ds ++ map Inline ins /\
  (forall L k nm,
      display_pair lines L k nm ->
      In (mkDisplay nm (Z.of_nat L + 1) (Z.of_nat k)) ds) /\
  (forall d,
      In d ds ->
      exists L k nm,
        display_pair lines L k nm /\
        d = mkDisplay nm (Z.of_nat L + 1) (Z.of_nat k)) /\
  StronglySorted (fun a b => (d_line_offset a < d_line_offset b)%Z) ds /\
  StronglySorted inline_before ins /\
  (forall idx line m,
      nth_error lines idx = Some line ->
      In m (finditer inline_pattern line) ->
      In (inline_of_match line idx m) ins) /\
  (forall sn,
      In sn ins ->
      exists idx line m,
        nth_error lines idx = Some line /\
        In m (finditer inline_pattern line) /\
        sn = inline_of_match line idx m) /\
  (forall idx pre x' r,
      nth_error lines idx = Some (pre ++ x') ->
      re_match inline_pattern x' = Some r ->
      exists m, In m (finditer inline_pattern (pre ++ x')) /\
                m_start m <= length pre /\
                (length pre < m_end m \/ m_start m = length pre)).
Proof.
  intros Hr lines ds ins.
  split; [|split; [|split; [|split; [|split; [|split; [|split]]]]]].
  - unfold parse_file. rewrite Hr. fold lines.
    unfold parse_lines, bind, ret. subst ds ins.
    now destruct (parse_display_snippets lines w).
  - intros L k nm Hp. subst ds. rewrite parse_display_out. cbn [fst].
    apply display_out_in. exists L, k, nm. auto.
  - intros d Hd. subst ds. rewrite parse_display_out in Hd. cbn [fst] in Hd.
    apply display_out_in in Hd as (L & k & nm & Hp & ->).
    exists L, k, nm. auto.
  - subst ds. rewrite parse_display_out. simpl.
    apply display_out_sorted.
  - subst ins. rewrite parse_inline_out. apply inline_out_sorted.
  - intros idx line m Hn Hm. subst ins. rewrite parse_inline_out.
    apply inline_out_in. exists idx, line, m. auto.
  - intros sn Hsn. subst ins. rewrite parse_inline_out in Hsn.
    apply inline_out_in in Hsn as (idx & line & m & Hn & Hm & ->).
    exists idx, line, m. auto.
  - intros idx pre x' r Hn Hm.
    destruct (finditer_from_complete inline_pattern (pre ++ x') 0 0 pre x' r
                eq_refl ltac:(lia) Hm) as (m & Hin & H1 & H2).
    exists m. auto.
Qed.

Example c5_run :
  fst (parse_file c5_env (lit "F.idr") world0)
  = [Display (mkDisplay (lit "a") 1 2); Display (mkDisplay (lit "b") 3 2);
     Inline (mkInline (lit "x") 2 11 12); Inline (mkInline (lit "y") 2 30 31);
     Inline (mkInline (lit "z") 5 11 12)].
Proof. vm_compute. reflexivity. Qed.

Lemma C5_display_then_inline_witness :
  readlines c5_env (lit "F.idr") = ReadLines c5_raw /\
  let lines := map (rstrip_chars [nl; cr]) c5_raw in
  let ds := fst (parse_display_snippets lines world0) in
  let ins := parse_inline_snippets lines in
  fst (parse_file c5_env (lit "F.idr") world0)
  = map Display ds ++ map Inline ins /\
  (forall L k nm,
      display_pair lines L k nm ->
      In (mkDisplay nm (Z.of_nat L + 1) (Z.of_nat k)) ds) /\
  (forall d,
      In d ds ->
      exists L k nm,
        display_pair lines L k nm /\
        d = mkDisplay nm (Z.of_nat L + 1) (Z.of_nat k)) /\
  StronglySorted (fun a b => (d_line_offset a < d_line_offset b)%Z) ds /\
  StronglySorted inline_before ins /\
  (forall idx line m,
      nth_error lines idx = Some line ->
      In m (finditer inline_pattern line) ->
      In (inline_of_match line idx m) ins) /\
  (forall sn,
      In sn ins ->
      exists idx line m,
        nth_error lines idx = Some line /\
        In m (finditer inline_pattern line) /\
        sn = inline_of_match line idx m) /\
  (forall idx pre x' r,
      nth_error lines idx = Some (pre ++ x') ->
      re_match inline_pattern x' = Some r ->
      exists m, In m (finditer inline_pattern (pre ++ x')) /\
                m_start m <= length pre /\
                (length pre < m_end m \/ m_start m = length pre)).
Proof.
  split; [reflexivity|].
  exact (C5_display_then_inline c5_env (lit "F.idr") c5_raw world0 eq_refl).
Defined.

(** ** The dispatcher *)

#[local] Arguments startswith : simpl never.

(** C2.  The dispatcher builds one renderer invocation per snippet.  After
    the command words [katla latex macro], its parameters are, for a
    display snippet: name, source path, metadata path, [line_offset + 1],
    the literal [0], [line_count - 1]; for an inline snippet: the literal
    [inline], name, source path, metadata path, the literal [0],
    [line_offset], [column_start_offset + 1], [column_end_offset].  In
    normal mode that invocation is run exactly once; in a dry run it is
    not run. *)
Theorem C2_dispatch_parameters (env : Env) (src ttm : str) (w : World) :
  (forall d,
      katla_cmd (Display d) src ttm
      = [lit "katla"; lit "latex"; lit "macro"]
        ++ [d_name d; src; ttm; str_of_int (d_line_offset d + 1); lit "0";
            str_of_int (d_line_count d - 1)]) /\
  (forall i,
      katla_cmd (Inline i) src ttm
      = [lit "katla"; lit "latex"; lit "macro"]
        ++ [lit "inline"; i_name i; src; ttm; lit "0";
            str_of_int (i_line_offset i);
            str_of_int (i_column_start_offset i + 1);
            str_of_int (i_column_end_offset i)]) /\
  (forall nm,
      katla_cmd (Display (mkDisplay nm 10 3)) src ttm
      = [lit "katla"; lit "latex"; lit "macro"; nm; src; ttm;
         lit "11"; lit "0"; lit "2"]) /\
  (forall nm,
      katla_cmd (Inline (mkInline nm 7 4 9)) src ttm
      = [lit "katla"; lit "latex"; lit "macro"; lit "inline"; nm; src; ttm;
         lit "0"; lit "7"; lit "5"; lit "9"]) /\
  (forall sn,
      w_trace (snd (run_katla_command env sn src ttm false w))
      = w_trace w
        ++ [(katla_cmd sn src ttm,
             subprocess_run env (w_trace w) (katla_cmd sn src ttm))]) /\
  (forall sn,
      w_trace (snd (run_katla_command env sn src ttm true w)) = w_trace w).
Proof.
  repeat split; try reflexivity.
  intros sn. unfold run_katla_command, bind, run_process. simpl.
  destruct (subprocess_run env (w_trace w) (katla_cmd sn src ttm))
    as [rc out err | e]; simpl; auto.
  destruct (negb (rc =? 0)%Z); reflexivity.
Qed.

(** ** The aggregator *)

Lemma error_line_is_error (sn : Snippet) :
  truthy (error_line sn) = true /\
  startswith (error_line sn) (lit "% Error") = true.
Proof. split; reflexivity. Qed.

Lemma run_katla_normal (env : Env) (sn : Snippet) (src ttm : str) (w : World) :
  let cmd := katla_cmd sn src ttm in
  let r := subprocess_run env (w_trace w) cmd in
  exists es,
    run_katla_command env sn src ttm false w
    = (output_of r sn,
       mkWorld (w_stderr w ++ es) (w_trace w ++ [(cmd, r)]) (w_file w)).
Proof.
  intros cmd r. unfold run_katla_command, bind, run_process. simpl.
  fold cmd. fold r. destruct r as [rc out err | e]; simpl.
  - destruct (negb (rc =? 0)%Z); simpl.
    + eexists [_]. reflexivity.
    + exists []. unfold ret. now rewrite app_nil_r.
  - eexists [_]. reflexivity.
Qed.

Lemma collect_output_of (t : Totals) (r : ProcResult) (sn : Snippet) :
  total_success (collect t (output_of r sn))
  = (total_success t + (if dispatch_ok r then 1 else 0))%Z /\
  total_snippets (collect t (output_of r sn)) = total_snippets t.
Proof.
  destruct (error_line_is_error sn) as [Et Es].
  unfold collect.
  destruct r as [rc out err | e]; cbn [output_of dispatch_ok].
  - destruct (rc =? 0)%Z; cbn [negb andb].
    + destruct (truthy out); cbn [negb andb]; [|split; lia].
      destruct (startswith out (lit "% Error")); cbn; split; lia.
    + rewrite Et, Es. cbn. split; lia.
  - rewrite Et, Es. cbn. split; lia.
Qed.

Lemma main_snippet_normal (env : Env) (src ttm : str) (t : Totals)
    (sn : Snippet) (w : World) :
  let cmd := katla_cmd sn src ttm in
  let r := subprocess_run env (w_trace w) cmd in
  exists es,
    main_snippet env src ttm false t sn w
    = (collect t (output_of r sn),
       mkWorld (w_stderr w ++ es) (w_trace w ++ [(cmd, r)]) (w_file w)).
Proof.
  intros cmd r. destruct (run_katla_normal env sn src ttm w) as [es E].
  exists es. unfold main_snippet, bind. rewrite E. reflexivity.
Qed.

Lemma foldM_main_snippet (env : Env) (src ttm : str) (sns : list Snippet) :
  forall t w,
    exists new,
      let (t', w') := foldM (main_snippet env src ttm false) sns t w in
      ran t w t' w' new /\ length new = length sns /\
      total_snippets t' = total_snippets t.
Proof.
  induction sns as [|sn sns IH]; intros t w.
  - exists []. simpl. unfold ran. simpl.
    rewrite app_nil_r. repeat split; lia.
  - destruct (main_snippet_normal env src ttm t sn w) as [es E].
    cbn [foldM]. unfold bind at 1. rewrite E.
    match goal with
    | |- context [foldM _ sns ?t1 ?w1] =>
        destruct (IH t1 w1) as [new Hnew];
        destruct (foldM (main_snippet env src ttm false) sns t1 w1)
          as [t' w']
    end.
    destruct Hnew as ((Htr & Hf & Hs) & Hlen & Htot). simpl in Htr, Hf.
    destruct (collect_output_of t
                (subprocess_run env (w_trace w) (katla_cmd sn src ttm)) sn)
      as [Hc1 Hc2].
    eexists (_ :: new). unfold ran. repeat split.
    + rewrite Htr, <- app_assoc. reflexivity.
    + exact Hf.
    + rewrite Hs, Hc1. cbn [filter]. unfold entry_ok at 2. cbn [snd].
      destruct (dispatch_ok _); cbn [length]; lia.
    + simpl. lia.
    + lia.
Qed.

Lemma filter_length_le {A : Type} (f : A -> bool) (l : list A) :
  length (filter f l) <= length l.
Proof.
  induction l as [|a l IH]; simpl; auto. destruct (f a); simpl; lia.
Qed.

Lemma filter_length_all {A : Type} (f : A -> bool) (l : list A) :
  length (filter f l) = length l <-> forallb f l = true.
Proof.
  induction l as [|a l IH]; simpl.
  - split; auto.
  - pose proof (filter_length_le f l). destruct (f a); simpl.
    + rewrite <- IH. split; lia.
    + split; [lia | discriminate].
Qed.

Lemma parse_file_world (env : Env) (filepath : str) (w : World) :
  exists es, snd (parse_file env filepath w) = add_stderr w es.
Proof.
  unfold parse_file. destruct (readlines env filepath) as [raw | [|] e].
  - unfold parse_lines, bind, ret. rewrite parse_display_out. simpl. eauto.
  - eexists [_]. reflexivity.
  - eexists [_]. reflexivity.
Qed.

Lemma ran_refl_stderr (t : Totals) (w : World) (es : list str) :
  ran t w t (add_stderr w es) [].
Proof.
  unfold ran. simpl. rewrite app_nil_r. repeat split; lia.
Qed.

Lemma main_pair_normal (env : Env) (t : Totals) (pair : str * str) (w : World) :
  exists new,
    let (t', w') := main_pair env false t pair w in
    ran t w t' w' new /\
    total_snippets t' = (total_snippets t + Z.of_nat (length new))%Z.
Proof.
  destruct pair as [src ttm]. unfold main_pair.
  destruct (path_exists env src); cbn [negb andb].
  2:{ exists []. unfold bind, eprint, ret. split; [|simpl; lia].
      apply (ran_refl_stderr t w [_]). }
  destruct (path_exists env ttm); cbn [negb].
  2:{ exists []. unfold bind, eprint, ret. split; [|simpl; lia].
      apply (ran_refl_stderr t w [_]). }
  unfold bind at 1.
  destruct (parse_file_world env src w) as [es Ew].
  destruct (parse_file env src w) as [sns w1]. simpl in Ew. subst w1.
  unfold bind.
  match goal with
  | |- context [foldM _ sns ?t1 ?w1] =>
      destruct (foldM_main_snippet env src ttm sns t1 w1) as [new Hnew];
      destruct (foldM (main_snippet env src ttm false) sns t1 w1)
        as [t' w']
  end.
  destruct Hnew as ((Htr & Hf & Hs) & Hlen & Htot).
  exists new. unfold ret. unfold ran.
  simpl in Htr, Hf.
  destruct (truthy_list sns); simpl in *; repeat split; auto; lia.
Qed.

Lemma foldM_main_pair (env : Env) (pairs : list (str * str)) :
  forall t w,
    exists new,
      let (t', w') := foldM (main_pair env false) pairs t w in
      ran t w t' w' new /\
      total_snippets t' = (total_snippets t + Z.of_nat (length new))%Z.
Proof.
  induction pairs as [|pair pairs IH]; intros t w.
  - exists []. simpl. split; [|lia]. unfold ran. simpl.
    rewrite app_nil_r. repeat split; lia.
  - cbn [foldM]. unfold bind at 1.
    destruct (main_pair_normal env t pair w) as [new1 H1].
    destruct (main_pair env false t pair w) as [t1 w1].
    destruct (IH t1 w1) as [new2 H2].
    destruct (foldM (main_pair env false) pairs t1 w1) as [t2 w2].
    destruct H1 as ((Htr1 & Hf1 & Hs1) & Hn1).
    destruct H2 as ((Htr2 & Hf2 & Hs2) & Hn2).
    exists (new1 ++ new2). unfold ran. repeat split.
    + rewrite Htr2, Htr1, app_assoc. reflexivity.
    + congruence.
    + rewrite Hs2, Hs1, filter_app, length_app. lia.
    + rewrite Hn2, Hn1, length_app. lia.
Qed.

(** What [main] does in normal mode, in one statement: the invocations
    that the run added to the trace, the two counters after the loop, and
    the exit status. *)
Lemma main_normal (env : Env) (args : Args) (w : World) :
  dry_run args = false ->
  exists new,
    w_trace (snd (main env args w)) = w_trace w ++ new /\
    (fst (main env args w) = 0%Z <->
     length (files args) mod 2 = 0 /\ mkdir_ok env = true /\
     write_error env = None /\ forallb entry_ok new = true) /\
    (length (files args) mod 2 = 0 ->
     let t := fst (main_loop env args w) in
     w_trace (snd (main_loop env args w)) = w_trace w ++ new /\
     total_snippets t = Z.of_nat (length new) /\
     total_success t = Z.of_nat (length (filter entry_ok new))).
Proof.
  intros Hdry. unfold main.
  destruct (length (files args) mod 2 =? 0) eqn:Even; cbn [negb].
  - apply Nat.eqb_eq in Even.
    unfold bind, main_loop. rewrite Hdry.
    destruct (foldM_main_pair env (file_pairs (files args)) totals0 w)
      as [new Hnew].
    destruct (foldM (main_pair env false) (file_pairs (files args)) totals0 w)
      as [t w1].
    destruct Hnew as ((Htr & Hf & Hs) & Hn).
    change (total_success totals0) with 0%Z in Hs.
    change (total_snippets totals0) with 0%Z in Hn.
    exists new. unfold main_finish. rewrite Hdry. cbn [negb].
    pose proof (filter_length_le entry_ok new) as Hle.
    pose proof (filter_length_all entry_ok new) as Hall.
    assert (Hloop : w_trace w1 = w_trace w ++ new /\
                    total_snippets t = Z.of_nat (length new) /\
                    total_success t
                    = Z.of_nat (length (filter entry_ok new)))
      by (repeat split; auto; lia).
    destruct (mkdir_ok env); cbn [negb].
    + destruct (write_error env) as [e|].
      * unfold bind, eprint, ret. cbn [fst snd w_trace].
        split; [exact Htr|]. split; [|intros _; exact Hloop].
        split; [discriminate|]. intros (_ & _ & H & _). discriminate.
      * unfold bind, write_output, ret.
        destruct (total_success t <? total_snippets t)%Z eqn:Elt;
          cbn [fst snd w_trace].
        -- apply Z.ltb_lt in Elt.
           split; [exact Htr|]. split; [|intros _; exact Hloop].
           split; [discriminate|].
           intros (_ & _ & _ & H). apply Hall in H. lia.
        -- apply Z.ltb_ge in Elt.
           split; [exact Htr|]. split; [|intros _; exact Hloop].
           split; [|reflexivity]. intros _. repeat split; auto.
           apply Hall. lia.
    + unfold ret. cbn [fst snd].
      split; [exact Htr|]. split; [|intros _; exact Hloop].
      split; [discriminate|]. intros (_ & H & _). discriminate.
  - apply Nat.eqb_neq in Even. exists [].
    unfold bind, eprint, ret. cbn [fst snd w_trace]. rewrite app_nil_r.
    split; [reflexivity|]. split; [|intros H; contradiction].
    split; [discriminate|]. intros (H & _). contradiction.
Qed.

(** ** Claims on the aggregator *)

Example ok_run :
  fst (main ok_env run_args world0) = 0%Z /\
  length (w_trace (snd (main ok_env run_args world0))) = 5 /\
  total_success (fst (main_loop ok_env run_args world0)) = 5%Z /\
  total_snippets (fst (main_loop ok_env run_args world0)) = 5%Z.
Proof. vm_compute. repeat split; reflexivity. Qed.

(** C8 fails: the output is kept as it is, with its two newlines. *)
Lemma C8_one_newline_counterexample :
  (let t' := fst (main_snippet two_newlines_env (lit "F.idr") (lit "F.ttm")
                    false totals0 (Display (mkDisplay (lit "a") 1 2)) world0) in
   total_success t' = 1%Z /\
   concat (new_content totals0 t') = lit "x" ++ [nl; nl]) /\
  ~ fragment_ends_with_exactly_one_newline.
Proof.
  split; [vm_compute; split; reflexivity|].
  intros H.
  specialize (H two_newlines_env (lit "F.idr") (lit "F.ttm") totals0
                (Display (mkDisplay (lit "a") 1 2)) world0 eq_refl).
  vm_compute in H. discriminate H.
Qed.

Lemma endswith_snoc (x : str) (c : ascii) : endswith (x ++ [c]) [c] = true.
Proof.
  unfold endswith. rewrite rev_unit. cbn [rev app].
  apply startswith_iff. exists (rev x). reflexivity.
Qed.

Lemma skipn_length_app_list {A : Type} (p r : list A) :
  skipn (length p) (p ++ r) = r.
Proof. induction p; simpl; auto. Qed.

Lemma collect_success (t : Totals) (out : str) :
  truthy out = true -> startswith out (lit "% Error") = false ->
  collect t out
  = mkTotals (total_success t + 1) (total_snippets t)
      ((all_macro_content t ++ [out])
       ++ (if endswith out [nl] then [] else [[nl]])).
Proof.
  intros Ht Hs. unfold collect. rewrite Ht, Hs. cbn [negb andb].
  destruct (endswith out [nl]); cbn [negb]; [now rewrite app_nil_r|].
  reflexivity.
Qed.

Lemma collect_placeholder (t : Totals) (out : str) :
  startswith out (lit "% Error") = true ->
  collect t out = append_content t out.
Proof.
  intros Hs. unfold collect. rewrite Hs. cbn [negb].
  rewrite andb_false_r.
  assert (truthy out = true) as ->; [|reflexivity].
  apply startswith_iff in Hs as [r ->]. reflexivity.
Qed.

(** C8, amended.  The fragment of a dispatch that is counted as a success
    is the output of the renderer, with a newline added when the output
    does not end with one and unchanged otherwise: it ends with at least
    one newline. *)
Theorem C8_fragment_ends_with_newline (env : Env) (src ttm : str)
    (t : Totals) (sn : Snippet) (w : World) :
  let t' := fst (main_snippet env src ttm false t sn w) in
  total_success t' = (total_success t + 1)%Z ->
  exists out err,
    subprocess_run env (w_trace w) (katla_cmd sn src ttm)
    = Completed 0 out err /\
    concat (new_content t t')
    = (if endswith out [nl] then out else out ++ [nl]) /\
    endswith (concat (new_content t t')) [nl] = true.
Proof.
  intros t'. subst t'.
  destruct (main_snippet_normal env src ttm t sn w) as [es E].
  rewrite E. cbn [fst]. intros Hs.
  destruct (collect_output_of t
              (subprocess_run env (w_trace w) (katla_cmd sn src ttm)) sn)
    as [Hc _].
  rewrite Hc in Hs.
  destruct (subprocess_run env (w_trace w) (katla_cmd sn src ttm))
    as [rc out err | e]; cbn [dispatch_ok] in Hs; [|lia].
  destruct (rc =? 0)%Z eqn:Erc; cbn [andb] in Hs; [|lia].
  apply Z.eqb_eq in Erc. subst rc.
  destruct (truthy out) eqn:Et; cbn [andb] in Hs; [|lia].
  destruct (startswith out (lit "% Error")) eqn:Ee; cbn [negb] in Hs; [lia|].
  exists out, err. split; [reflexivity|].
  cbn [output_of Z.eqb negb]. rewrite (collect_success t out Et Ee).
  unfold new_content. cbn [all_macro_content].
  rewrite <- app_assoc, skipn_length_app_list.
  destruct (endswith out [nl]) eqn:En; cbn [app concat].
  - rewrite app_nil_r. auto.
  - split; [reflexivity|]. apply endswith_snoc.
Qed.

Lemma C8_fragment_ends_with_newline_witness :
  let t' := fst (main_snippet two_newlines_env (lit "F.idr") (lit "F.ttm")
                   false totals0 (Display (mkDisplay (lit "a") 1 2)) world0) in
  total_success t' = (total_success totals0 + 1)%Z /\
  exists out err,
    subprocess_run two_newlines_env (w_trace world0)
      (katla_cmd (Display (mkDisplay (lit "a") 1 2)) (lit "F.idr")
                 (lit "F.ttm"))
    = Completed 0 out err /\
    concat (new_content totals0 t')
    = (if endswith out [nl] then out else out ++ [nl]) /\
    endswith (concat (new_content totals0 t')) [nl] = true.
Proof.
  split; [reflexivity|].
  exact (C8_fragment_ends_with_newline two_newlines_env (lit "F.idr")
           (lit "F.ttm") totals0 (Display (mkDisplay (lit "a") 1 2)) world0
           eq_refl).
Defined.

Example two_newlines_run :
  w_file (snd (main two_newlines_env
                 (mkArgs [lit "F.idr"; lit "F.ttm"] (lit "out") false)
                 world0))
  = Some (header
          ++ [lit "% Macros from F.idr" ++ [nl]]
          ++ repeat (lit "x" ++ [nl; nl]) 5
          ++ [[nl]]).
Proof. vm_compute. reflexivity. Qed.

Lemma dispatch_ok_iff (r : ProcResult) :
  dispatch_ok r = true <->
  exists out err,
    r = Completed 0 out err /\ out <> [] /\
    startswith out (lit "% Error") = false.
Proof.
  destruct r as [rc out err | e]; cbn [dispatch_ok].
  - rewrite !andb_true_iff, Z.eqb_eq, negb_true_iff. split.
    + intros [[-> Ht] Hs]. exists out, err. repeat split; auto.
      intros ->. discriminate.
    + intros (out' & err' & E & Hne & Hs). injection E as -> <- <-.
      repeat split; auto. destruct out; [congruence | reflexivity].
  - split; [discriminate|]. intros (out & err & E & _). discriminate.
Qed.

(** C10.  In normal mode a dispatch is counted as a success exactly when
    the renderer exits with status 0 and prints something that does not
    begin with [% Error]; its output is then appended.  With status 0 and
    no output nothing is appended and nothing is counted; with status 0
    and an output that begins with [% Error] the output is appended and
    not counted; with another status, or an exception, the placeholder
    line is appended and not counted.  A run in which some invocation was
    not a success does not exit with status 0. *)
Theorem C10_success_criterion (env : Env) (args : Args) (w0 : World)
    (src ttm : str) (t : Totals) (sn : Snippet) (w : World) :
  dry_run args = false ->
  let r := subprocess_run env (w_trace w) (katla_cmd sn src ttm) in
  let t' := fst (main_snippet env src ttm (dry_run args) t sn w) in
  (total_success t' = (total_success t + 1)%Z <-> dispatch_ok r = true) /\
  (dispatch_ok r = false -> total_success t' = total_success t) /\
  (dispatch_ok r = true <->
   exists out err,
     r = Completed 0 out err /\ out <> [] /\
     startswith out (lit "% Error") = false) /\
  (forall out err,
      r = Completed 0 out err -> out <> [] ->
      startswith out (lit "% Error") = false ->
      all_macro_content t'
      = (all_macro_content t ++ [out])
        ++ (if endswith out [nl] then [] else [[nl]])) /\
  (forall err, r = Completed 0 [] err -> t' = t) /\
  (forall out err,
      r = Completed 0 out err -> startswith out (lit "% Error") = true ->
      t' = append_content t out) /\
  (forall rc out err,
      r = Completed rc out err -> rc <> 0%Z ->
      t' = append_content t (error_line sn)) /\
  (forall e, r = Raised e -> t' = append_content t (error_line sn)) /\
  (forall new,
      w_trace (snd (main env args w0)) = w_trace w0 ++ new ->
      forallb entry_ok new = false ->
      fst (main env args w0) <> 0%Z).
Proof.
  intros Hdry r t'. subst t'. rewrite Hdry.
  destruct (main_snippet_normal env src ttm t sn w) as [es E].
  rewrite E. cbn [fst]. fold r.
  destruct (collect_output_of t r sn) as [Hc _].
  destruct (error_line_is_error sn) as [_ Herr].
  split; [|split; [|split; [|split; [|split; [|split; [|split; [|split]]]]]]].
  - rewrite Hc. destruct (dispatch_ok r); split; auto; try lia; discriminate.
  - intros Hbad. rewrite Hc, Hbad. lia.
  - apply dispatch_ok_iff.
  - intros out err -> Hne Hs. cbn [output_of Z.eqb negb].
    rewrite collect_success; auto. destruct out; [congruence | reflexivity].
  - intros err ->. reflexivity.
  - intros out err -> Hs. cbn [output_of Z.eqb negb].
    now apply collect_placeholder.
  - intros rc out err -> Hrc. cbn [output_of].
    apply Z.eqb_neq in Hrc. rewrite Hrc. cbn [negb].
    now apply collect_placeholder.
  - intros e ->. cbn [output_of]. now apply collect_placeholder.
  - intros new Htr Hbad H0.
    destruct (main_normal env args w0 Hdry) as (new' & Htr' & Hiff & _).
    rewrite Htr' in Htr. apply app_inv_head in Htr. subst new'.
    apply Hiff in H0 as (_ & _ & _ & H0). congruence.
Qed.

Example error_text_run :
  fst (main error_text_env run_args world0) = 1%Z /\
  total_success (fst (main_loop error_text_env run_args world0)) = 0%Z /\
  total_snippets (fst (main_loop error_text_env run_args world0)) = 5%Z /\
  w_file (snd (main error_text_env run_args world0))
  = Some (header
          ++ [lit "% Macros from F.idr" ++ [nl]]
          ++ repeat (lit "% Error: no such file" ++ [nl]) 5
          ++ [[nl]]).
Proof. vm_compute. repeat split; reflexivity. Qed.

Lemma C10_success_criterion_witness :
  dry_run run_args = false /\
  let sn := Display (mkDisplay (lit "a") 1 2) in
  let r := subprocess_run error_text_env (w_trace world0)
             (katla_cmd sn (lit "F.idr") (lit "F.ttm")) in
  let t' := fst (main_snippet error_text_env (lit "F.idr") (lit "F.ttm")
                   (dry_run run_args) totals0 sn world0) in
  (total_success t' = (total_success totals0 + 1)%Z <-> dispatch_ok r = true) /\
  (dispatch_ok r = false -> total_success t' = total_success totals0) /\
  (dispatch_ok r = true <->
   exists out err,
     r = Completed 0 out err /\ out <> [] /\
     startswith out (lit "% Error") = false) /\
  (forall out err,
      r = Completed 0 out err -> out <> [] ->
      startswith out (lit "% Error") = false ->
      all_macro_content t'
      = (all_macro_content totals0 ++ [out])
        ++ (if endswith out [nl] then [] else [[nl]])) /\
  (forall err, r = Completed 0 [] err -> t' = totals0) /\
  (forall out err,
      r = Completed 0 out err -> startswith out (lit "% Error") = true ->
      t' = append_content totals0 out) /\
  (forall rc out err,
      r = Completed rc out err -> rc <> 0%Z ->
      t' = append_content totals0 (error_line sn)) /\
  (forall e, r = Raised e -> t' = append_content totals0 (error_line sn)) /\
  (forall new,
      w_trace (snd (main error_text_env run_args world0))
      = w_trace world0 ++ new ->
      forallb entry_ok new = false ->
      fst (main error_text_env run_args world0) <> 0%Z).
Proof.
  split; [reflexivity|].
  exact (C10_success_criterion error_text_env run_args world0
           (lit "F.idr") (lit "F.ttm") totals0
           (Display (mkDisplay (lit "a") 1 2)) world0 eq_refl).
Defined.

(** * Further properties of the code *)

(** ** The display parser: every opening marker is accounted for *)

Lemma is_opening_line_iff (l : str) :
  is_opening_line l = true <-> exists nm, opening_marker nm l.
Proof.
  unfold is_opening_line. split.
  - destruct (re_match display_start_pattern (strip l)) as [[n g]|] eqn:E;
      [|discriminate].
    intros _. exists (group1 g). eapply start_match_name. exact E.
  - intros [nm H]. apply start_match_iff in H as [n H]. now rewrite H.
Qed.

Lemma display_out_count (rest : list str) :
  forall i,
    length (fst (display_out rest i)) + length (snd (display_out rest i))
    = length (filter is_opening_line rest).
Proof.
  induction rest as [|l rest IH]; intros i; simpl; auto.
  specialize (IH (S i)). unfold is_opening_line at 1.
  destruct (display_out rest (S i)) as [ds es]. simpl in IH.
  destruct (re_match display_start_pattern (strip l)) as [[n g]|]; auto.
  destruct (find_closing _ _ _); simpl; lia.
Qed.

Lemma display_out_warn (rest : list str) :
  forall i e,
    In e (snd (display_out rest i)) ->
    exists L l nm,
      nth_error rest L = Some l /\ opening_marker nm l /\
      (forall l', In l' (skipn (S L) rest) -> ~ closing_marker nm l') /\
      e = unclosed_warning nm (i + L).
Proof.
  induction rest as [|l rest IH]; intros i e Hin; simpl in Hin;
    [contradiction|].
  assert (Htail : In e (snd (display_out rest (S i))) ->
            exists L l0 nm,
              nth_error (l :: rest) L = Some l0 /\ opening_marker nm l0 /\
              (forall l', In l' (skipn (S L) (l :: rest)) ->
                          ~ closing_marker nm l') /\
              e = unclosed_warning nm (i + L)).
  { intros H. apply IH in H as (L & l0 & nm & Hn & Ho & Hc & ->).
    exists (S L), l0, nm. repeat split; auto; try (f_equal; lia). }
  destruct (display_out rest (S i)) as [ds es]. simpl in Htail.
  destruct (re_match display_start_pattern (strip l)) as [[n g]|] eqn:Es;
    auto.
  destruct (find_closing (group1 g) rest (S i)) as [j|] eqn:Ef; auto.
  simpl in Hin. destruct Hin as [<- | Hin]; auto.
  exists 0, l, (group1 g). repeat split.
  - eapply start_match_name. exact Es.
  - simpl. apply (proj1 (find_closing_none _ _ _) Ef).
  - f_equal. lia.
Qed.

(** X1.  Every line that is an opening marker gives exactly one record or
    exactly one warning, and nothing else gives either: the records and
    the warnings together are as many as the opening-marker lines.  A
    warning is only printed for an opening marker that no later line
    closes.  The parser prints nothing else, runs no renderer and writes no
    file. *)
Theorem X1_every_opening_marker_accounted (lines : list str) (w : World) :
  exists es,
    snd (parse_display_snippets lines w) = add_stderr w es /\
    length (fst (parse_display_snippets lines w)) + length es
    = length (filter is_opening_line lines) /\
    (forall l, is_opening_line l = true <-> exists nm, opening_marker nm l) /\
    (forall e,
        In e es ->
        exists L l nm,
          nth_error lines L = Some l /\ opening_marker nm l /\
          (forall l', In l' (skipn (S L) lines) -> ~ closing_marker nm l') /\
          e = unclosed_warning nm L).
Proof.
  exists (snd (display_out lines 0)). rewrite parse_display_out. simpl.
  split; [reflexivity|]. split; [apply display_out_count|].
  split; [apply is_opening_line_iff|].
  intros e He. apply display_out_warn in He. exact He.
Qed.

(** ** The display parser: a record stays inside the file *)

(** X2.  A record that the parser emits names a non-empty tag of word
    characters, has [line_offset >= 1] and [line_count >= 0], and lies
    inside the file: [line_offset + line_count] is the 0-indexed position
    of its closing marker, so [lines[line_offset : line_offset +
    line_count]] are [line_count] lines of the file. *)
Theorem X2_display_record_in_file (lines : list str) (w : World)
    (d : DisplaySnippet) :
  In d (fst (parse_display_snippets lines w)) ->
  is_name (d_name d) /\
  (1 <= d_line_offset d)%Z /\ (0 <= d_line_count d)%Z /\
  (d_line_offset d + d_line_count d < Z.of_nat (length lines))%Z /\
  (exists l,
      nth_error lines (Z.to_nat (d_line_offset d + d_line_count d)) = Some l /\
      closing_marker (d_name d) l) /\
  length (firstn (Z.to_nat (d_line_count d))
                 (skipn (Z.to_nat (d_line_offset d)) lines))
  = Z.to_nat (d_line_count d).
Proof.
  rewrite parse_display_out. simpl. intros Hd.
  apply display_out_in in Hd as (L & k & nm & Hp & ->). simpl.
  destruct Hp as ((lo & Hlo & Ho) & (lc & Hlc & Hc) & _).
  assert (Hlen : L + k + 1 < length lines).
  { apply nth_error_Some. rewrite Hlc. discriminate. }
  repeat split; try lia.
  - destruct Ho as (ws & _ & [Hne _] & _). exact Hne.
  - destruct Ho as (ws & _ & [_ Hw] & _). exact Hw.
  - exists lc. split; auto.
    replace (Z.to_nat (Z.of_nat L + 1 + Z.of_nat k)) with (L + k + 1)
      by lia.
    exact Hlc.
  - rewrite length_firstn, length_skipn. lia.
Qed.

Lemma X2_display_record_in_file_witness :
  In (mkDisplay (lit "foo") 5 2)
     (fst (parse_display_snippets c1_lines world0)) /\
  is_name (lit "foo") /\
  (1 <= 5)%Z /\ (0 <= 2)%Z /\
  (5 + 2 < Z.of_nat (length c1_lines))%Z /\
  (exists l,
      nth_error c1_lines (Z.to_nat (5 + 2)) = Some l /\
      closing_marker (lit "foo") l) /\
  length (firstn (Z.to_nat 2) (skipn (Z.to_nat 5) c1_lines)) = Z.to_nat 2.
Proof.
  assert (H : In (mkDisplay (lit "foo") 5 2)
                 (fst (parse_display_snippets c1_lines world0)))
    by (vm_compute; left; reflexivity).
  split; [exact H|].
  exact (X2_display_record_in_file c1_lines world0 _ H).
Defined.

(** ** The display parser: white space around a line does not matter *)

Lemma dropwhile_all (p : ascii -> bool) (x : str) :
  forallb p x = true -> dropwhile p x = [].
Proof.
  induction x as [|c x IH]; simpl; auto.
  intros H. apply andb_true_iff in H as [Hc Hx]. rewrite Hc. auto.
Qed.

Lemma dropwhile_app_all (p : ascii -> bool) (a x : str) :
  forallb p a = true -> dropwhile p (a ++ x) = dropwhile p x.
Proof.
  induction a as [|c a IH]; simpl; auto.
  intros H. apply andb_true_iff in H as [Hc Ha]. rewrite Hc. auto.
Qed.

Lemma dropwhile_app_r (p : ascii -> bool) (x b : str) :
  forallb p b = true ->
  dropwhile p (x ++ b)
  = match dropwhile p x with [] => [] | y => y ++ b end.
Proof.
  intros Hb. induction x as [|c x IH]; simpl.
  - now apply dropwhile_all.
  - destruct (p c); auto.
Qed.

Lemma forallb_rev (p : ascii -> bool) (x : str) :
  forallb p x = true -> forallb p (rev x) = true.
Proof.
  rewrite !forallb_forall. intros H c Hc. apply H. now apply in_rev.
Qed.

Lemma rstrip_app_all (y b : str) :
  forallb is_space b = true -> rstrip (y ++ b) = rstrip y.
Proof.
  intros Hb. unfold rstrip. rewrite rev_app_distr.
  rewrite dropwhile_app_all; auto. now apply forallb_rev.
Qed.

Lemma strip_pad (a l b : str) :
  forallb is_space a = true -> forallb is_space b = true ->
  strip (a ++ l ++ b) = strip l.
Proof.
  intros Ha Hb. unfold strip, lstrip.
  rewrite dropwhile_app_all; auto. rewrite dropwhile_app_r; auto.
  destruct (dropwhile is_space l) as [|c y]; auto.
  now apply rstrip_app_all.
Qed.

Lemma padded_strip (lines lines' : list str) :
  Forall2 padded lines lines' -> map strip lines' = map strip lines.
Proof.
  induction 1 as [|l l' ls ls' (a & b & Ha & Hb & ->) _ IH]; simpl; auto.
  rewrite strip_pad; auto. now f_equal.
Qed.

Lemma find_closing_strip (nm : str) (rest rest' : list str) :
  map strip rest' = map strip rest ->
  forall j, find_closing nm rest' j = find_closing nm rest j.
Proof.
  revert rest'. induction rest as [|l rest IH]; intros [|l' rest'] E j;
    try discriminate; auto.
  simpl in E. injection E as El E. simpl. rewrite El.
  destruct (re_match _ _); auto.
Qed.

Lemma display_out_strip (rest rest' : list str) :
  map strip rest' = map strip rest ->
  forall i, display_out rest' i = display_out rest i.
Proof.
  revert rest'. induction rest as [|l rest IH]; intros [|l' rest'] E i;
    try discriminate; auto.
  simpl in E. injection E as El E. simpl.
  rewrite El, (IH rest' E).
  destruct (display_out rest (S i)) as [ds es].
  destruct (re_match _ _) as [[n g]|]; auto.
  now rewrite (find_closing_strip _ rest rest' E).
Qed.

(** X3.  The display parser reads every line trimmed: adding white space
    before or after any lines of a file (indenting the markers, trailing
    blanks) changes neither the records nor the warnings. *)
Theorem X3_display_ignores_padding (lines lines' : list str) (w : World) :
  Forall2 padded lines lines' ->
  parse_display_snippets lines' w = parse_display_snippets lines w.
Proof.
  intros H. rewrite !parse_display_out.
  now rewrite (display_out_strip lines lines' (padded_strip _ _ H)).
Qed.

Lemma X3_display_ignores_padding_witness :
  Forall2 padded c4_lines c4_lines_indented /\
  parse_display_snippets c4_lines_indented world0
  = parse_display_snippets c4_lines world0.
Proof.
  assert (H : Forall2 padded c4_lines c4_lines_indented).
  { repeat constructor;
      (exists (lit "    "), (lit "  "); repeat split; reflexivity). }
  split; [exact H|].
  exact (X3_display_ignores_padding c4_lines c4_lines_indented world0 H).
Defined.

(** ** The inline parser: a record stays inside its line *)

Lemma inline_open_length (ws1 nm ws2 : str) :
  length (inline_open ws1 nm ws2) = length ws1 + length nm + length ws2 + 6.
Proof.
  unfold inline_open. cbn [lit list_ascii_of_string]. len_simpl. lia.
Qed.

Lemma inline_close_length (ws1 nm ws2 : str) :
  length (inline_close ws1 nm ws2) = length ws1 + length nm + length ws2 + 7.
Proof.
  unfold inline_close. cbn [lit list_ascii_of_string]. len_simpl. lia.
Qed.

Lemma is_name_length (nm : str) : is_name nm -> 1 <= length nm.
Proof. intros [Hne _]. destruct nm; [congruence | simpl; lia]. Qed.

(** X4.  A record that the inline parser emits names a non-empty tag of
    word characters, carries the 1-indexed number of a line of the file,
    and its two column offsets lie inside that line, in order: at least
    the 7 characters of the shortest opening marker come before the start
    and at least the 8 characters of the shortest closing marker after the
    end.  Neither search of the parser ([find], [rfind]) ever gives [-1]. *)
Theorem X4_inline_record_in_line (lines : list str) (sn : InlineSnippet) :
  In sn (parse_inline_snippets lines) ->
  exists idx line,
    nth_error lines idx = Some line /\
    i_line_offset sn = (Z.of_nat idx + 1)%Z /\
    is_name (i_name sn) /\
    (7 <= i_column_start_offset sn)%Z /\
    (i_column_start_offset sn <= i_column_end_offset sn)%Z /\
    (i_column_end_offset sn + 8 <= Z.of_nat (length line))%Z.
Proof.
  rewrite parse_inline_out. intros Hin.
  apply inline_out_in in Hin as (k & line & [[st en] g] & Hn & Hm & ->).
  exists k, line.
  destruct (finditer_inline_shape _ _ _ _ Hm)
    as (pre & ws1 & nm & ws2 & text & ws3 & ws4 & post &
        H1 & H2 & H3 & H4 & Hnm & Htext & -> & Hline & -> & ->).
  subst line. rewrite inline_of_match_shape; auto.
  cbn [i_line_offset i_name i_column_start_offset i_column_end_offset].
  pose proof (is_name_length nm Hnm) as Hl.
  rewrite !length_app, inline_open_length, inline_close_length.
  repeat split; try apply Hnm; auto; lia.
Qed.

Lemma X4_inline_record_in_line_witness :
  In (mkInline (lit "bar") 3 11 14) (parse_inline_snippets c3_lines) /\
  exists idx line,
    nth_error c3_lines idx = Some line /\
    3%Z = (Z.of_nat idx + 1)%Z /\
    is_name (lit "bar") /\
    (7 <= 11)%Z /\ (11 <= 14)%Z /\
    (14 + 8 <= Z.of_nat (length line))%Z.
Proof.
  assert (H : In (mkInline (lit "bar") 3 11 14)
                 (parse_inline_snippets c3_lines))
    by (vm_compute; left; reflexivity).
  split; [exact H|].
  exact (X4_inline_record_in_line c3_lines _ H).
Defined.

(** ** The two grammars on one line *)

Lemma finditer_lacks (x : str) :
  lacks "{" x ->
  forall pos skip, finditer_from inline_pattern x pos skip = [].
Proof.
  induction x as [|c x IH]; intros Hx pos skip.
  - destruct skip; reflexivity.
  - apply lacks_head in Hx as [Hc Hx].
    destruct skip; cbn [finditer_from]; [|now apply IH].
    unfold re_match, inline_pattern. rewrite rmatch_Chr.
    unfold chr_eqb in *. rewrite Ascii.eqb_sym, Hc. now apply IH.
Qed.

Lemma dropwhile_split (p : ascii -> bool) (x : str) :
  exists a, x = a ++ dropwhile p x /\ forallb p a = true.
Proof.
  induction x as [|c x (a & E & Ha)]; simpl.
  - exists []. auto.
  - destruct (p c) eqn:Hc.
    + exists (c :: a). simpl. rewrite Hc, Ha. split; [congruence | auto].
    + exists []. auto.
Qed.

Lemma strip_decompose (l : str) :
  exists a b, l = a ++ strip l ++ b /\
              forallb is_space a = true /\ forallb is_space b = true.
Proof.
  destruct (dropwhile_split is_space l) as (a & Ea & Ha).
  destruct (dropwhile_split is_space (rev (lstrip l))) as (b & Eb & Hb).
  exists a, (rev b). repeat split; auto.
  - unfold strip, rstrip. rewrite <- rev_app_distr, <- Eb, rev_involutive.
    exact Ea.
  - now apply forallb_rev.
Qed.

Lemma marker_lacks_brace (nm l : str) :
  opening_marker nm l \/ (is_name nm /\ closing_marker nm l) ->
  lacks "{" l.
Proof.
  intros H. destruct (strip_decompose l) as (a & b & E & Ha & Hb).
  rewrite E.
  assert (Hs : lacks "{" (strip l)).
  { destruct H as [(ws & Hws & [_ Hw] & ->) | ([_ Hw] & ws & Hws & ->)];
      unfold open_tag, close_tag; cbn [lit list_ascii_of_string];
      repeat apply lacks_app;
        try (apply (lacks_class is_space); [reflexivity | assumption]);
        try (apply (lacks_class is_word); [reflexivity | assumption]);
        reflexivity. }
  repeat apply lacks_app; auto;
    apply (lacks_class is_space); auto.
Qed.

Lemma inline_of_match_line (line : str) (idx : nat)
    (m : nat * nat * option str) :
  i_line_offset (inline_of_match line idx m) = (Z.of_nat idx + 1)%Z.
Proof. destruct m as [[st en] g]. reflexivity. Qed.

(** X5.  A line that is a display marker (an opening marker, or the
    closing marker of a tag name) holds no inline snippet: the inline scan
    finds no match on it, so no inline record carries its line number.
    More generally a line without the character [{] gives no inline
    record. *)
Theorem X5_marker_line_has_no_inline (lines : list str) (idx : nat)
    (l nm : str) :
  nth_error lines idx = Some l ->
  opening_marker nm l \/ (is_name nm /\ closing_marker nm l) \/ lacks "{" l ->
  finditer inline_pattern l = [] /\
  (forall sn, In sn (parse_inline_snippets lines) ->
              i_line_offset sn <> (Z.of_nat idx + 1)%Z).
Proof.
  intros Hn H.
  assert (Hl : lacks "{" l).
  { destruct H as [H | [H | H]]; auto;
      apply (marker_lacks_brace nm); auto. }
  assert (Hf : finditer inline_pattern l = [])
    by (now apply finditer_lacks).
  split; [exact Hf|].
  intros sn Hsn Hoff. rewrite parse_inline_out in Hsn.
  apply inline_out_in in Hsn as (k & line & m & Hk & Hm & ->).
  rewrite inline_of_match_line in Hoff.
  assert (k = idx) as -> by lia.
  rewrite Hn in Hk. injection Hk as <-.
  rewrite Hf in Hm. contradiction.
Qed.

Lemma X5_marker_line_has_no_inline_witness :
  nth_error c1_lines 4 = Some (lit "-- <foo>") /\
  finditer inline_pattern (lit "-- <foo>") = [] /\
  (forall sn, In sn (parse_inline_snippets c1_lines) ->
              i_line_offset sn <> (Z.of_nat 4 + 1)%Z).
Proof.
  split; [reflexivity|].
  apply (X5_marker_line_has_no_inline c1_lines 4 (lit "-- <foo>") (lit "foo")
           eq_refl).
  left. exists [" "%char]. repeat split; try reflexivity. discriminate.
Defined.

(** ** parse_file: line terminators *)

Lemma rstrip_chars_app (chars l t : str) :
  forallb (fun c => str_mem c chars) t = true ->
  rstrip_chars chars (l ++ t) = rstrip_chars chars l.
Proof.
  intros Ht. unfold rstrip_chars. rewrite rev_app_distr.
  rewrite dropwhile_app_all; auto. now apply forallb_rev.
Qed.

Lemma parse_lines_result (lines : list str) (w : World) :
  parse_lines lines w
  = (map Display (fst (display_out lines 0))
       ++ map Inline (inline_out lines 0),
     add_stderr w (snd (display_out lines 0))).
Proof.
  unfold parse_lines, bind, ret.
  now rewrite parse_display_out, parse_inline_out.
Qed.

(** X6.  [parse_file] reads every line without the carriage returns and
    newlines at its end: two files whose lines differ only in those
    terminators (LF, CRLF, a last line without terminator) give the same
    snippets, with the same line numbers and columns, and the same
    warnings. *)
Theorem X6_terminators_do_not_matter (env env' : Env) (path path' : str)
    (raw raw' : list str) (w : World) :
  readlines env path = ReadLines raw ->
  readlines env' path' = ReadLines raw' ->
  Forall2 terminated raw raw' ->
  parse_file env' path' w = parse_file env path w.
Proof.
  intros Hr Hr' H. unfold parse_file. rewrite Hr, Hr'.
  f_equal. clear Hr Hr'.
  induction H as [|l l' ls ls' (t & Ht & ->) _ IH]; simpl; auto.
  rewrite rstrip_chars_app; auto. now f_equal.
Qed.

Lemma X6_terminators_do_not_matter_witness :
  readlines c5_env_bare (lit "F.idr") = ReadLines c5_bare /\
  readlines c5_env_crlf (lit "F.idr") = ReadLines c5_crlf /\
  Forall2 terminated c5_bare c5_crlf /\
  parse_file c5_env_crlf (lit "F.idr") world0
  = parse_file c5_env_bare (lit "F.idr") world0.
Proof.
  assert (H : Forall2 terminated c5_bare c5_crlf).
  { repeat constructor; (exists [cr; nl]; split; reflexivity). }
  split; [reflexivity|]. split; [reflexivity|]. split; [exact H|].
  exact (X6_terminators_do_not_matter c5_env_bare c5_env_crlf (lit "F.idr")
           (lit "F.idr") c5_bare c5_crlf world0 eq_refl eq_refl H).
Defined.

(** ** From a marker in the file to the parameters of the renderer *)

(** X7.  For a display pair with its opening marker on 0-indexed line [L]
    and [k] content lines, the record of the parser is dispatched with the
    parameters [L + 2] (the 1-indexed number of the first content line),
    [0] and [k - 1].  For a pair without content lines ([k = 0]) the last
    parameter is [-1]. *)
Theorem X7_display_pair_to_command (lines : list str) (L k : nat) (nm : str)
    (src ttm : str) (w : World) :
  display_pair lines L k nm ->
  exists d,
    In d (fst (parse_display_snippets lines w)) /\
    katla_cmd (Display d) src ttm
    = [lit "katla"; lit "latex"; lit "macro"; nm; src; ttm;
       str_of_int (Z.of_nat L + 2); lit "0"; str_of_int (Z.of_nat k - 1)] /\
    (k = 0 -> last (katla_cmd (Display d) src ttm) [] = lit "-1").
Proof.
  intros Hp. exists (mkDisplay nm (Z.of_nat L + 1) (Z.of_nat k)).
  split; [|split].
  - rewrite parse_display_out. simpl. apply display_out_in.
    exists L, k, nm. auto.
  - unfold katla_cmd. cbn [d_name d_line_offset d_line_count].
    replace (Z.of_nat L + 1 + 1)%Z with (Z.of_nat L + 2)%Z by lia.
    reflexivity.
  - intros ->. reflexivity.
Qed.

Lemma adjacent_pair : display_pair adjacent_lines 0 0 (lit "a").
Proof.
  repeat split.
  - eexists. split; [reflexivity|]. exists [" "%char].
    repeat split; try reflexivity. discriminate.
  - eexists. split; [reflexivity|]. exists [" "%char].
    split; reflexivity.
  - intros j l Hj. lia.
Qed.

Lemma X7_display_pair_to_command_witness :
  display_pair adjacent_lines 0 0 (lit "a") /\
  exists d,
    In d (fst (parse_display_snippets adjacent_lines world0)) /\
    katla_cmd (Display d) (lit "F.idr") (lit "F.ttm")
    = [lit "katla"; lit "latex"; lit "macro"; lit "a"; lit "F.idr";
       lit "F.ttm"; str_of_int (Z.of_nat 0 + 2); lit "0";
       str_of_int (Z.of_nat 0 - 1)] /\
    (0 = 0 ->
     last (katla_cmd (Display d) (lit "F.idr") (lit "F.ttm")) [] = lit "-1").
Proof.
  split; [exact adjacent_pair|].
  exact (X7_display_pair_to_command adjacent_lines 0 0 (lit "a")
           (lit "F.idr") (lit "F.ttm") world0 adjacent_pair).
Defined.

(** X8.  A match of the inline pattern on the line with index [idx] reads
    as [pre ++ opener ++ TEXT ++ closer ++ post], where the white space of
    the two markers is white space, the name is a name, [TEXT] has no line
    terminator, the match starts after [pre] and ends with the closer, and
    the group is the name.  The record of the parser for it is dispatched
    with the parameters [0], [idx + 1] (the 1-indexed line), the 1-indexed
    column of the first character of [TEXT] and the 1-indexed column of
    its last character.  For an empty [TEXT] the start column is the end
    column plus one. *)
Theorem X8_inline_match_to_command (lines : list str) (idx : nat) (line : str)
    (m : nat * nat * option str) (src ttm : str) :
  nth_error lines idx = Some line ->
  In m (finditer inline_pattern line) ->
  exists pre ws1 nm ws2 text ws3 ws4 post,
    line = pre ++ inline_open ws1 nm ws2 ++ text
               ++ inline_close ws3 nm ws4 ++ post /\
    forallb is_space ws1 = true /\ forallb is_space ws2 = true /\
    forallb is_space ws3 = true /\ forallb is_space ws4 = true /\
    is_name nm /\ forallb is_dot text = true /\
    m = (length pre,
         length pre + (length (inline_open ws1 nm ws2) + length text
                       + length (inline_close ws3 nm ws4)),
         Some nm) /\
    In (inline_of_match line idx m) (parse_inline_snippets lines) /\
    let first := length pre + length (inline_open ws1 nm ws2) in
    katla_cmd (Inline (inline_of_match line idx m)) src ttm
    = [lit "katla"; lit "latex"; lit "macro"; lit "inline"; nm; src; ttm;
       lit "0"; str_of_int (Z.of_nat idx + 1);
       str_of_int (Z.of_nat first + 1);
       str_of_int (Z.of_nat (first + length text))] /\
    (text = [] ->
     nth 9 (katla_cmd (Inline (inline_of_match line idx m)) src ttm) []
     = str_of_int (Z.of_nat first + 1) /\
     nth 10 (katla_cmd (Inline (inline_of_match line idx m)) src ttm) []
     = str_of_int (Z.of_nat first)).
Proof.
  intros Hn Hm. destruct m as [[st en] g].
  destruct (finditer_inline_shape _ _ _ _ Hm)
    as (pre & ws1 & nm & ws2 & text & ws3 & ws4 & post &
        H1 & H2 & H3 & H4 & Hnm & Htext & Hg & Hline & Hst & Hen).
  exists pre, ws1, nm, ws2, text, ws3, ws4, post.
  split; [exact Hline|].
  split; [exact H1|]. split; [exact H2|]. split; [exact H3|].
  split; [exact H4|]. split; [exact Hnm|]. split; [exact Htext|].
  split; [now rewrite Hst, Hen, Hg|]. split.
  - rewrite parse_inline_out. apply inline_out_in.
    exists idx, line, (st, en, g). auto.
  - assert (E : inline_of_match line idx (st, en, g)
                = mkInline nm (Z.of_nat idx + 1)
                    (Z.of_nat (length pre + length (inline_open ws1 nm ws2)))
                    (Z.of_nat (length pre + length (inline_open ws1 nm ws2)
                               + length text))).
    { subst st en g line. now apply inline_of_match_shape. }
    cbv zeta. rewrite E. unfold katla_cmd.
    cbn [i_name i_line_offset i_column_start_offset i_column_end_offset].
    split; [reflexivity|].
    intros ->. cbn [nth length]. rewrite Nat.add_0_r. auto.
Qed.

Example empty_inline_command :
  katla_cmd (Inline (inline_of_match (lit "x = {- <e> -}{- </e> -}") 0
                       (4, 23, Some (lit "e"))))
            (lit "F.idr") (lit "F.ttm")
  = [lit "katla"; lit "latex"; lit "macro"; lit "inline"; lit "e";
     lit "F.idr"; lit "F.ttm"; lit "0"; lit "1"; lit "14"; lit "13"].
Proof. vm_compute. reflexivity. Qed.

Lemma X8_inline_match_to_command_witness :
  nth_error empty_inline_lines 0 = Some empty_inline_line /\
  In empty_inline_match (finditer inline_pattern empty_inline_line) /\
  exists pre ws1 nm ws2 text ws3 ws4 post,
    empty_inline_line = pre ++ inline_open ws1 nm ws2 ++ text
               ++ inline_close ws3 nm ws4 ++ post /\
    forallb is_space ws1 = true /\ forallb is_space ws2 = true /\
    forallb is_space ws3 = true /\ forallb is_space ws4 = true /\
    is_name nm /\ forallb is_dot text = true /\
    empty_inline_match
    = (length pre,
         length pre + (length (inline_open ws1 nm ws2) + length text
                       + length (inline_close ws3 nm ws4)),
         Some nm) /\
    In (inline_of_match empty_inline_line 0 empty_inline_match)
       (parse_inline_snippets empty_inline_lines) /\
    let first := length pre + length (inline_open ws1 nm ws2) in
    katla_cmd (Inline (inline_of_match empty_inline_line 0
                         empty_inline_match))
              (lit "F.idr") (lit "F.ttm")
    = [lit "katla"; lit "latex"; lit "macro"; lit "inline"; nm;
       lit "F.idr"; lit "F.ttm";
       lit "0"; str_of_int (Z.of_nat 0 + 1);
       str_of_int (Z.of_nat first + 1);
       str_of_int (Z.of_nat (first + length text))] /\
    (text = [] ->
     nth 9 (katla_cmd (Inline (inline_of_match empty_inline_line 0
                                 empty_inline_match))
                      (lit "F.idr") (lit "F.ttm")) []
     = str_of_int (Z.of_nat first + 1) /\
     nth 10 (katla_cmd (Inline (inline_of_match empty_inline_line 0
                                  empty_inline_match))
                       (lit "F.idr") (lit "F.ttm")) []
     = str_of_int (Z.of_nat first)).
Proof.
  assert (Hm : In empty_inline_match
                  (finditer inline_pattern empty_inline_line))
    by (vm_compute; left; reflexivity).
  split; [reflexivity|]. split; [exact Hm|].
  exact (X8_inline_match_to_command empty_inline_lines 0 empty_inline_line
           empty_inline_match (lit "F.idr") (lit "F.ttm") eq_refl Hm).
Defined.

(** ** The command determines the snippet *)

Lemma to_int_proper (z : Z) :
  Z.to_int z <> Decimal.Pos Decimal.Nil /\
  Z.to_int z <> Decimal.Neg Decimal.Nil.
Proof.
  destruct z as [|p|p]; simpl; split; try discriminate;
    intros H; injection H as H;
    now apply DecimalPos.Unsigned.to_uint_nonnil in H.
Qed.

(** [str] of an integer is its decimal writing: two integers with the same
    writing are equal. *)
Lemma str_of_int_inj (a b : Z) : str_of_int a = str_of_int b -> a = b.
Proof.
  unfold str_of_int. intros H.
  apply (f_equal string_of_list_ascii) in H.
  rewrite !string_of_list_ascii_of_string in H.
  apply (f_equal NilZero.int_of_string) in H.
  destruct (to_int_proper a) as [Ha1 Ha2].
  destruct (to_int_proper b) as [Hb1 Hb2].
  rewrite !NilZero.isi in H; auto.
  injection H as H. now apply DecimalZ.to_int_inj.
Qed.

(** X9.  The invocation that the dispatcher builds determines the snippet
    and the two paths: different snippets, or the same snippet for
    different files, never give the same command.  In particular a display
    snippet and an inline snippet never give the same command. *)
Theorem X9_command_determines_snippet (sn sn' : Snippet)
    (src ttm src' ttm' : str) :
  katla_cmd sn src ttm = katla_cmd sn' src' ttm' ->
  sn = sn' /\ src = src' /\ ttm = ttm'.
Proof.
  intros H. destruct sn as [d|i], sn' as [d'|i']; unfold katla_cmd in H.
  - injection H as Hn Hs Ht Ho Hc.
    apply str_of_int_inj in Ho, Hc.
    destruct d as [n o c], d' as [n' o' c']. simpl in *.
    repeat split; auto. f_equal. f_equal; auto; lia.
  - apply (f_equal (@length str)) in H. discriminate H.
  - apply (f_equal (@length str)) in H. discriminate H.
  - injection H as Hn Hs Ht Ho Hcs Hce.
    apply str_of_int_inj in Ho, Hcs, Hce.
    destruct i as [n o cs ce], i' as [n' o' cs' ce']. simpl in *.
    repeat split; auto. f_equal. f_equal; auto; lia.
Qed.

Lemma X9_command_determines_snippet_witness :
  katla_cmd (Display (mkDisplay (lit "a") 1 1)) (lit "F.idr") (lit "F.ttm")
  = katla_cmd (Display (mkDisplay (lit "a") (2 - 1) (0 + 1)))
              (lit "F.idr") (lit "F.ttm") /\
  Display (mkDisplay (lit "a") 1 1)
  = Display (mkDisplay (lit "a") (2 - 1) (0 + 1)) /\
  lit "F.idr" = lit "F.idr" /\ lit "F.ttm" = lit "F.ttm".
Proof.
  split; [reflexivity|].
  exact (X9_command_determines_snippet _ _ _ _ _ _ eq_refl).
Defined.

(** ** The run in normal mode: which commands, which document *)

Lemma collect_fragment (t : Totals) (r : ProcResult) (sn : Snippet) :
  all_macro_content (collect t (output_of r sn))
  = all_macro_content t ++ fragment sn r.
Proof.
  destruct (error_line_is_error sn) as [Et Es].
  destruct r as [rc out err | e]; cbn [output_of fragment].
  - destruct (rc =? 0)%Z; cbn [negb].
    + destruct out as [|c out].
      * unfold collect. cbn. now rewrite app_nil_r.
      * destruct (startswith (c :: out) (lit "% Error")) eqn:E.
        -- now rewrite collect_placeholder.
        -- rewrite collect_success; auto. cbn [all_macro_content].
           rewrite <- app_assoc.
           now destruct (endswith (c :: out) [nl]).
    + now rewrite collect_placeholder.
  - now rewrite collect_placeholder.
Qed.

Lemma parse_file_fst (env : Env) (filepath : str) (w : World) :
  fst (parse_file env filepath w) = fst (parse_file env filepath world0).
Proof.
  unfold parse_file. destruct (readlines env filepath) as [raw | [|] e];
    auto.
  now rewrite !parse_lines_result.
Qed.

Lemma foldM_main_snippet_doc (env : Env) (src ttm : str) (sns : list Snippet) :
  forall t w,
    exists new,
      let (t', w') := foldM (main_snippet env src ttm false) sns t w in
      w_trace w' = w_trace w ++ new /\
      map fst new = map (fun sn => katla_cmd sn src ttm) sns /\
      all_macro_content t'
      = all_macro_content t
        ++ flat_map (fun p => fragment (fst p) (snd p))
                    (combine sns (map snd new)).
Proof.
  induction sns as [|sn sns IH]; intros t w.
  - exists []. simpl. now rewrite !app_nil_r.
  - destruct (main_snippet_normal env src ttm t sn w) as [es E].
    cbn [foldM]. unfold bind at 1. rewrite E.
    match goal with
    | |- context [foldM _ sns ?t1 ?w1] =>
        destruct (IH t1 w1) as [new Hnew];
        destruct (foldM (main_snippet env src ttm false) sns t1 w1)
          as [t' w']
    end.
    destruct Hnew as (Htr & Hcmd & Hdoc). cbn [w_trace] in Htr.
    eexists (_ :: new). split; [|split].
    + rewrite Htr, <- app_assoc. reflexivity.
    + cbn [map fst]. now rewrite Hcmd.
    + rewrite Hdoc, collect_fragment, <- app_assoc. reflexivity.
Qed.

Lemma main_pair_doc (env : Env) (t : Totals) (fp : str * str) (w : World) :
  exists new,
    let (t', w') := main_pair env false t fp w in
    w_trace w' = w_trace w ++ new /\
    map fst new
    = map (fun sn => katla_cmd sn (fst fp) (snd fp))
          (pair_snippets env fp) /\
    all_macro_content t'
    = all_macro_content t
      ++ block (fst fp) (pair_snippets env fp) (map snd new).
Proof.
  destruct fp as [src ttm]. unfold main_pair, pair_snippets. cbn [fst snd].
  destruct (path_exists env src); cbn [negb andb].
  2:{ exists []. unfold bind, eprint, ret. cbn. now rewrite !app_nil_r. }
  destruct (path_exists env ttm); cbn [negb].
  2:{ exists []. unfold bind, eprint, ret. cbn. now rewrite !app_nil_r. }
  unfold bind at 1.
  rewrite <- (parse_file_fst env src w).
  destruct (parse_file_world env src w) as [es Ew].
  destruct (parse_file env src w) as [sns w1]. simpl in Ew. subst w1.
  cbn [fst]. unfold bind.
  match goal with
  | |- context [foldM _ sns ?t1 ?w1] =>
      destruct (foldM_main_snippet_doc env src ttm sns t1 w1) as [new Hnew];
      destruct (foldM (main_snippet env src ttm false) sns t1 w1)
        as [t' w']
  end.
  destruct Hnew as (Htr & Hcmd & Hdoc).
  exists new. unfold ret. split; [exact Htr|]. split; [exact Hcmd|].
  destruct sns as [|sn sns].
  - cbn in *. rewrite Hdoc. now rewrite !app_nil_r.
  - cbn [truthy_list append_content all_macro_content block] in *.
    rewrite Hdoc. cbn [all_macro_content]. now rewrite <- !app_assoc.
Qed.

Lemma foldM_main_pair_doc (env : Env) (pairs : list (str * str)) :
  forall t w,
    exists new,
      let (t', w') := foldM (main_pair env false) pairs t w in
      w_trace w' = w_trace w ++ new /\
      map fst new = commands env pairs /\
      all_macro_content t'
      = all_macro_content t ++ document env pairs (map snd new).
Proof.
  induction pairs as [|fp pairs IH]; intros t w.
  - exists []. simpl. now rewrite !app_nil_r.
  - cbn [foldM]. unfold bind at 1.
    destruct (main_pair_doc env t fp w) as [new1 H1].
    destruct (main_pair env false t fp w) as [t1 w1].
    destruct (IH t1 w1) as [new2 H2].
    destruct (foldM (main_pair env false) pairs t1 w1) as [t2 w2].
    destruct H1 as (Htr1 & Hc1 & Hd1). destruct H2 as (Htr2 & Hc2 & Hd2).
    exists (new1 ++ new2).
    assert (Hlen : length (pair_snippets env fp) = length (map snd new1)).
    { rewrite length_map, <- (length_map fst), Hc1, length_map.
      reflexivity. }
    split; [|split].
    + rewrite Htr2, Htr1, app_assoc. reflexivity.
    + cbn [commands flat_map]. rewrite map_app, Hc1, Hc2. reflexivity.
    + cbn [document]. rewrite map_app, Hlen.
      rewrite firstn_app, Nat.sub_diag, firstn_all, firstn_O, app_nil_r.
      rewrite skipn_app, Nat.sub_diag, skipn_all, skipn_O. cbn [app].
      rewrite Hd2, Hd1, <- app_assoc. reflexivity.
Qed.

(** ** The exit status, over the snippets the run discovers *)

Lemma commands_length (env : Env) (pairs : list (str * str)) :
  length (commands env pairs) = length (flat_map (pair_snippets env) pairs).
Proof.
  induction pairs as [|fp pairs IH]; [reflexivity|].
  cbn [commands flat_map]. fold (commands env pairs).
  now rewrite !length_app, length_map, IH.
Qed.

Lemma main_loop_commands (env : Env) (args : Args) (w : World) :
  dry_run args = false ->
  exists new,
    w_trace (snd (main_loop env args w)) = w_trace w ++ new /\
    map fst new = commands env (file_pairs (files args)).
Proof.
  intros Hdry. unfold main_loop. rewrite Hdry.
  destruct (foldM_main_pair_doc env (file_pairs (files args)) totals0 w)
    as [new Hnew].
  destruct (foldM (main_pair env false) (file_pairs (files args)) totals0 w)
    as [t w1].
  destruct Hnew as (Htr & Hcmd & _). exists new. auto.
Qed.

(** C7.  In normal mode, with an even number of paths, the run invokes the
    renderer once for each snippet that [parse_file] finds in the file
    pairs whose two files exist, in order: the total counter is the number
    of those discovered snippets and the success counter the number of
    their invocations that succeeded.  The exit status is 0 exactly when
    the argument count is even, the combined file could be written, and
    every one of those invocations succeeded; then the success counter
    equals the total counter.  The status is not 0 when an invocation
    failed, when the argument count is odd (nothing is invoked then), and
    when the file could not be written. *)
Theorem C7_exit_status (env : Env) (args : Args) (w : World) :
  dry_run args = false ->
  exists new,
    w_trace (snd (main env args w)) = w_trace w ++ new /\
    (fst (main env args w) = 0%Z <->
     length (files args) mod 2 = 0 /\ mkdir_ok env = true /\
     write_error env = None /\ forallb entry_ok new = true) /\
    (length (files args) mod 2 = 0 ->
     let t := fst (main_loop env args w) in
     let pairs := file_pairs (files args) in
     map fst new = commands env pairs /\
     total_snippets t
     = Z.of_nat (length (flat_map (pair_snippets env) pairs)) /\
     total_snippets t = Z.of_nat (length new) /\
     total_success t = Z.of_nat (length (filter entry_ok new)) /\
     (forallb entry_ok new = true -> total_success t = total_snippets t)) /\
    (forallb entry_ok new = false -> fst (main env args w) <> 0%Z) /\
    (length (files args) mod 2 <> 0 ->
     new = [] /\ fst (main env args w) <> 0%Z) /\
    (mkdir_ok env = false \/ write_error env <> None ->
     fst (main env args w) <> 0%Z).
Proof.
  intros Hdry.
  destruct (main_normal env args w Hdry) as (new & Htr & Hiff & Hc).
  exists new. split; [exact Htr|]. split; [exact Hiff|].
  split; [|split; [|split]].
  - intros Even. destruct (Hc Even) as (Hloop & Hn & Hs).
    destruct (main_loop_commands env args w Hdry) as (new' & Hloop' & Hcmd).
    rewrite Hloop in Hloop'. apply app_inv_head in Hloop'. subst new'.
    cbv zeta. split; [exact Hcmd|]. split; [|split; [exact Hn|split]].
    + rewrite Hn, <- commands_length, <- Hcmd, length_map. reflexivity.
    + exact Hs.
    + intros Hall. apply filter_length_all in Hall.
      rewrite Hs, Hn, Hall. reflexivity.
  - intros Hbad H0. apply Hiff in H0 as (_ & _ & _ & H0). congruence.
  - intros Hodd. split.
    + unfold main in Htr. apply Nat.eqb_neq in Hodd. rewrite Hodd in Htr.
      cbn in Htr. rewrite <- (app_nil_r (w_trace w)) in Htr at 1.
      apply app_inv_head in Htr. auto.
    + intros H0. apply Hiff in H0 as (H0 & _). contradiction.
  - intros [Hm | Hw] H0; apply Hiff in H0 as (_ & H1 & H2 & _); congruence.
Qed.

Lemma C7_exit_status_witness :
  dry_run run_args = false /\
  exists new,
    w_trace (snd (main ok_env run_args world0)) = w_trace world0 ++ new /\
    (fst (main ok_env run_args world0) = 0%Z <->
     length (files run_args) mod 2 = 0 /\ mkdir_ok ok_env = true /\
     write_error ok_env = None /\ forallb entry_ok new = true) /\
    (length (files run_args) mod 2 = 0 ->
     let t := fst (main_loop ok_env run_args world0) in
     let pairs := file_pairs (files run_args) in
     map fst new = commands ok_env pairs /\
     total_snippets t
     = Z.of_nat (length (flat_map (pair_snippets ok_env) pairs)) /\
     total_snippets t = Z.of_nat (length new) /\
     total_success t = Z.of_nat (length (filter entry_ok new)) /\
     (forallb entry_ok new = true -> total_success t = total_snippets t)) /\
    (forallb entry_ok new = false ->
     fst (main ok_env run_args world0) <> 0%Z) /\
    (length (files run_args) mod 2 <> 0 ->
     new = [] /\ fst (main ok_env run_args world0) <> 0%Z) /\
    (mkdir_ok ok_env = false \/ write_error ok_env <> None ->
     fst (main ok_env run_args world0) <> 0%Z).
Proof.
  split; [reflexivity|].
  exact (C7_exit_status ok_env run_args world0 eq_refl).
Defined.

(** ** The run in normal mode: the combined document *)

Lemma main_finish_world (env : Env) (args : Args) (t : Totals) (w : World) :
  w_trace (snd (main_finish env args t w)) = w_trace w /\
  w_file (snd (main_finish env args t w))
  = (if negb (dry_run args) && mkdir_ok env
     then match write_error env with
          | None => Some (all_macro_content t)
          | Some _ => w_file w
          end
     else w_file w).
Proof.
  unfold main_finish. destruct (dry_run args); cbn [negb andb]; auto.
  destruct (mkdir_ok env); cbn [negb]; auto.
  destruct (write_error env) as [e|]; auto.
  unfold bind, write_output, ret.
  destruct (total_success t <? total_snippets t)%Z; auto.
Qed.

(** X11.  In normal mode the renderer is invoked for the snippets of each
    file pair whose two files exist, pair after pair in the order of the
    arguments and, within a pair, in the order of the list of [parse_file]
    (display records, then inline records); a pair with a missing file, or
    an unreadable source, gives no invocation and does not stop the later
    pairs.  With an odd number of paths nothing is invoked. *)
Theorem X11_commands_in_order (env : Env) (args : Args) (w : World) :
  dry_run args = false ->
  exists new,
    w_trace (snd (main env args w)) = w_trace w ++ new /\
    map fst new
    = (if length (files args) mod 2 =? 0
       then commands env (file_pairs (files args))
       else []).
Proof.
  intros Hdry. unfold main.
  destruct (length (files args) mod 2 =? 0); cbn [negb].
  - unfold bind, main_loop. rewrite Hdry.
    destruct (foldM_main_pair_doc env (file_pairs (files args)) totals0 w)
      as [new Hnew].
    destruct (foldM (main_pair env false) (file_pairs (files args)) totals0 w)
      as [t w1].
    destruct Hnew as (Htr & Hcmd & _). exists new.
    destruct (main_finish_world env args t w1) as [Hft _].
    rewrite Hft. auto.
  - exists []. unfold bind, eprint, ret. cbn. now rewrite app_nil_r.
Qed.

Lemma X11_commands_in_order_witness :
  dry_run run_args = false /\
  exists new,
    w_trace (snd (main ok_env run_args world0)) = w_trace world0 ++ new /\
    map fst new
    = (if length (files run_args) mod 2 =? 0
       then commands ok_env (file_pairs (files run_args))
       else []).
Proof.
  split; [reflexivity|].
  exact (X11_commands_in_order ok_env run_args world0 eq_refl).
Defined.

Example ok_run_commands :
  map fst (w_trace (snd (main ok_env run_args world0)))
  = map (fun ps => map lit ps)
      [["katla"; "latex"; "macro"; "a"; "F.idr"; "F.ttm"; "2"; "0"; "1"];
       ["katla"; "latex"; "macro"; "b"; "F.idr"; "F.ttm"; "4"; "0"; "1"];
       ["katla"; "latex"; "macro"; "inline"; "x"; "F.idr"; "F.ttm"; "0"; "2";
        "12"; "12"];
       ["katla"; "latex"; "macro"; "inline"; "y"; "F.idr"; "F.ttm"; "0"; "2";
        "31"; "31"];
       ["katla"; "latex"; "macro"; "inline"; "z"; "F.idr"; "F.ttm"; "0"; "5";
        "12"; "12"]]%string.
Proof. vm_compute. reflexivity. Qed.

(** X12.  In normal mode, with an even number of paths, the combined
    document is the two header lines followed, for each file pair in order,
    by the block of that pair: nothing when the pair gives no snippet,
    otherwise the comment line that names the source file, the fragment of
    each invocation in order (the output, with a newline added when it is
    missing; the output as it is when it begins with [% Error]; nothing for
    an empty output; the placeholder for a failed process) and an empty
    line.  That document is written whenever the directory and the file can
    be written, also when some invocations failed; otherwise no file is
    written. *)
Theorem X12_combined_document (env : Env) (args : Args) (w : World) :
  dry_run args = false ->
  length (files args) mod 2 = 0 ->
  exists new,
    w_trace (snd (main env args w)) = w_trace w ++ new /\
    let doc := header ++ document env (file_pairs (files args)) (map snd new) in
    all_macro_content (fst (main_loop env args w)) = doc /\
    w_file (snd (main env args w))
    = (if mkdir_ok env
       then match write_error env with
            | None => Some doc
            | Some _ => w_file w
            end
       else w_file w).
Proof.
  intros Hdry Even. unfold main.
  apply Nat.eqb_eq in Even. rewrite Even. cbn [negb].
  unfold bind, main_loop. rewrite Hdry.
  destruct (foldM_main_pair_doc env (file_pairs (files args)) totals0 w)
    as [new Hnew].
  destruct (foldM_main_pair env (file_pairs (files args)) totals0 w)
    as [new' Hnew'].
  destruct (foldM (main_pair env false) (file_pairs (files args)) totals0 w)
    as [t w1].
  destruct Hnew as (Htr & _ & Hdoc).
  destruct Hnew' as ((_ & Hf & _) & _).
  exists new.
  destruct (main_finish_world env args t w1) as [Hft Hff].
  rewrite Hft, Hff, Hdry, Hf. cbn [negb andb fst].
  change (all_macro_content totals0) with header in Hdoc.
  rewrite Hdoc. auto.
Qed.

Lemma X12_combined_document_witness :
  dry_run run_args = false /\ length (files run_args) mod 2 = 0 /\
  exists new,
    w_trace (snd (main error_text_env run_args world0))
    = w_trace world0 ++ new /\
    let doc := header ++ document error_text_env (file_pairs (files run_args))
                                  (map snd new) in
    all_macro_content (fst (main_loop error_text_env run_args world0)) = doc /\
    w_file (snd (main error_text_env run_args world0))
    = (if mkdir_ok error_text_env
       then match write_error error_text_env with
            | None => Some doc
            | Some _ => w_file world0
            end
       else w_file world0).
Proof.
  split; [reflexivity|]. split; [reflexivity|].
  exact (X12_combined_document error_text_env run_args world0
           eq_refl eq_refl).
Defined.

(** ** The dry run *)

Lemma main_pair_dry (env : Env) (t : Totals) (fp : str * str) (w : World) :
  let (t', w') := main_pair env true t fp w in
  w_trace w' = w_trace w /\ w_file w' = w_file w /\
  total_success t' = total_success t /\
  all_macro_content t' = all_macro_content t /\
  total_snippets t'
  = (total_snippets t + Z.of_nat (length (discovered env [fp])))%Z.
Proof.
  destruct fp as [src ttm]. unfold main_pair, discovered.
  cbn [flat_map fst]. rewrite app_nil_r.
  destruct (path_exists env src); cbn [negb andb].
  2:{ unfold bind, eprint, ret. cbn. repeat split; auto; lia. }
  unfold bind at 1. rewrite <- (parse_file_fst env src w).
  destruct (parse_file_world env src w) as [es Ew].
  destruct (parse_file env src w) as [sns w1]. simpl in Ew. subst w1.
  cbn [fst].
  destruct (readlines env src); unfold bind, eprint, ret; cbn; auto.
Qed.

Lemma foldM_main_pair_dry (env : Env) (pairs : list (str * str)) :
  forall t w,
    let (t', w') := foldM (main_pair env true) pairs t w in
    w_trace w' = w_trace w /\ w_file w' = w_file w /\
    total_success t' = total_success t /\
    all_macro_content t' = all_macro_content t /\
    total_snippets t'
    = (total_snippets t + Z.of_nat (length (discovered env pairs)))%Z.
Proof.
  induction pairs as [|fp pairs IH]; intros t w.
  - simpl. repeat split; auto; lia.
  - cbn [foldM]. unfold bind at 1.
    pose proof (main_pair_dry env t fp w) as H1.
    destruct (main_pair env true t fp w) as [t1 w1].
    specialize (IH t1 w1).
    destruct (foldM (main_pair env true) pairs t1 w1) as [t2 w2].
    destruct H1 as (A1 & B1 & C1 & D1 & E1).
    destruct IH as (A2 & B2 & C2 & D2 & E2).
    repeat split; try congruence.
    rewrite E2, E1. unfold discovered. cbn [flat_map].
    rewrite app_nil_r, length_app. lia.
Qed.

(** X10.  A dry run invokes no renderer and writes no file.  With an even
    number of paths it exits with status 0 whatever the files hold; it
    counts the snippets of every source file that exists, without looking
    for the metadata file, counts no success and adds nothing to the
    document after its header.  With an odd number of paths it exits with
    status 1. *)
Theorem X10_dry_run_does_nothing (env : Env) (args : Args) (w : World) :
  dry_run args = true ->
  w_trace (snd (main env args w)) = w_trace w /\
  w_file (snd (main env args w)) = w_file w /\
  (length (files args) mod 2 <> 0 -> fst (main env args w) = 1%Z) /\
  (length (files args) mod 2 = 0 ->
   fst (main env args w) = 0%Z /\
   let t := fst (main_loop env args w) in
   total_success t = 0%Z /\
   total_snippets t
   = Z.of_nat (length (discovered env (file_pairs (files args)))) /\
   all_macro_content t = header).
Proof.
  intros Hdry. unfold main.
  destruct (length (files args) mod 2 =? 0) eqn:Even; cbn [negb].
  - apply Nat.eqb_eq in Even. unfold bind, main_loop. rewrite Hdry.
    pose proof (foldM_main_pair_dry env (file_pairs (files args)) totals0 w)
      as H.
    destruct (foldM (main_pair env true) (file_pairs (files args)) totals0 w)
      as [t w1].
    destruct H as (A & B & C & D & E).
    unfold main_finish. rewrite Hdry. cbn [negb ret fst snd].
    repeat split; auto; try contradiction; try (rewrite E; reflexivity).
  - apply Nat.eqb_neq in Even. unfold bind, eprint, ret.
    cbn [fst snd w_trace w_file].
    repeat split; auto; contradiction.
Qed.

Example dry_run_counts :
  main no_ttm_env dry_args world0 = (0%Z, world0) /\
  total_snippets (fst (main_loop no_ttm_env dry_args world0)) = 5%Z /\
  total_snippets (fst (main_loop no_ttm_env run_args world0)) = 0%Z.
Proof. vm_compute. repeat split; reflexivity. Qed.

Lemma X10_dry_run_does_nothing_witness :
  dry_run dry_args = true /\
  w_trace (snd (main no_ttm_env dry_args world0)) = w_trace world0 /\
  w_file (snd (main no_ttm_env dry_args world0)) = w_file world0 /\
  (length (files dry_args) mod 2 <> 0 ->
   fst (main no_ttm_env dry_args world0) = 1%Z) /\
  (length (files dry_args) mod 2 = 0 ->
   fst (main no_ttm_env dry_args world0) = 0%Z /\
   let t := fst (main_loop no_ttm_env dry_args world0) in
   total_success t = 0%Z /\
   total_snippets t
   = Z.of_nat (length (discovered no_ttm_env (file_pairs (files dry_args)))) /\
   all_macro_content t = header).
Proof.
  split; [reflexivity|].
  exact (X10_dry_run_does_nothing no_ttm_env dry_args world0 eq_refl).
Defined.

(** ** The counters and the exit status *)

(** X13.  Whatever the mode and the arguments, the exit status of [main]
    is 0 or 1, and after the loop the success counter lies between 0 and
    the total counter.  With an odd number of paths the status is 1 and
    [main] has done nothing but print one line to standard error. *)
Theorem X13_counters_and_status (env : Env) (args : Args) (w : World) :
  (fst (main env args w) = 0%Z \/ fst (main env args w) = 1%Z) /\
  (0 <= total_success (fst (main_loop env args w))
     <= total_snippets (fst (main_loop env args w)))%Z /\
  (length (files args) mod 2 <> 0 ->
   exists msg, main env args w = (1%Z, add_stderr w [msg])).
Proof.
  split; [|split].
  - unfold main. destruct (length (files args) mod 2 =? 0); cbn [negb].
    + unfold bind. destruct (main_loop env args w) as [t w1].
      unfold main_finish.
      destruct (dry_run args); cbn [negb]; [left; reflexivity|].
      destruct (mkdir_ok env); cbn [negb]; [|right; reflexivity].
      destruct (write_error env); [right; reflexivity|].
      unfold bind, write_output, ret.
      destruct (total_success t <? total_snippets t)%Z; auto.
    + right. reflexivity.
  - unfold main_loop. destruct (dry_run args).
    + pose proof (foldM_main_pair_dry env (file_pairs (files args)) totals0 w)
        as H.
      destruct (foldM (main_pair env true) _ totals0 w) as [t w1].
      destruct H as (_ & _ & C & _ & E). cbn [fst].
      rewrite C, E. cbn. lia.
    + destruct (foldM_main_pair env (file_pairs (files args)) totals0 w)
        as [new H].
      destruct (foldM (main_pair env false) _ totals0 w) as [t w1].
      destruct H as ((_ & _ & Hs) & Hn). cbn [fst].
      pose proof (filter_length_le entry_ok new). rewrite Hs, Hn. cbn. lia.
  - intros Hodd. apply Nat.eqb_neq in Hodd. unfold main. rewrite Hodd.
    cbn [negb]. eexists. reflexivity.
Qed.

(** ** The file pairs *)

Lemma file_pairs_even (n : nat) :
  forall l : list str,
    length l = 2 * n ->
    flat_map (fun fp => [fst fp; snd fp]) (file_pairs l) = l /\
    length (file_pairs l) = n.
Proof.
  induction n as [|n IH]; intros l Hl.
  - destruct l; [auto | discriminate].
  - destruct l as [|a [|b l]]; try (simpl in Hl; lia).
    destruct (IH l ltac:(simpl in Hl; lia)) as [E1 E2].
    cbn [file_pairs flat_map fst snd app length]. now rewrite E1, E2.
Qed.

(** X14.  With an even number of paths every path is used exactly once:
    the pairs, read in order as source then metadata, are the argument
    list again, and there are half as many pairs as paths. *)
Theorem X14_file_pairs_round_trip (l : list str) :
  length l mod 2 = 0 ->
  flat_map (fun fp => [fst fp; snd fp]) (file_pairs l) = l /\
  2 * length (file_pairs l) = length l.
Proof.
  intros Even. pose proof (Nat.div_mod_eq (length l) 2) as H.
  destruct (file_pairs_even (length l / 2) l ltac:(lia)) as [E1 E2].
  split; [exact E1 | lia].
Qed.

Lemma X14_file_pairs_round_trip_witness :
  length four_paths mod 2 = 0 /\
  flat_map (fun fp => [fst fp; snd fp]) (file_pairs four_paths) = four_paths /\
  2 * length (file_pairs four_paths) = length four_paths.
Proof.
  split; [reflexivity|].
  exact (X14_file_pairs_round_trip four_paths eq_refl).
Defined.

(** ** The debug printer on the snippets of the file *)

Lemma py_index_nat {A : Type} (xs : list A) (i : nat) :
  i < length xs -> py_index xs (Z.of_nat i) = nth_error xs i.
Proof.
  intros Hi. unfold py_index.
  assert ((Z.of_nat i <? 0)%Z = false) as -> by (apply Z.ltb_ge; lia).
  assert ((0 <=? Z.of_nat i)%Z = true) as -> by (apply Z.leb_le; lia).
  assert ((Z.of_nat i <? Z.of_nat (length xs))%Z = true) as ->
    by (apply Z.ltb_lt; lia).
  cbn [andb]. now rewrite Nat2Z.id.
Qed.

Lemma skipn_nth_error {A : Type} (xs : list A) (i : nat) (x : A) :
  nth_error xs i = Some x -> skipn i xs = x :: skipn (S i) xs.
Proof.
  revert i. induction xs as [|y xs IH]; intros [|i] H; try discriminate.
  - injection H as ->. reflexivity.
  - simpl in H. apply IH in H. exact H.
Qed.

Lemma debug_content_range (lines : list str) (k : nat) :
  forall s,
    s + k <= length lines ->
    debug_content lines (range_from (Z.of_nat s) k)
    = (map debug_line (combine (seq s k) (firstn k (skipn s lines))), None).
Proof.
  induction k as [|k IH]; intros s Hs; [reflexivity|].
  cbn [range_from debug_content].
  rewrite py_index_nat by lia.
  destruct (nth_error lines s) as [l|] eqn:El.
  2:{ apply nth_error_None in El. lia. }
  replace (Z.of_nat s + 1)%Z with (Z.of_nat (S s)) at 1 by lia.
  rewrite IH by lia.
  rewrite (skipn_nth_error _ _ _ El). cbn [firstn seq combine map].
  reflexivity.
Qed.

(** X15.  For a display record of the parser, on the lines it was parsed
    from, the debug printer prints its five heading lines, then the
    content lines of the pair, which are the [line_count] lines strictly
    between the two markers, each with its 1-indexed number, then an empty
    line; it raises no IndexError. *)
Theorem X15_debug_display_content (lines : list str) (w : World)
    (d : DisplaySnippet) (src : str) :
  In d (fst (parse_display_snippets lines w)) ->
  exists L k,
    display_pair lines L k (d_name d) /\
    length (firstn k (skipn (L + 1) lines)) = k /\
    print_snippet_debug (Display d) src lines
    = ([lit "Snippet: " ++ d_name d ++ lit " (display)";
        lit "  File: " ++ src;
        lit "  Line offset: " ++ str_of_int (Z.of_nat L + 1);
        lit "  Line count: " ++ str_of_int (Z.of_nat k);
        lit "  Content:"]
       ++ map debug_line
              (combine (seq (L + 1) k) (firstn k (skipn (L + 1) lines)))
       ++ [[]],
       None).
Proof.
  rewrite parse_display_out. cbn [fst]. intros Hd.
  apply display_out_in in Hd as (L & k & nm & Hp & ->).
  exists L, k. split; [exact Hp|].
  destruct Hp as (_ & (lc & Hlc & _) & _).
  assert (Hlen : L + k + 1 < length lines).
  { apply nth_error_Some. rewrite Hlc. discriminate. }
  split; [rewrite length_firstn, length_skipn; lia|].
  unfold print_snippet_debug.
  cbn [d_line_offset d_line_count d_name name kind kind_str].
  replace (Z.min (Z.of_nat (0 + L) + 1 + Z.of_nat k) (Z.of_nat (length lines)))
    with (Z.of_nat (0 + L) + 1 + Z.of_nat k)%Z by lia.
  unfold py_range.
  replace (Z.to_nat (Z.of_nat (0 + L) + 1 + Z.of_nat k
                     - (Z.of_nat (0 + L) + 1))) with k by lia.
  replace (Z.of_nat (0 + L) + 1)%Z with (Z.of_nat (L + 1)) by lia.
  rewrite debug_content_range by lia.
  replace (Z.of_nat (L + 1)) with (Z.of_nat L + 1)%Z by lia.
  reflexivity.
Qed.

Lemma X15_debug_display_content_witness :
  In (mkDisplay (lit "foo") 5 2)
     (fst (parse_display_snippets c1_lines world0)) /\
  exists L k,
    display_pair c1_lines L k (lit "foo") /\
    length (firstn k (skipn (L + 1) c1_lines)) = k /\
    print_snippet_debug (Display (mkDisplay (lit "foo") 5 2)) (lit "F.idr")
                        c1_lines
    = ([lit "Snippet: " ++ lit "foo" ++ lit " (display)";
        lit "  File: " ++ lit "F.idr";
        lit "  Line offset: " ++ str_of_int (Z.of_nat L + 1);
        lit "  Line count: " ++ str_of_int (Z.of_nat k);
        lit "  Content:"]
       ++ map debug_line
              (combine (seq (L + 1) k) (firstn k (skipn (L + 1) c1_lines)))
       ++ [[]],
       None).
Proof.
  assert (H : In (mkDisplay (lit "foo") 5 2)
                 (fst (parse_display_snippets c1_lines world0)))
    by (vm_compute; left; reflexivity).
  split; [exact H|].
  exact (X15_debug_display_content c1_lines world0 _ (lit "F.idr") H).
Defined.

Example debug_display_run :
  print_snippet_debug (Display (mkDisplay (lit "foo") 5 2)) (lit "F.idr")
                      c1_lines
  = (map lit ["Snippet: foo (display)"; "  File: F.idr"; "  Line offset: 5";
              "  Line count: 2"; "  Content:"; "    6: x"; "    7: y"; ""]%string,
     None).
Proof. vm_compute. reflexivity. Qed.

Lemma py_slice_nat (x : str) (a b : nat) :
  a <= length x -> b <= length x ->
  py_slice x (Z.of_nat a) (Z.of_nat b) = slice x a b.
Proof.
  intros Ha Hb. unfold py_slice.
  assert ((Z.of_nat a <? 0)%Z = false) as -> by (apply Z.ltb_ge; lia).
  assert ((Z.of_nat b <? 0)%Z = false) as -> by (apply Z.ltb_ge; lia).
  rewrite !Z.min_l by lia. now rewrite !Nat2Z.id.
Qed.

(** X16.  A match of the inline pattern on the line with index [idx] reads
    as [pre ++ opener ++ TEXT ++ closer ++ post], where the white space of
    the two markers is white space, the name is a name, [TEXT] has no line
    terminator, the match starts after [pre] and ends with the closer, and
    the group is the name.  For the record of the parser for it, on the
    lines it was parsed from, the debug printer finds the line of the
    record and prints, after its five heading lines, that line and,
    between quotes, exactly [TEXT], then an empty line; it raises no
    IndexError. *)
Theorem X16_debug_inline_content (lines : list str) (idx : nat) (line : str)
    (m : nat * nat * option str) (src : str) :
  nth_error lines idx = Some line ->
  In m (finditer inline_pattern line) ->
  exists pre ws1 nm ws2 text ws3 ws4 post,
    line = pre ++ inline_open ws1 nm ws2 ++ text
               ++ inline_close ws3 nm ws4 ++ post /\
    forallb is_space ws1 = true /\ forallb is_space ws2 = true /\
    forallb is_space ws3 = true /\ forallb is_space ws4 = true /\
    is_name nm /\ forallb is_dot text = true /\
    m = (length pre,
         length pre + (length (inline_open ws1 nm ws2) + length text
                       + length (inline_close ws3 nm ws4)),
         Some nm) /\
    let first := length pre + length (inline_open ws1 nm ws2) in
    print_snippet_debug (Inline (inline_of_match line idx m)) src lines
    = ([lit "Snippet: " ++ nm ++ lit " (inline)";
        lit "  File: " ++ src;
        lit "  Line offset: " ++ str_of_int (Z.of_nat idx + 1);
        lit "  Column start: " ++ str_of_int (Z.of_nat first);
        lit "  Column end: " ++ str_of_int (Z.of_nat (first + length text));
        lit "  Line content: " ++ line;
        lit "  Snippet content: '" ++ text ++ lit "'";
        []],
       None).
Proof.
  intros Hn Hm. destruct m as [[st en] g].
  destruct (finditer_inline_shape _ _ _ _ Hm)
    as (pre & ws1 & nm & ws2 & text & ws3 & ws4 & post &
        H1 & H2 & H3 & H4 & Hnm & Htext & Hg & Hline & Hst & Hen).
  exists pre, ws1, nm, ws2, text, ws3, ws4, post.
  split; [exact Hline|].
  split; [exact H1|]. split; [exact H2|]. split; [exact H3|].
  split; [exact H4|]. split; [exact Hnm|]. split; [exact Htext|].
  split; [now rewrite Hst, Hen, Hg|]. cbv zeta.
  assert (E : inline_of_match line idx (st, en, g)
              = mkInline nm (Z.of_nat idx + 1)
                  (Z.of_nat (length pre + length (inline_open ws1 nm ws2)))
                  (Z.of_nat (length pre + length (inline_open ws1 nm ws2)
                             + length text))).
  { subst st en g line. now apply inline_of_match_shape. }
  rewrite E. unfold print_snippet_debug.
  cbn [i_name i_line_offset i_column_start_offset i_column_end_offset
       name kind kind_str].
  replace (Z.of_nat idx + 1 - 1)%Z with (Z.of_nat idx) by lia.
  rewrite py_index_nat by (apply nth_error_Some; rewrite Hn; discriminate).
  rewrite Hn.
  assert (Hs : py_slice line
                 (Z.of_nat (length pre + length (inline_open ws1 nm ws2)))
                 (Z.of_nat (length pre + length (inline_open ws1 nm ws2)
                            + length text)) = text).
  { rewrite py_slice_nat by (rewrite Hline, !length_app; lia).
    rewrite Hline.
    replace (pre ++ inline_open ws1 nm ws2 ++ text
                 ++ inline_close ws3 nm ws4 ++ post)
      with ((pre ++ inline_open ws1 nm ws2) ++ text
                 ++ inline_close ws3 nm ws4 ++ post)
      by now rewrite <- app_assoc.
    rewrite <- length_app. apply slice_app. }
  rewrite Hs. reflexivity.
Qed.

Lemma X16_debug_inline_content_witness :
  nth_error empty_inline_lines 0 = Some empty_inline_line /\
  In empty_inline_match (finditer inline_pattern empty_inline_line) /\
  exists pre ws1 nm ws2 text ws3 ws4 post,
    empty_inline_line = pre ++ inline_open ws1 nm ws2 ++ text
                            ++ inline_close ws3 nm ws4 ++ post /\
    forallb is_space ws1 = true /\ forallb is_space ws2 = true /\
    forallb is_space ws3 = true /\ forallb is_space ws4 = true /\
    is_name nm /\ forallb is_dot text = true /\
    empty_inline_match
    = (length pre,
         length pre + (length (inline_open ws1 nm ws2) + length text
                       + length (inline_close ws3 nm ws4)),
         Some nm) /\
    let first := length pre + length (inline_open ws1 nm ws2) in
    print_snippet_debug
      (Inline (inline_of_match empty_inline_line 0 empty_inline_match))
      (lit "F.idr") empty_inline_lines
    = ([lit "Snippet: " ++ nm ++ lit " (inline)";
        lit "  File: " ++ lit "F.idr";
        lit "  Line offset: " ++ str_of_int (Z.of_nat 0 + 1);
        lit "  Column start: " ++ str_of_int (Z.of_nat first);
        lit "  Column end: " ++ str_of_int (Z.of_nat (first + length text));
        lit "  Line content: " ++ empty_inline_line;
        lit "  Snippet content: '" ++ text ++ lit "'";
        []],
       None).
Proof.
  assert (Hm : In empty_inline_match
                  (finditer inline_pattern empty_inline_line))
    by (vm_compute; left; reflexivity).
  split; [reflexivity|]. split; [exact Hm|].
  exact (X16_debug_inline_content empty_inline_lines 0 empty_inline_line
           empty_inline_match (lit "F.idr") eq_refl Hm).
Defined.

Example debug_inline_run :
  print_snippet_debug (Inline (mkInline (lit "bar") 3 11 14)) (lit "F.idr")
                      c3_lines
  = (map lit ["Snippet: bar (inline)"; "  File: F.idr"; "  Line offset: 3";
              "  Column start: 11"; "  Column end: 14";
              "  Line content: {- <bar> -}xyz{- </bar> -}";
              "  Snippet content: 'xyz'"; ""]%string,
     None).
Proof. vm_compute. reflexivity. Qed.

(** ** The debug printer on any snippet *)

Lemma debug_content_ok (lines : list str) (k : nat) :
  forall s,
    s + k <= length lines ->
    snd (debug_content lines (range_from (Z.of_nat s) k)) = None /\
    length (fst (debug_content lines (range_from (Z.of_nat s) k))) = k.
Proof.
  intros s Hs. rewrite debug_content_range by exact Hs. cbn [fst snd].
  split; [reflexivity|].
  rewrite length_map, length_combine, length_seq, length_firstn, length_skipn.
  lia.
Qed.

Lemma py_index_none {A : Type} (xs : list A) (i : Z) :
  py_index xs i = None <->
  ~ (- Z.of_nat (length xs) <= i < Z.of_nat (length xs))%Z.
Proof.
  unfold py_index.
  destruct (i <? 0)%Z eqn:Eneg;
    [apply Z.ltb_lt in Eneg | apply Z.ltb_ge in Eneg].
  - destruct ((0 <=? i + Z.of_nat (length xs))%Z) eqn:E1;
      [apply Z.leb_le in E1 | apply Z.leb_gt in E1]; cbn [andb].
    + assert ((i + Z.of_nat (length xs) <? Z.of_nat (length xs))%Z = true)
        as -> by (apply Z.ltb_lt; lia).
      split; [|lia]. intros H. apply nth_error_None in H. lia.
    + split; [lia | reflexivity].
  - assert ((0 <=? i)%Z = true) as -> by (apply Z.leb_le; lia).
    destruct (i <? Z.of_nat (length xs))%Z eqn:E2;
      [apply Z.ltb_lt in E2 | apply Z.ltb_ge in E2]; cbn [andb].
    + split; [|lia]. intros H. apply nth_error_None in H. lia.
    + split; [lia | reflexivity].
Qed.

(** X17.  On a snippet that does not fit the lines (a file that changed
    since it was parsed), the debug printer treats the two kinds
    differently.  For a display snippet with [line_offset >= 0] it raises
    nothing: it prints the content lines that exist, up to the end of the
    file, so fewer than [line_count] when the file is too short.  For an
    inline snippet it raises an IndexError exactly when [line_offset - 1]
    is no index of the file, counting a negative index from the end as
    Python does; the five heading lines are printed before. *)
Theorem X17_debug_out_of_range (src : str) (lines : list str) :
  (forall d,
      (0 <= d_line_offset d)%Z ->
      snd (print_snippet_debug (Display d) src lines) = None /\
      length (fst (print_snippet_debug (Display d) src lines))
      = 6 + Z.to_nat (Z.min (d_line_offset d + d_line_count d)
                            (Z.of_nat (length lines))
                      - d_line_offset d)) /\
  (forall i,
      (snd (print_snippet_debug (Inline i) src lines) = Some index_error <->
       ~ (- Z.of_nat (length lines) <= i_line_offset i - 1
          < Z.of_nat (length lines))%Z) /\
      (snd (print_snippet_debug (Inline i) src lines) = Some index_error ->
       length (fst (print_snippet_debug (Inline i) src lines)) = 5)).
Proof.
  split.
  - intros d Hd. unfold print_snippet_debug, py_range.
    set (lo := d_line_offset d) in *.
    set (hi := Z.min (lo + d_line_count d) (Z.of_nat (length lines))).
    destruct (Z.to_nat (hi - lo)) as [|k'] eqn:Ek.
    + cbn [range_from debug_content]. cbn [fst snd].
      split; [reflexivity|]. rewrite !length_app. reflexivity.
    + assert (Hfit : Z.to_nat lo + S k' <= length lines) by lia.
      destruct (debug_content_ok lines (S k') (Z.to_nat lo) Hfit)
        as [Hnone Hlen].
      rewrite Z2Nat.id in Hnone, Hlen by lia.
      destruct (debug_content lines (range_from lo (S k'))) as [content e].
      cbn [fst snd] in *. subst e. cbn [fst snd].
      split; [reflexivity|]. rewrite !length_app, Hlen. cbn [length]. lia.
  - intros i. unfold print_snippet_debug.
    pose proof (py_index_none lines (i_line_offset i - 1)) as Hnone.
    destruct (py_index lines (i_line_offset i - 1)) as [l|]; cbn [fst snd].
    + split.
      * split; [discriminate|]. intros H. apply Hnone in H. discriminate.
      * discriminate.
    + split.
      * split; [intros _; now apply Hnone | reflexivity].
      * intros _. reflexivity.
Qed.

Example debug_stale_run :
  snd (print_snippet_debug (Display (mkDisplay (lit "a") 2 5)) (lit "F.idr")
                           c4_lines) = None /\
  length (fst (print_snippet_debug (Display (mkDisplay (lit "a") 2 5))
                                   (lit "F.idr") c4_lines)) = 7 /\
  snd (print_snippet_debug (Inline (mkInline (lit "a") 4 7 9)) (lit "F.idr")
                           c4_lines) = Some index_error /\
  snd (print_snippet_debug (Inline (mkInline (lit "a") 0 7 9)) (lit "F.idr")
                           c4_lines) = None.
Proof. vm_compute. repeat split; reflexivity. Qed.

(** ** The parsers on a longer file *)

Lemma inline_out_shift (rest : list str) (n : nat) :
  forall idx,
    inline_out rest (idx + n) = map (shift_lines n) (inline_out rest idx).
Proof.
  induction rest as [|line rest IH]; intros idx; [reflexivity|].
  cbn [inline_out]. rewrite map_app, map_map.
  change (S (idx + n)) with (S idx + n). rewrite IH. f_equal.
  apply map_ext. intros [[st en] g]. unfold inline_of_match, shift_lines.
  cbn [i_name i_line_offset i_column_start_offset i_column_end_offset].
  f_equal. lia.
Qed.

Lemma inline_out_app (a b : list str) :
  forall idx,
    inline_out (a ++ b) idx = inline_out a idx ++ inline_out b (idx + length a).
Proof.
  induction a as [|line a IH]; intros idx; cbn [app inline_out length].
  - now rewrite Nat.add_0_r.
  - rewrite IH, <- app_assoc. do 3 f_equal. lia.
Qed.

(** X18.  The inline parser works line by line: the records of two files
    put one after the other are the records of the first, followed by the
    records of the second with their line numbers moved down by the length
    of the first; names and columns are unchanged. *)
Theorem X18_inline_line_local (a b : list str) :
  parse_inline_snippets (a ++ b)
  = parse_inline_snippets a
    ++ map (shift_lines (length a)) (parse_inline_snippets b).
Proof.
  rewrite !parse_inline_out, inline_out_app.
  now rewrite (inline_out_shift b (length a) 0).
Qed.

(** X19.  Lines added at the end of a file take no display record away:
    every record of the file is a record of the longer file, with the same
    name, offset and count.  (A warning of the file can become a record of
    the longer file, when the added lines close the marker.) *)
Theorem X19_display_records_kept (lines more : list str) (w : World)
    (d : DisplaySnippet) :
  In d (fst (parse_display_snippets lines w)) ->
  In d (fst (parse_display_snippets (lines ++ more) w)).
Proof.
  rewrite !parse_display_out. cbn [fst]. intros Hd.
  apply display_out_in in Hd as (L & k & nm & Hp & ->).
  apply display_out_in. exists L, k, nm. split; [|reflexivity].
  destruct Hp as ((lo & Hlo & Ho) & (lc & Hlc & Hc) & Hb).
  assert (Hlen : L + k + 1 < length lines).
  { apply nth_error_Some. rewrite Hlc. discriminate. }
  repeat split.
  - exists lo. rewrite nth_error_app1 by lia. auto.
  - exists lc. rewrite nth_error_app1 by lia. auto.
  - intros j l Hj Hn. rewrite nth_error_app1 in Hn by lia.
    now apply (Hb j l).
Qed.

Example open_ended_run :
  parse_display_snippets open_ended world0
  = ([mkDisplay (lit "a") 1 0],
     add_stderr world0 [lit "Warning: Unclosed display tag '<b>' at line 3"]) /\
  parse_display_snippets (open_ended ++ closing_lines) world0
  = ([mkDisplay (lit "a") 1 0; mkDisplay (lit "b") 3 1], world0).
Proof. vm_compute. split; reflexivity. Qed.

Lemma X19_display_records_kept_witness :
  In (mkDisplay (lit "a") 1 0) (fst (parse_display_snippets open_ended world0)) /\
  In (mkDisplay (lit "a") 1 0)
     (fst (parse_display_snippets (open_ended ++ closing_lines) world0)).
Proof.
  assert (H : In (mkDisplay (lit "a") 1 0)
                 (fst (parse_display_snippets open_ended world0)))
    by (vm_compute; left; reflexivity).
  split; [exact H|].
  exact (X19_display_records_kept open_ended closing_lines world0 _ H).
Defined.
